(** * modern-monaco-self-host: the tooling scripts and the static server

    A shallow embedding of the repository's JavaScript:
    - [scripts/build.js] and [scripts/dev.js]   (module [DevLoop]),
    - [scripts/copy-monaco.js]                  (module [Copier]),
    - [server.js]                               (module [Server]),
    - the setup tester script                   (module [Tester]),
    - the dev process of [scripts/dev.js]       (module [Supervisor]),
    - the page's application with its debug panel
                                    (modules [DebugLogger], [MonacoApp]),
    - the copier, the server and the tester on one project directory
                                                (module [Setup]).

    Asynchronous functions are embedded in direct style: an [await] is a
    sequencing point, a rejected promise is a thrown error, and
    [process.exit] ends the computation with an exit code that no
    [try]/[catch] intercepts. The callbacks that a probe of the tester
    leaves behind run while the script waits later on. Console lines keep
    their text, without the emoji in front. *)

From Stdlib Require Import ZArith Lia Ascii.
From stdpp Require Import base decidable option list strings gmap pretty.

(** ** Computations that may throw or exit the process *)

Module Js.

(** A JavaScript [Error]: Node's [error.code] and [error.message]. *)
Record error := mkError { code : string; message : string }.

(** How a computation over a state [S] ends: it returns a value, it throws,
    or the process exits with a status. *)
Inductive outcome (S A : Type) : Type :=
| Ret (a : A) (s : S)
| Throw (e : error) (s : S)
| Exit (status : Z) (s : S).
Arguments Ret {S A} a s.
Arguments Throw {S A} e s.
Arguments Exit {S A} status s.

Definition M (S A : Type) : Type := S -> outcome S A.

Definition ret {S A} (a : A) : M S A := fun s => Ret a s.

Definition bind {S A B} (m : M S A) (k : A -> M S B) : M S B :=
  fun s =>
    match m s with
    | Ret a s' => k a s'
    | Throw e s' => Throw e s'
    | Exit c s' => Exit c s'
    end.

Definition throw {S A} (e : error) : M S A := fun s => Throw e s.

(** [process.exit(status)]. *)
Definition process_exit {S A} (status : Z) : M S A := fun s => Exit status s.

(** [try { body } catch (error) { handler(error) }]: a thrown error is
    handed to the handler; an exit of the process is not. *)
Definition try_catch {S A} (body : M S A) (handler : error -> M S A) : M S A :=
  fun s =>
    match body s with
    | Ret a s' => Ret a s'
    | Throw e s' => handler e s'
    | Exit c s' => Exit c s'
    end.

Definition get {S} : M S S := fun s => Ret s s.
Definition modify {S} (f : S -> S) : M S unit := fun s => Ret tt (f s).

(** The result of a primitive that either succeeds or fails with an error. *)
Inductive result (A : Type) : Type :=
| Ok (a : A)
| Err (e : error).
Arguments Ok {A} a.
Arguments Err {A} e.

(** [for (const x of xs) { body(x) }]. *)
Section ForOf.
Context {S A : Type} (body : A -> M S unit).
Fixpoint for_of (xs : list A) : M S unit :=
  match xs with
  | [] => ret tt
  | x :: rest => bind (body x) (fun _ => for_of rest)
  end.
End ForOf.

(** The final state, however the computation ended. *)
Definition state_of {S A} (o : outcome S A) : S :=
  match o with Ret _ s | Throw _ s | Exit _ s => s end.

Definition returns {S A} (o : outcome S A) : bool :=
  match o with Ret _ _ => true | _ => false end.

Definition throws {S A} (o : outcome S A) : bool :=
  match o with Throw _ _ => true | _ => false end.

Definition exit_status {S A} (o : outcome S A) : option Z :=
  match o with Exit c _ => Some c | _ => None end.

#[global] Instance M_ret {S} : MRet (M S) := fun A => @ret S A.
#[global] Instance M_bind {S} : MBind (M S) := fun A B k m => @bind S A B m k.

End Js.

(** ** scripts/build.js and scripts/dev.js: the watch-rebuild loop *)

Module DevLoop.
Import Js.

(** What the outside world does to one run of [buildProject]: each I/O step
    of its [try] block either succeeds or fails with an error. *)
Inductive io := IoOk | IoFails (e : error).

Record build_io := mkBuildIo {
  mkdirPublic : io;      (* ensureDir(public) *)
  mkdirDist : io;        (* ensureDir(public/dist) *)
  esbuild : io;          (* build({...}) *)
  copyHtml : io          (* copyFile(src/index.html, public/index.html) *)
}.

Definition console := list string.

Definition log (line : string) : M console unit := modify (fun c => c ++ [line]).

Definition perform (r : io) : M console unit :=
  match r with
  | IoOk => ret tt
  | IoFails e => throw e
  end.

(** build.js, [ensureDir]: an EEXIST error of [fs.mkdir] is swallowed, any
    other one is thrown again. *)
Definition ensureDir (r : io) : M console unit :=
  try_catch (perform r)
    (fun e => if decide (code e = "EEXIST") then ret tt else throw e).

(** build.js, [buildProject]. Every failure inside the [try] block ends in
    [process.exit(1)]. *)
Definition buildProject (w : build_io) : M console unit :=
  log "Building self-hosted Modern Monaco example..." ;;
  try_catch
    (ensureDir (mkdirPublic w) ;;
     ensureDir (mkdirDist w) ;;
     log "Building JavaScript bundle..." ;;
     perform (esbuild w) ;;
     log "Copying HTML file..." ;;
     perform (copyHtml w) ;;
     log "Build completed successfully!")
    (fun e =>
       log ("Build failed: " +:+ message e) ;;
       process_exit 1).

(** The fields of [class DevServer] that [build()] reads and writes. *)
Record DevServer := mkDevServer {
  isBuilding : bool;
  buildQueue : bool
}.

(** The dev process between two turns of the event loop.
    [timers] counts the [setTimeout(() => this.build(), 100)] callbacks that
    have not fired yet, [builds] the calls of [buildProject] made since the
    watcher started.
    [stale] is a ghost flag: a file event was seen after the latest call of
    [buildProject] started. [exited] is the status of [process.exit]. *)
Record proc := mkProc {
  dev : DevServer;
  timers : nat;
  builds : nat;
  stale : bool;
  exited : option Z;
  out : console
}.

(** The dev server when the watcher starts: the first build of [start()]
    has returned, nothing is queued, and the counters start at zero. *)
Definition init : proc :=
  mkProc (mkDevServer false false) 0 0 false None [].

(** [build()] up to its [await]: lines 44-53 of dev.js. *)
Definition build_call (p : proc) : proc :=
  if isBuilding (dev p) then
    mkProc (mkDevServer true true) (timers p) (builds p) (stale p) (exited p) (out p)
  else
    mkProc (mkDevServer true (buildQueue (dev p))) (timers p) (S (builds p)) false
      (exited p) (out p ++ ["Building project..."]).

(** The [finally] block of [build()]: lines 57-65. *)
Definition build_finally (p : proc) : proc :=
  if buildQueue (dev p) then
    mkProc (mkDevServer false false) (S (timers p)) (builds p) (stale p) (exited p) (out p)
  else
    mkProc (mkDevServer false (buildQueue (dev p))) (timers p) (builds p) (stale p)
      (exited p) (out p).

Definition with_out (p : proc) (c : console) : proc :=
  mkProc (dev p) (timers p) (builds p) (stale p) (exited p) c.

(** [build()] after its [await]: the awaited [buildProject] has settled. *)
Definition build_resume (w : build_io) (p : proc) : proc :=
  match buildProject w (out p) with
  | Ret _ c => build_finally (with_out p (c ++ ["Build completed"]))
  | Throw e c => build_finally (with_out p (c ++ ["Build failed: " +:+ message e]))
  | Exit status c =>
      mkProc (dev p) (timers p) (builds p) (stale p) (Some status) c
  end.

(** What the event loop delivers. *)
Inductive event :=
| FileEvent                      (* the watcher's change, add or unlink *)
| BuildSettles (w : build_io)    (* the awaited buildProject() finishes *)
| TimerFires.                    (* a pending setTimeout callback runs *)

(** One turn of the event loop; [None] when the event cannot occur in this
    state (the process is gone, no build is awaited, no timer is pending). *)
Definition step (p : proc) (e : event) : option proc :=
  match exited p with
  | Some _ => None
  | None =>
      match e with
      | FileEvent =>
          Some (build_call
                  (mkProc (dev p) (timers p) (builds p) true (exited p) (out p)))
      | BuildSettles w =>
          if isBuilding (dev p) then Some (build_resume w p) else None
      | TimerFires =>
          match timers p with
          | O => None
          | S n =>
              Some (build_call
                      (mkProc (dev p) n (builds p) (stale p) (exited p) (out p)))
          end
      end
  end.

Fixpoint run (p : proc) (es : list event) : option proc :=
  match es with
  | [] => Some p
  | e :: rest =>
      match step p e with
      | Some p' => run p' rest
      | None => None
      end
  end.

(** The states of the loop as the specification names them. *)
Inductive phase := Idle | Building | BuildQueued.

Definition phase_of (p : proc) : phase :=
  if isBuilding (dev p) then
    if buildQueue (dev p) then BuildQueued else Building
  else Idle.

(** Nothing is running and nothing is scheduled. *)
Definition quiescent (p : proc) : bool :=
  negb (isBuilding (dev p)) && Nat.eqb (timers p) 0.

(** A run of [buildProject] in which every step succeeds. *)
Definition io_ok : build_io := mkBuildIo IoOk IoOk IoOk IoOk.

Definition succeeds (w : build_io) : bool :=
  returns (buildProject w []).

Definition good_event (e : event) : bool :=
  match e with
  | BuildSettles w => succeeds w
  | _ => true
  end.

(** The flag is only raised while a build is awaited, and a change that no
    build has yet covered has a rebuild queued or scheduled. *)
Definition covered (p : proc) : Prop :=
  exited p = None /\
  (buildQueue (dev p) = true -> isBuilding (dev p) = true) /\
  (stale p = true -> buildQueue (dev p) = true \/ 0 < timers p).

(** A run of the bundler that fails: esbuild reports an error. *)
Definition esbuild_fails : build_io :=
  mkBuildIo IoOk IoOk (IoFails (mkError "" "Build failed with 1 error")) IoOk.

(** An outcome of [fs.mkdir] that build.js's [ensureDir] lets pass. *)
Definition tolerated (r : io) : bool :=
  match r with
  | IoOk => true
  | IoFails e => bool_decide (code e = "EEXIST")
  end.

(** The watcher's events in a run of the loop. *)
Fixpoint changes (es : list event) : nat :=
  match es with
  | [] => 0
  | FileEvent :: rest => S (changes rest)
  | _ :: rest => changes rest
  end.

(** Rebuilds that are wanted but not yet started: pending timers, and the
    raised flag. *)
Definition pending (p : proc) : nat :=
  timers p + (if buildQueue (dev p) then 1 else 0).

End DevLoop.

(** ** scripts/copy-monaco.js: the asset copier *)

Module Copier.
Import Js.

Definition path := list string.

(** The source tree as [fs.readdir] walks it: a file with its bytes, or a
    directory with its entries in listing order. The copier only reads it,
    and in every call the repository makes it is disjoint from the
    destination (node_modules/modern-monaco/dist against public/monaco). *)
#[warnings="-register-all"]
Inductive node :=
| File (data : string)
| Dir (entries : list (string * node)).

(** The file system that is written: what is stored at each path. The root
    [[]] is a directory. *)
Inductive entry := F (data : string) | D.

#[global] Instance entry_eq_dec : EqDecision entry.
Proof. solve_decision. Defined.

Definition stat (m : gmap path entry) (p : path) : option entry :=
  match p with
  | [] => Some D
  | _ => m !! p
  end.

Record world := mkWorld {
  fs : gmap path entry;
  console : list string
}.

Definition EEXIST := mkError "EEXIST" "file already exists".
Definition ENOENT := mkError "ENOENT" "no such file or directory".
Definition ENOTDIR := mkError "ENOTDIR" "not a directory".
Definition EISDIR := mkError "EISDIR" "illegal operation on a directory".

(** [fs.mkdir(dir, { recursive: true })], walking [rest] below [pre]: missing
    components are created, existing directories are kept; a file in the way
    is ENOTDIR, a file at the path itself EEXIST. *)
Fixpoint mkdirp (pre rest : path) (m : gmap path entry) : result (gmap path entry) :=
  match rest with
  | [] => Ok m
  | x :: rest' =>
      let cur := pre ++ [x] in
      match m !! cur with
      | Some D => mkdirp cur rest' m
      | Some (F _) => Err (match rest' with [] => EEXIST | _ => ENOTDIR end)
      | None => mkdirp cur rest' (<[cur := D]> m)
      end
  end.

(** [path.dirname]. *)
Definition dirname (p : path) : path := removelast p.

(** Writing the bytes of a file at [p]: the parent must be a directory and
    [p] itself must not be one. *)
Definition write (p : path) (data : string) (m : gmap path entry)
  : result (gmap path entry) :=
  match stat m (dirname p) with
  | None => Err ENOENT
  | Some (F _) => Err ENOTDIR
  | Some D =>
      match stat m p with
      | Some D => Err EISDIR
      | _ => Ok (<[p := F data]> m)
      end
  end.

(** Lifting a primitive on the file system to the world. *)
Definition io (f : gmap path entry -> result (gmap path entry)) : M world unit :=
  fun w =>
    match f (fs w) with
    | Ok m => Ret tt (mkWorld m (console w))
    | Err e => Throw e w
    end.

Definition fs_mkdir_recursive (dir : path) : M world unit := io (mkdirp [] dir).

(** [fs.copyFile(src, dest)], where [at_src] is what the source tree holds
    at [src]. *)
Definition fs_copyFile (at_src : option node) (dest : path) : M world unit :=
  match at_src with
  | None => throw ENOENT
  | Some (Dir _) => throw EISDIR
  | Some (File data) => io (write dest data)
  end.

Definition fs_writeFile (p : path) (data : string) : M world unit := io (write p data).

(** [fs.access(p)] on the written file system. *)
Definition fs_access (p : path) : M world unit :=
  fun w => if decide (is_Some (stat (fs w) p)) then Ret tt w else Throw ENOENT w.

Definition log (line : string) : M world unit :=
  modify (fun w => mkWorld (fs w) (console w ++ [line])).

Definition show (p : path) : string := String.concat "/" p.

(** copy-monaco.js, lines 9-17. *)
Definition ensureDir (dir : path) : M world unit :=
  try_catch (fs_mkdir_recursive dir)
    (fun e => if decide (code e = "EEXIST") then ret tt else throw e).

(** copy-monaco.js, lines 19-28. *)
Definition copyFile (src : path) (at_src : option node) (dest : path) : M world bool :=
  try_catch
    (ensureDir (dirname dest) ;;
     fs_copyFile at_src dest ;;
     mret true)
    (fun e =>
       log ("Could not copy " +:+ show src +:+ ": " +:+ message e) ;;
       mret false).

(** copy-monaco.js, lines 30-48. [n] is the node of the source tree at
    [src]; [fs.readdir] of a file throws ENOTDIR. *)
Fixpoint copyDirectory (n : node) (src dest : path) {struct n} : M world unit :=
  try_catch
    (ensureDir dest ;;
     match n with
     | File _ => throw ENOTDIR
     | Dir entries =>
         for_of
           (fun e =>
              let '(name, child) := e in
              match child with
              | Dir _ => copyDirectory child (src ++ [name]) (dest ++ [name])
              | File _ =>
                  copyFile (src ++ [name]) (Some child) (dest ++ [name]) ;;
                  mret tt
              end)
           entries
     end)
    (fun e =>
       log ("Could not copy directory " +:+ show src +:+ ": " +:+ message e)).

(** [copyDirectory(src, dest)] for whatever the source tree holds at [src]:
    when nothing is there, [fs.readdir] throws ENOENT inside the [try]. *)
Definition copyDirectoryAt (at_src : option node) (src dest : path) : M world unit :=
  match at_src with
  | Some n => copyDirectory n src dest
  | None =>
      try_catch (ensureDir dest ;; throw ENOENT)
        (fun e =>
           log ("Could not copy directory " +:+ show src +:+ ": " +:+ message e))
  end.

(** [fs.access] on the source tree. *)
Definition src_access (at_src : option node) : M world unit :=
  match at_src with
  | Some _ => mret tt
  | None => throw ENOENT
  end.

Definition monacoDistPath : path := ["node_modules"; "modern-monaco"; "dist"].
Definition publicMonacoPath : path := ["public"; "monaco"].

(** copy-monaco.js, lines 75-84; each name is split at its slashes. *)
Definition criticalFiles : list path :=
  [ ["index.mjs"];
    ["editor-core.mjs"];
    ["editor-worker.mjs"];
    ["lsp"; "typescript"; "worker.mjs"];
    ["lsp"; "html"; "worker.mjs"];
    ["lsp"; "css"; "worker.mjs"];
    ["lsp"; "json"; "worker.mjs"];
    ["onig.wasm"] ].

Definition verificationFile : path := publicMonacoPath ++ ["verification.json"].

Definition quote : string := String "034"%char EmptyString.
Definition newline : string := String "010"%char EmptyString.
Definition quoted (s : string) : string := quote +:+ s +:+ quote.

(** [JSON.stringify(verificationData, null, 2)] for the object of lines
    109-113. *)
Definition verificationData (timestamp : string) : string :=
  "{" +:+ newline +:+
  "  " +:+ quoted "timestamp" +:+ ": " +:+ quoted timestamp +:+ "," +:+ newline +:+
  "  " +:+ quoted "files" +:+ ": [" +:+ newline +:+
  String.concat ("," +:+ newline)
    (map (fun f => "    " +:+ quoted (show f)) criticalFiles) +:+ newline +:+
  "  ]," +:+ newline +:+
  "  " +:+ quoted "status" +:+ ": " +:+ quoted "ready" +:+ newline +:+
  "}".

(** Lines 51-72: the distribution is looked for and copied. *)
Definition copyPhase (dist : option node) : M world unit :=
  log "Copying modern-monaco distribution files..." ;;
  log "projectRoot" ;;
  log ("monacoPath " +:+ show (dirname monacoDistPath)) ;;
  log ("monacoDistPath " +:+ show monacoDistPath) ;;
  try_catch
    (src_access dist ;;
     log "Found modern-monaco dist directory")
    (fun _ =>
       log "Modern-monaco dist directory not found!" ;;
       log "   Please run npm run prepublishOnly in the root directory first" ;;
       log ("   Looking for: " +:+ show monacoDistPath) ;;
       process_exit 1) ;;
  copyDirectoryAt dist monacoDistPath publicMonacoPath.

(** Lines 89-98: the loop over [criticalFiles] with its flag
    [allFilesPresent]. *)
Fixpoint verifyFiles (files : list path) (allFilesPresent : bool) : M world bool :=
  match files with
  | [] => mret allFilesPresent
  | file :: rest =>
      present ← try_catch
        (fs_access (publicMonacoPath ++ file) ;;
         log ("Found: " +:+ show file) ;;
         mret allFilesPresent)
        (fun _ =>
           log ("Missing: " +:+ show file) ;;
           mret false) ;
      verifyFiles rest present
  end.

(** Lines 86-120: the critical files are verified and the manifest is
    written. [now] is [new Date().toISOString()]. *)
Definition verifyPhase (now : string) : M world unit :=
  log "Verifying critical files..." ;;
  allFilesPresent ← verifyFiles criticalFiles true ;
  (if negb allFilesPresent then
     log "Some critical files are missing!" ;;
     process_exit 1
   else mret tt) ;;
  log "Modern-monaco files copied successfully!" ;;
  log ("Copied to: " +:+ show publicMonacoPath) ;;
  fs_writeFile verificationFile (verificationData now) ;;
  log "Created verification.json for debugging".

(** copy-monaco.js, lines 50-121. *)
Definition copyModernMonaco (dist : option node) (now : string) : M world unit :=
  copyPhase dist ;; verifyPhase now.

(** Lines 124-129: the script run from the command line. *)
Definition main (dist : option node) (now : string) : M world unit :=
  try_catch (copyModernMonaco dist now)
    (fun e =>
       log ("Copy failed: " +:+ message e) ;;
       process_exit 1).

(** The world when the copy is over (when [copyPhase] has ended). *)
Definition after_copy (dist : option node) (w : world) : world :=
  state_of (copyPhase dist w).

(** Every critical file is there under public/monaco. *)
Definition all_present (m : gmap path entry) : bool :=
  forallb (fun f => bool_decide (is_Some (stat m (publicMonacoPath ++ f))))
    criticalFiles.

(** *** Source trees *)

Fixpoint assoc (x : string) (es : list (string * node)) : option node :=
  match es with
  | [] => None
  | (y, n) :: rest => if decide (x = y) then Some n else assoc x rest
  end.

(** The node of the tree at a relative path. *)
Fixpoint lookup_node (n : node) (r : path) : option node :=
  match r with
  | [] => Some n
  | x :: r' =>
      match n with
      | File _ => None
      | Dir es =>
          match assoc x es with
          | Some c => lookup_node c r'
          | None => None
          end
      end
  end.

Definition entry_of (n : node) : entry :=
  match n with
  | File data => F data
  | Dir _ => D
  end.

(** The regular files of a tree, with their relative paths and bytes. *)
Fixpoint files (n : node) : list (path * string) :=
  match n with
  | File data => [([], data)]
  | Dir es =>
      flat_map
        (fun e => map (fun f => (e.1 :: f.1, f.2)) (files e.2))
        es
  end.

(** A directory listing names each entry once, at every level. *)
Fixpoint well_formed (n : node) : Prop :=
  match n with
  | File _ => True
  | Dir es =>
      NoDup (map fst es) /\
      fold_right (fun e acc => well_formed e.2 /\ acc) True es
  end.

(** The regular files found below [dest] in the written file system. *)
Definition files_below (dest : path) (m : gmap path entry) : list (path * string) :=
  omap
    (fun kv =>
       match kv.2 with
       | F data =>
           if decide (dest `prefix_of` kv.1 /\ kv.1 <> dest)
           then Some (drop (length dest) kv.1, data)
           else None
       | D => None
       end)
    (map_to_list m).

(** Nothing lies below [dest], and nothing but directories above it. *)
Definition empty_destination (dest : path) (m : gmap path entry) : Prop :=
  (forall q, q `prefix_of` dest -> stat m q = None \/ stat m q = Some D) /\
  (forall r, r <> [] -> m !! (dest ++ r) = None).

(** [dest] and everything above it is a directory. *)
Definition dirs_upto (dest : path) (m : gmap path entry) : Prop :=
  forall q, q `prefix_of` dest -> stat m q = Some D.

(** One turn of the loop of lines 35-44. *)
Definition copyEntry (src dest : path) (e : string * node) : M world unit :=
  let '(name, child) := e in
  match child with
  | Dir _ => copyDirectory child (src ++ [name]) (dest ++ [name])
  | File _ =>
      copyFile (src ++ [name]) (Some child) (dest ++ [name]) ;;
      mret tt
  end.

(** From [m] to [m'] directories stay, and only paths in [K] change. *)
Definition touched_only (K : path -> Prop) (m m' : gmap path entry) : Prop :=
  (forall q, m !! q = Some D -> m' !! q = Some D) /\
  (forall q, ~ K q -> m' !! q = m !! q).

Definition is_dir (n : node) : Prop := exists es, n = Dir es.

(** The tree [n] is what lies below [dest]. *)
Definition mirrors (n : node) (dest : path) (m : gmap path entry) : Prop :=
  forall r, r <> [] -> m !! (dest ++ r) = entry_of <$> lookup_node n r.

(** The paths at, above or below [dest]. *)
Definition around (dest : path) (q : path) : Prop :=
  q `prefix_of` dest \/ dest `prefix_of` q.

(** A distribution with a file at the top and one in a directory. *)
Definition small_dist : node :=
  Dir [ ("index.mjs", File "export {}");
        ("lsp", Dir [("worker.mjs", File "onmessage = null")]) ].

(** A destination in which a directory has the name of a source file. *)
Definition taken : world :=
  mkWorld (<[ ["out"; "a"] := D ]> (<[ ["out"] := D ]> ∅)) [].

(** A complete distribution. *)
Definition full_dist : node :=
  Dir [ ("index.mjs", File "a");
        ("editor-core.mjs", File "b");
        ("editor-worker.mjs", File "c");
        ("lsp",
         Dir [ ("typescript", Dir [("worker.mjs", File "d")]);
               ("html", Dir [("worker.mjs", File "e")]);
               ("css", Dir [("worker.mjs", File "f")]);
               ("json", Dir [("worker.mjs", File "g")]) ]);
        ("onig.wasm", File "h") ].

(** From [m] to [m'] nothing is removed: a directory is still a directory
    and a file is still a file, with these or other bytes. *)
Definition nothing_removed (m m' : gmap path entry) : Prop :=
  (forall q, m !! q = Some D -> m' !! q = Some D) /\
  (forall q data, m !! q = Some (F data) -> exists data', m' !! q = Some (F data')).

(** A destination whose place is taken by a regular file. *)
Definition blocked : world :=
  mkWorld (<[ ["out"] := F "not a directory" ]> ∅) [].

End Copier.

(** ** JavaScript string methods *)

Module Str.

Definition chars (s : string) : list ascii := String.list_ascii_of_string s.

(** [s.endsWith(suffix)] and [s.startsWith(prefix)]. *)
Definition endsWith (s suffix : string) : bool :=
  bool_decide (chars suffix `suffix_of` chars s).

Definition startsWith (s prefix : string) : bool :=
  bool_decide (chars prefix `prefix_of` chars s).

(** [s.includes(sub)]: [sub] occurs in [s] as a run of characters. *)
Fixpoint occurs (sub s : list ascii) : bool :=
  bool_decide (sub `prefix_of` s) ||
  match s with
  | [] => false
  | _ :: s' => occurs sub s'
  end.

Definition includes (s sub : string) : bool := occurs (chars sub) (chars s).

(** [s.toLowerCase()] on ASCII. *)
Definition lower_char (c : ascii) : ascii :=
  let n := nat_of_ascii c in
  if (65 <=? n)%nat && (n <=? 90)%nat then ascii_of_nat (n + 32) else c.

Definition toLowerCase (s : string) : string :=
  String.string_of_list_ascii (map lower_char (chars s)).

(** [s.slice(n)]. *)
Definition slice (n : nat) (s : string) : string :=
  String.string_of_list_ascii (drop n (chars s)).

(** [s.slice(0, n)]. *)
Definition leading (n : nat) (s : string) : string :=
  String.string_of_list_ascii (take n (chars s)).

(** *** [decodeURIComponent] *)

Definition hex (c : ascii) : option nat :=
  let n := nat_of_ascii c in
  if (48 <=? n)%nat && (n <=? 57)%nat then Some (n - 48)
  else if (65 <=? n)%nat && (n <=? 70)%nat then Some (n - 55)
  else if (97 <=? n)%nat && (n <=? 102)%nat then Some (n - 87)
  else None.

(** A string as the decoder reads it: a character that stands for itself,
    an escape of a percent sign and two hexadecimal digits with the octet
    it gives, or a percent sign that is followed by something else. *)
Inductive token :=
| Plain
| Octet (b : nat)
| Broken.

Fixpoint tokens (s : list ascii) : list token :=
  match s with
  | [] => []
  | c :: rest =>
      if Ascii.eqb c "%" then
        match rest with
        | h1 :: h2 :: rest' =>
            match hex h1, hex h2 with
            | Some a, Some b => Octet (16 * a + b) :: tokens rest'
            | _, _ => [Broken]
            end
        | _ => [Broken]
        end
      else Plain :: tokens rest
  end.

(** The octets of the escapes must be UTF-8: an octet below 128 alone, or
    a leading octet followed at once by the escapes of its continuation
    octets, neither over-long nor a surrogate nor beyond U+10FFFF.
    [need] continuation octets are still expected, the next one between
    [lo] and [hi]. *)
Fixpoint wellFormed (need lo hi : nat) (ts : list token) : bool :=
  match ts with
  | [] => Nat.eqb need 0
  | t :: rest =>
      match need with
      | O =>
          match t with
          | Plain => wellFormed 0 0 0 rest
          | Broken => false
          | Octet b =>
              if (b <? 128)%nat then wellFormed 0 0 0 rest
              else if (194 <=? b)%nat && (b <=? 223)%nat then wellFormed 1 128 191 rest
              else if (b =? 224)%nat then wellFormed 2 160 191 rest
              else if (225 <=? b)%nat && (b <=? 236)%nat then wellFormed 2 128 191 rest
              else if (b =? 237)%nat then wellFormed 2 128 159 rest
              else if (238 <=? b)%nat && (b <=? 239)%nat then wellFormed 2 128 191 rest
              else if (b =? 240)%nat then wellFormed 3 144 191 rest
              else if (241 <=? b)%nat && (b <=? 243)%nat then wellFormed 3 128 191 rest
              else if (b =? 244)%nat then wellFormed 3 128 143 rest
              else false
          end
      | S n =>
          match t with
          | Octet b => (lo <=? b)%nat && (b <=? hi)%nat && wellFormed n 128 191 rest
          | _ => false
          end
      end
  end.

(** [decodeURIComponent(s)] returns; otherwise it throws a URIError. *)
Definition decodable (s : string) : bool := wellFormed 0 0 0 (tokens (chars s)).

End Str.

(** ** server.js: the static asset server *)

Module Server.
Import Str.

(** A GET request: [req.path] and whether [req.accepts('html')] holds. *)
Record request := mkRequest {
  path : string;
  acceptsHtml : bool
}.

(** What the server sends. *)
Inductive body :=
| SentFile (filePath : string)                  (* the bytes of a file *)
| Text (text : string)                          (* res.send(text) *)
| HealthJson (timestamp : string)               (* line 75 *)
| DebugJson (files : list (string * string))    (* line 95 *)
| ErrorJson (message : string)                  (* line 128 *)
| Redirect.                                     (* the page of a 301 *)

(** [status] and [payload] are what the client gets; [headers] holds what
    server.js sets itself and, for a file, the Content-Type that the send
    library adds when none is set. The other headers that Express and the
    compression middleware add while sending are left out. *)
Record response := mkResponse {
  status : nat;
  headers : gmap string string;
  payload : body
}.

(** The server's surroundings. [isFile e (root +:+ p)] tells that the
    send library, asked by express.static or res.sendFile for the request
    path [p] below [root], finds a regular file and sends it; that is
    after its own decoding of the path, and it finds none for a path that
    does not decode, that climbs out of the root or that names a dot
    file. [isDirectory e (root +:+ p)] tells that it finds a directory,
    with the same exceptions; no path is both. Then the Content-Type the
    library derives from a file name, the clock and the port. *)
Record env := mkEnv {
  isFile : string -> bool;
  isDirectory : string -> bool;
  mimeType : string -> string;
  now : string;
  PORT : string
}.

(** A middleware either passes the request on, with the headers set so
    far, or ends it with a response. *)
Inductive handled :=
| Next (h : gmap string string)
| Done (r : response).

Definition and_then (a : handled) (k : gmap string string -> handled) : handled :=
  match a with
  | Next h => k h
  | Done r => Done r
  end.

Definition setHeader (name value : string) (h : gmap string string)
  : gmap string string := <[name := value]> h.

(** Lines 17-22: the cors middleware on a GET request allows every
    origin. *)
Definition cors (h : gmap string string) : handled :=
  Next (setHeader "Access-Control-Allow-Origin" "*" h).

(** [req.path.match(/\.(mjs|wasm|js|css|html)$/)]. *)
Definition assetExtension (p : string) : bool :=
  endsWith p ".mjs" || endsWith p ".wasm" || endsWith p ".js" ||
  endsWith p ".css" || endsWith p ".html".

(** Lines 25-46: the MIME, cache and isolation headers. *)
Definition mimeMiddleware (req : request) (h : gmap string string) : handled :=
  let h := if endsWith (path req) ".mjs"
           then setHeader "Content-Type" "application/javascript" h else h in
  let h := if endsWith (path req) ".wasm"
           then setHeader "Content-Type" "application/wasm" h else h in
  let h := if assetExtension (path req)
           then setHeader "Cache-Control" "public, max-age=31536000" h else h in
  let h := setHeader "Cross-Origin-Embedder-Policy" "require-corp" h in
  let h := setHeader "Cross-Origin-Opener-Policy" "same-origin" h in
  Next h.

(** The [setHeaders] option of both express.static calls, lines 51-59 and
    64-70. *)
Definition setHeaders (filePath : string) (h : gmap string string)
  : gmap string string :=
  let h := if endsWith filePath ".mjs"
           then setHeader "Content-Type" "application/javascript" h else h in
  if endsWith filePath ".wasm"
  then setHeader "Content-Type" "application/wasm" h else h.

(** The send library gives a file its Content-Type only when the response
    has none yet. *)
Definition sendType (e : env) (filePath : string) (h : gmap string string)
  : gmap string string :=
  match h !! "Content-Type" with
  | Some _ => h
  | None => setHeader "Content-Type" (mimeType e filePath) h
  end.

(** The answer of express.static for a directory that the path names
    without a slash at its end: status 301 to the path with the slash. Of
    the headers that the library sets on it only the Content-Type is
    kept. *)
Definition redirect (h : gmap string string) : response :=
  mkResponse 301 (setHeader "Content-Type" "text/html; charset=UTF-8" h) Redirect.

(** [express.static(root, { setHeaders })] on the path [p]: the file below
    [root], or the index.html of a path that ends in a slash, is sent,
    [setHeaders] running before the library sets the type; a directory
    named without a slash at the end is answered with the redirect; every
    other request is passed on. *)
Definition staticFile (root p : string) : string :=
  if endsWith p "/" then root +:+ p +:+ "index.html" else root +:+ p.

Definition serveStatic (e : env) (root p : string) (h : gmap string string)
  : handled :=
  let filePath := staticFile root p in
  if isFile e filePath
  then Done (mkResponse 200 (sendType e filePath (setHeaders filePath h))
               (SentFile filePath))
  else if negb (endsWith p "/") && isDirectory e (root +:+ p)
  then Done (redirect h)
  else Next h.

Definition publicRoot : string := "public".
Definition distRoot : string := "../../dist".

(** [app.use('/monaco', ...)]: the middleware sees the path with the mount
    point cut off when the path is the mount point or continues it with a
    slash (letter case ignored). For the mount point itself the library
    looks at its root. *)
Definition mounted (mount p : string) : option string :=
  let n := String.length mount in
  let rest := slice n p in
  if startsWith (toLowerCase p) mount &&
     (bool_decide (rest = "") || startsWith rest "/")
  then Some rest else None.

Definition serveMonaco (e : env) (req : request) (h : gmap string string)
  : handled :=
  match mounted "/monaco" (path req) with
  | Some rest => serveStatic e distRoot rest h
  | None => Next h
  end.

(** Express matches a route path without regard to letter case and with
    an optional slash at the end; a star stands for any run of
    characters. *)
Definition routeIs (route p : string) : bool :=
  let q := toLowerCase p in
  bool_decide (q = route) || bool_decide (q = route +:+ "/").

Definition routeEndsWith (ext p : string) : bool :=
  let q := toLowerCase p in
  endsWith q ext || endsWith q (ext +:+ "/").

(** Lines 82-92: the list of the debug endpoint. *)
Definition debugFiles : list string :=
  [ "/monaco/index.mjs";
    "/monaco/editor-core.mjs";
    "/monaco/lsp/index.mjs";
    "/monaco/lsp/typescript/worker.mjs";
    "/monaco/lsp/html/worker.mjs";
    "/monaco/lsp/css/worker.mjs";
    "/monaco/lsp/json/worker.mjs";
    "/monaco/onig.wasm" ].

Definition indexHtml : string := "public/index.html".

(** What a route with a star hands to [decodeURIComponent] before its
    handler is called: the run of characters that the star stands for.
    For [*.js] it is the path without the extension and the optional
    slash. *)
Definition capture (ext p : string) : string :=
  let n := if endsWith (toLowerCase p) ext
           then String.length ext else S (String.length ext) in
  leading (String.length p - n) p.

(** The run of characters that the first route with a star to match the
    path decodes. *)
Definition param (p : string) : string :=
  if routeEndsWith ".js" p then capture ".js" p
  else if routeEndsWith ".mjs" p then capture ".mjs" p
  else p.

(** A parameter that does not decode: Express skips the remaining routes
    and hands the error to the error handler of lines 126-132. *)
Definition decodeError (val : string) (h : gmap string string) : response :=
  mkResponse 500 h (ErrorJson ("Failed to decode param '" +:+ val +:+ "'")).

(** [res.sendFile(file)]; a file that is not there goes, as an error, to
    the error handler of lines 126-132. *)
Definition sendFile (e : env) (file : string) (h : gmap string string) : response :=
  if isFile e file
  then mkResponse 200 (sendType e file h) (SentFile file)
  else mkResponse 500 h (ErrorJson "ENOENT").

(** Lines 73-123: the routes, in the order they are registered. The two
    first have no parameter; each of the others decodes what its star
    stands for when its pattern matches. *)
Definition routes (e : env) (req : request) (h : gmap string string) : response :=
  let p := path req in
  if routeIs "/health" p then
    mkResponse 200 h (HealthJson (now e))
  else if routeIs "/debug/files" p then
    mkResponse 200 h
      (DebugJson
         (map (fun f => (f, "http://localhost:" +:+ PORT e +:+ f)) debugFiles))
  else if routeEndsWith ".js" p then
    if decodable (capture ".js" p)
    then mkResponse 404 h (Text "JavaScript file not found")
    else decodeError (capture ".js" p) h
  else if routeEndsWith ".mjs" p then
    if decodable (capture ".mjs" p)
    then mkResponse 404 h (Text "Module file not found")
    else decodeError (capture ".mjs" p) h
  else if negb (decodable p) then
    decodeError p h
  else if acceptsHtml req && negb (includes p ".") then
    sendFile e indexHtml h
  else
    mkResponse 404 h (Text "File not found").

(** The static middlewares, lines 49-71. *)
Definition statics (e : env) (req : request) (h : gmap string string) : handled :=
  and_then (serveStatic e publicRoot (path req) h) (serveMonaco e req).

(** The whole application on a GET request. The compression middleware of
    line 14 changes neither status, body nor the headers kept here. *)
Definition respond (e : env) (req : request) : response :=
  match
    and_then (and_then (cors ∅) (mimeMiddleware req)) (statics e req)
  with
  | Done r => r
  | Next h => routes e req h
  end.

(** The request is answered from a file by one of the static middlewares. *)
Definition servedStatically (e : env) (req : request) : option string :=
  match
    and_then (and_then (cors ∅) (mimeMiddleware req)) (statics e req)
  with
  | Done r =>
      match payload r with
      | SentFile f => Some f
      | _ => None
      end
  | Next _ => None
  end.

(** The request is answered by one of the static middlewares with the
    redirect of a directory. *)
Definition redirected (e : env) (req : request) : bool :=
  match
    and_then (and_then (cors ∅) (mimeMiddleware req)) (statics e req)
  with
  | Done r => bool_decide (status r = 301)
  | Next _ => false
  end.

(** The request is answered before the handlers of lines 104-123 are
    tried: by a static file or the redirect of a directory, the health
    check or the debug endpoint. *)
Definition answeredEarlier (e : env) (req : request) : bool :=
  bool_decide (is_Some (servedStatically e req)) ||
  redirected e req ||
  routeIs "/health" (path req) ||
  routeIs "/debug/files" (path req).

Definition javascript : string := "application/javascript".
Definition wasm : string := "application/wasm".

(** The headers with which a request leaves the cors and MIME
    middlewares. *)
Definition preset (req : request) : gmap string string :=
  match and_then (cors ∅) (mimeMiddleware req) with
  | Next h => h
  | Done r => headers r
  end.

(** A server whose static root holds the copied editor and the built
    page. *)
Definition site : env :=
  mkEnv
    (fun f =>
       bool_decide (f = "public/monaco/index.mjs") ||
       bool_decide (f = "public/monaco/onig.wasm") ||
       bool_decide (f = "public/index.html"))
    (fun f =>
       bool_decide (f = "public/monaco") ||
       bool_decide (f = "public/dist"))
    (fun _ => "application/octet-stream")
    "2025-01-01T00:00:00.000Z"
    "3000".

(** [h'] differs from [h] at most in its Content-Type. *)
Definition same_but_type (h h' : gmap string string) : Prop :=
  forall name, name <> "Content-Type" -> h' !! name = h !! name.


End Server.

(** ** The setup tester script (class SetupTester) *)

Module Tester.
Import Js Str.

Definition path := list string.

(** What is stored at a path of the project directory. *)
Inductive stored :=
| Bytes (content : string)     (* a readable file *)
| Folder.                      (* a directory *)

(** JSON values, as [JSON.parse] returns them (numbers as integers). *)
#[warnings="-register-all"]
Inductive json :=
| JNull
| JBool (b : bool)
| JNumber (z : Z)
| JString (s : string)
| JArray (items : list json)
| JObject (fields : list (string * json)).

(** What a callback of an earlier probe does when it runs late. *)
Inductive late :=
| LateTimeout                 (* the callback of lines 83-87 *)
| LateError (e : error).      (* the callback of lines 78-81 *)

(** How one [http.get] goes; each of its three callbacks logs when it
    runs, and the first to run resolves the promise.
    - [Response]: the response arrives first. The script never reads its
      body, so the socket stays open: [after] tells whether it then idles
      for the 5000 ms of [request.setTimeout], or fails, so that a second
      callback runs, and how many of the script's later waits go by
      before that.
    - [RequestError]: the request fails first (a refused connection); its
      socket is gone, nothing comes after.
    - [SocketTimeout]: no response within 5000 ms. The timeout callback
      runs first; its [request.destroy()] makes the request fail with
      socket hang up, so the error callback runs too, [hangup] waits
      later. *)
Inductive http_event :=
| Response (statusCode : nat) (after : option (nat * late))
| RequestError (e : error)
| SocketTimeout (hangup : nat).

(** The surroundings of one run of the script. *)
Record env := mkEnv {
  disk : path -> option stored;
  http_get : string -> http_event;
  JSON_parse : string -> result json
}.

Inductive log_type := Success | Error | Warning | Info.

#[global] Instance log_type_eq_dec : EqDecision log_type.
Proof. solve_decision. Defined.

(** Who calls [log]: the script on its way, or a callback of an earlier
    probe that runs late. *)
Inductive origin := Check | Callback.

(** The three arrays of the constructor, and beside them what the run did
    in order: every call of [log] with its caller and its type, and every
    request sent. [pending] holds the callbacks of earlier probes that
    are still to run: the number of waits of the script that go by
    before, and the message they log as an error. *)
Record tester := mkTester {
  errors : list string;
  warnings : list string;
  successes : list string;
  logged : list (origin * log_type * string);
  requests : list string;
  pending : list (nat * string)
}.

Definition fresh : tester := mkTester [] [] [] [] [] [].

(** Lines 17-37: [log(message, type)]; the line written to the console is
    kept in [logged] without its time stamp. *)
Definition log_from (o : origin) (message : string) (type : log_type)
  : M tester unit :=
  modify (fun t =>
    let l := logged t ++ [(o, type, message)] in
    match type with
    | Success =>
        mkTester (errors t) (warnings t) (successes t ++ [message]) l (requests t)
          (pending t)
    | Error =>
        mkTester (errors t ++ [message]) (warnings t) (successes t) l (requests t)
          (pending t)
    | Warning =>
        mkTester (errors t) (warnings t ++ [message]) (successes t) l (requests t)
          (pending t)
    | Info =>
        mkTester (errors t) (warnings t) (successes t) l (requests t) (pending t)
    end).

Definition log (message : string) (type : log_type) : M tester unit :=
  log_from Check message type.

(** The script waits for the file system or the network: the callbacks
    that are due run now, in the order they were set, and the others are
    one wait nearer. *)
Definition settle : M tester unit :=
  t ← get ;
  modify (fun t =>
    mkTester (errors t) (warnings t) (successes t) (logged t) (requests t)
      (map (fun c => (pred c.1, c.2)) (filter (fun c => c.1 <> 0) (pending t)))) ;;
  for_of (fun c : nat * string => log_from Callback c.2 Error)
    (filter (fun c => c.1 = 0) (pending t)).

(** A callback that will run after [delay] further waits. *)
Definition later (delay : nat) (message : string) : M tester unit :=
  modify (fun t =>
    mkTester (errors t) (warnings t) (successes t) (logged t) (requests t)
      (pending t ++ [(delay, message)])).

Definition ENOENT := mkError "ENOENT" "no such file or directory".
Definition EISDIR := mkError "EISDIR" "illegal operation on a directory".

Definition fs_access (e : env) (p : path) : M tester unit :=
  settle ;;
  match disk e p with
  | Some _ => mret tt
  | None => throw ENOENT
  end.

Definition fs_readFile (e : env) (p : path) : M tester string :=
  settle ;;
  match disk e p with
  | Some (Bytes content) => mret content
  | Some Folder => throw EISDIR
  | None => throw ENOENT
  end.

Definition show (p : path) : string := String.concat "/" p.

(** Lines 39-48. *)
Definition testFileExists (e : env) (filePath : path) (description : string)
  : M tester bool :=
  try_catch
    (fs_access e filePath ;;
     log (description +:+ " exists") Success ;;
     mret true)
    (fun _ =>
       log (description +:+ " missing: " +:+ show filePath) Error ;;
       mret false).

(** Lines 50-64. *)
Definition testFileContent (e : env) (filePath : path)
    (description expectedContent : string) : M tester bool :=
  try_catch
    (content ← fs_readFile e filePath ;
     if includes content expectedContent then
       log (description +:+ " contains expected content") Success ;;
       mret true
     else
       log (description +:+ " missing expected content: " +:+ expectedContent)
         Warning ;;
       mret false)
    (fun error =>
       log ("Cannot read " +:+ description +:+ ": " +:+ message error) Error ;;
       mret false).

(** The message of a callback that runs late. *)
Definition lateMessage (description : string) (l : late) : string :=
  match l with
  | LateTimeout => description +:+ " timeout"
  | LateError error => description +:+ " not accessible: " +:+ message error
  end.

(** Lines 66-89: one request is sent, and the script waits. The first of
    the three callbacks to run logs and resolves the promise; no callback
    rejects it, none is taken away, and a second one to run logs as
    well. *)
Definition testHttpEndpoint (e : env) (url description : string) : M tester bool :=
  modify (fun t =>
    mkTester (errors t) (warnings t) (successes t) (logged t) (requests t ++ [url])
      (pending t)) ;;
  settle ;;
  match http_get e url with
  | Response statusCode after =>
      match after with
      | Some (delay, l) => later delay (lateMessage description l)
      | None => mret tt
      end ;;
      if decide (statusCode = 200) then
        log (description +:+ " responds correctly (" +:+ pretty statusCode +:+ ")")
          Success ;;
        mret true
      else
        log (description +:+ " returns " +:+ pretty statusCode) Warning ;;
        mret false
  | RequestError error =>
      log (description +:+ " not accessible: " +:+ message error) Error ;;
      mret false
  | SocketTimeout hangup =>
      log (description +:+ " timeout") Error ;;
      later hangup (description +:+ " not accessible: socket hang up") ;;
      mret false
  end.

(** Reading a property: [None] is [undefined]; reading one of [null]
    throws a TypeError. *)
Fixpoint field (name : string) (fields : list (string * json)) : option json :=
  match fields with
  | [] => None
  | (k, v) :: rest => if decide (k = name) then Some v else field name rest
  end.

Definition TypeError := mkError "TypeError" "Cannot read properties of null".

Definition property (v : json) (name : string) : M tester (option json) :=
  match v with
  | JNull => throw TypeError
  | JObject fields => mret (field name fields)
  | _ => mret None
  end.

Definition truthy (v : option json) : bool :=
  match v with
  | None | Some JNull | Some (JBool false) => false
  | Some (JNumber z) => negb (Z.eqb z 0)
  | Some (JString s) => negb (bool_decide (s = ""))
  | _ => true
  end.

(** [packageJson.scripts && packageJson.scripts[script]], as a condition. *)
Definition hasScript (packageJson : json) (script : string) : M tester bool :=
  scripts ← property packageJson "scripts" ;
  match scripts with
  | Some s =>
      if truthy scripts then
        entry ← property s script ;
        mret (truthy entry)
      else mret false
  | None => mret false
  end.

Definition monacoFiles : list path :=
  [ ["index.mjs"];
    ["editor-core.mjs"];
    ["editor-worker-main.mjs"];
    ["lsp"; "index.mjs"];
    ["lsp"; "typescript"; "worker.mjs"];
    ["lsp"; "html"; "worker.mjs"];
    ["lsp"; "css"; "worker.mjs"];
    ["lsp"; "json"; "worker.mjs"];
    ["onig.wasm"] ].

Definition requiredScripts : list string :=
  ["build"; "dev"; "start"; "setup"; "copy-monaco"].

Definition quote : string := String "034"%char EmptyString.

(** The text looked for in public/index.html, line 133. *)
Definition importMapEntry : string :=
  quote +:+ "modern-monaco" +:+ quote +:+ ": " +:+
  quote +:+ "/monaco/index.mjs" +:+ quote.

(** What [generateReport] prints first: the three counts. *)
Record report := mkReport {
  nSuccesses : nat;
  nWarnings : nat;
  nErrors : nat
}.

(** Lines 176-182. *)
Definition generateReport : M tester report :=
  t ← get ;
  mret (mkReport (length (successes t)) (length (warnings t)) (length (errors t))).

(** Lines 155-170: the scripts of package.json. *)
Definition testScripts (e : env) : M tester unit :=
  try_catch
    (text ← fs_readFile e ["package.json"] ;
     packageJson ← (fun t =>
       match JSON_parse e text with
       | Ok v => Ret v t
       | Err err => Throw err t
       end) ;
     for_of
       (fun script =>
          defined ← hasScript packageJson script ;
          if (defined : bool) then
            log ("Script " +:+ quote +:+ script +:+ quote +:+ " defined") Success
          else
            log ("Script " +:+ quote +:+ script +:+ quote +:+ " missing") Error)
       requiredScripts)
    (fun error =>
       log ("Cannot read package.json: " +:+ message error) Error).

(** Lines 91-174. *)
Definition runTests (e : env) : M tester report :=
  log "Testing project structure..." Info ;;
  testFileExists e ["package.json"] "package.json" ;;
  testFileExists e ["server.js"] "server.js" ;;
  testFileExists e ["src"; "index.html"] "src/index.html" ;;
  testFileExists e ["src"; "app.js"] "src/app.js" ;;
  log "Testing build outputs..." Info ;;
  testFileExists e ["public"; "index.html"] "Built HTML file" ;;
  testFileExists e ["public"; "dist"; "app.js"] "Built JavaScript bundle" ;;
  log "Testing modern-monaco distribution files..." Info ;;
  for_of
    (fun file =>
       testFileExists e (["public"; "monaco"] ++ file)
         ("Monaco file: " +:+ show file) ;;
       mret tt)
    monacoFiles ;;
  log "Testing import map configuration..." Info ;;
  testFileContent e ["public"; "index.html"] "Import map in HTML" importMapEntry ;;
  log "Testing server configuration..." Info ;;
  testFileContent e ["server.js"] "Server MIME type configuration"
    "application/javascript" ;;
  testFileContent e ["server.js"] "Server CORS configuration" "cors" ;;
  log "Testing server endpoints (if running)..." Info ;;
  testHttpEndpoint e "http://localhost:3000/health" "Health endpoint" ;;
  testHttpEndpoint e "http://localhost:3000/monaco/index.mjs" "Monaco main file" ;;
  testHttpEndpoint e "http://localhost:3000/monaco/editor-worker-main.mjs"
    "Editor worker" ;;
  log "Testing package.json scripts..." Info ;;
  testScripts e ;;
  generateReport.

(** *** The checks as a list, each judged on its own *)

Inductive check :=
| FileExists (filePath : path) (description : string)
| FileContent (filePath : path) (description expectedContent : string)
| HttpEndpoint (url description : string).

(** The checks of lines 95-153, in order. *)
Definition checks : list check :=
  [ FileExists ["package.json"] "package.json";
    FileExists ["server.js"] "server.js";
    FileExists ["src"; "index.html"] "src/index.html";
    FileExists ["src"; "app.js"] "src/app.js";
    FileExists ["public"; "index.html"] "Built HTML file";
    FileExists ["public"; "dist"; "app.js"] "Built JavaScript bundle" ] ++
  map (fun file =>
         FileExists (["public"; "monaco"] ++ file) ("Monaco file: " +:+ show file))
    monacoFiles ++
  [ FileContent ["public"; "index.html"] "Import map in HTML" importMapEntry;
    FileContent ["server.js"] "Server MIME type configuration"
      "application/javascript";
    FileContent ["server.js"] "Server CORS configuration" "cors";
    HttpEndpoint "http://localhost:3000/health" "Health endpoint";
    HttpEndpoint "http://localhost:3000/monaco/index.mjs" "Monaco main file";
    HttpEndpoint "http://localhost:3000/monaco/editor-worker-main.mjs"
      "Editor worker" ].

(** The outcome of one check, read off the surroundings alone. *)
Definition verdict (e : env) (c : check) : log_type :=
  match c with
  | FileExists filePath _ =>
      match disk e filePath with
      | Some _ => Success
      | None => Error
      end
  | FileContent filePath _ expectedContent =>
      match disk e filePath with
      | Some (Bytes content) =>
          if includes content expectedContent then Success else Warning
      | _ => Error
      end
  | HttpEndpoint url _ =>
      match http_get e url with
      | Response statusCode _ =>
          if decide (statusCode = 200) then Success else Warning
      | _ => Error
      end
  end.

(** The outcomes that the checks recorded, in order: the script's own
    calls of [log] whose type is not [Info]. *)
Definition recorded (t : tester) : list log_type :=
  omap
    (fun l : origin * log_type * string =>
       match l with
       | (Check, Info, _) => None
       | (Check, k, _) => Some k
       | (Callback, _, _) => None
       end)
    (logged t).

(** The messages of the callbacks that ran late, in order; each is an
    error. *)
Definition fired (t : tester) : list string :=
  omap
    (fun l : origin * log_type * string =>
       match l with
       | (Callback, _, message) => Some message
       | (Check, _, _) => None
       end)
    (logged t).

Definition urls : list string :=
  [ "http://localhost:3000/health";
    "http://localhost:3000/monaco/index.mjs";
    "http://localhost:3000/monaco/editor-worker-main.mjs" ].

(** [packageJson.scripts && packageJson.scripts[script]] for a value that
    is not [null]. *)
Definition definesScript (packageJson : json) (script : string) : bool :=
  match packageJson with
  | JObject fields =>
      match field "scripts" fields with
      | Some (JObject scripts) => truthy (field script scripts)
      | _ => false
      end
  | _ => false
  end.

(** The outcomes of lines 155-170, read off the surroundings: one per
    required script when package.json is read and parsed, one error when
    it is not (or when it holds [null]). *)
Definition scriptVerdicts (e : env) : list log_type :=
  match disk e ["package.json"] with
  | Some (Bytes text) =>
      match JSON_parse e text with
      | Ok JNull => [Error]
      | Ok packageJson =>
          map (fun script => if definesScript packageJson script then Success else Error)
            requiredScripts
      | Err _ => [Error]
      end
  | _ => [Error]
  end.

(** How many of the outcomes are of one type. *)
Definition tally (k : log_type) (vs : list log_type) : nat :=
  length (filter (fun v => v = k) vs).

(** The counts of a state's three arrays. *)
Definition counts (t : tester) : report :=
  mkReport (length (successes t)) (length (warnings t)) (length (errors t)).

(** [m] returns from every state, having recorded the outcomes [vs] in
    this order, each in the array of its type, and sent the requests
    [us]; the array of the errors has grown also by the callbacks that
    ran late meanwhile; [post] holds of what it returns. *)
Definition runs {A} (m : M tester A) (vs : list log_type) (us : list string)
    (post : A -> tester -> Prop) : Prop :=
  forall t, exists a t',
    m t = Ret a t' /\
    post a t' /\
    recorded t' = recorded t ++ vs /\
    requests t' = requests t ++ us /\
    length (successes t') = length (successes t) + tally Success vs /\
    length (warnings t') = length (warnings t) + tally Warning vs /\
    length (errors t') + length (fired t) =
      length (errors t) + tally Error vs + length (fired t').

Definition any {A} : A -> tester -> Prop := fun _ _ => True.

(** Lines 194-209: the recommendations at the end of the report. *)
Definition recommendations (t : tester) : list string :=
  (if Nat.ltb 0 (length (errors t)) then
     [ "Fix critical errors before proceeding";
       "Run " +:+ quote +:+ "npm run setup" +:+ quote +:+ " to rebuild the project" ]
   else []) ++
  (if Nat.ltb 0 (length (warnings t)) then
     [ "Address warnings for optimal functionality";
       "Check server is running for endpoint tests" ]
   else []) ++
  (if Nat.eqb (length (errors t)) 0 && Nat.eqb (length (warnings t)) 0 then
     [ "Setup appears to be complete!";
       "Run " +:+ quote +:+ "npm run dev" +:+ quote +:+ " to start development";
       "Open http://localhost:3000 in your browser" ]
   else []).

(** Time goes by: [n] times the callbacks that are due run. *)
Fixpoint settle_n (n : nat) : M tester unit :=
  match n with
  | O => mret tt
  | S n' => settle ;; settle_n n'
  end.

(** After the report the process lives on until the sockets are gone:
    every callback that is still pending runs. *)
Definition drain : M tester unit :=
  t ← get ;
  settle_n (S (list_max (map fst (pending t)))).

(** Lines 215-222: the script run from the command line. Only a rejection
    of [runTests] reaches [process.exit(1)]. *)
Definition main (e : env) : M tester unit :=
  try_catch (runTests e ;; mret tt) (fun _ => process_exit 1) ;;
  drain.

(** A project in which everything is in place and the server answers
    and closes its sockets. *)
Definition healthy : env :=
  mkEnv
    (fun p =>
       if decide (p = ["public"; "index.html"]) then Some (Bytes importMapEntry)
       else if decide (p = ["server.js"]) then
         Some (Bytes "cors application/javascript")
       else Some (Bytes "{}"))
    (fun _ => Response 200 None)
    (fun _ =>
       Ok (JObject
             [("scripts",
               JObject (map (fun s => (s, JString "node")) requiredScripts))])).


(** Nothing on the disk, and a server that accepts the connections and
    stays silent. *)
Definition silent : env :=
  mkEnv (fun _ => None) (fun _ => SocketTimeout 0) (fun _ => Ok JNull).

End Tester.

(** ** scripts/dev.js: the dev process around the loop *)

Module Supervisor.
Import Js DevLoop.

Inductive signal := SIGINT | SIGTERM.

(** The dev process: the build loop with the console and the exit status,
    and beside it what [start()], [startServer()] and [stop()] keep.
    [started] is raised when [start()] has gone past its [await]: the
    watcher runs, the server is spawned, the signal handlers are set.
    [spawned] counts the calls of [spawn], and [killed] lists the signals
    that [kill] sent to the child. *)
Record dev_process := mkDev {
  loop : proc;
  started : bool;
  serverProcess : bool;      (* this.serverProcess is not null *)
  spawned : nat;
  killed : list signal
}.

Definition say (line : string) (d : dev_process) : dev_process :=
  mkDev (with_out (loop d) (out (loop d) ++ [line]))
    (started d) (serverProcess d) (spawned d) (killed d).

Definition with_loop (d : dev_process) (p : proc) : dev_process :=
  mkDev p (started d) (serverProcess d) (spawned d) (killed d).

(** Lines 18-22: [start()] up to its [await], the first call of [build()]
    being under way. *)
Definition start : dev_process :=
  mkDev
    (build_call
       (mkProc (mkDevServer false false) 0 0 false None
          ["Starting development server..."]))
    false false 0 [].

(** Lines 105-129: [startServer()]. *)
Definition startServer (d : dev_process) : dev_process :=
  let d := say "Starting Express server..." d in
  mkDev (loop d) (started d) true (S (spawned d)) (killed d).

(** Lines 24-40: [start()] after its [await]. *)
Definition start_resume (d : dev_process) : dev_process :=
  let d := say "Starting file watcher..." d in
  let d := say "File watcher started" d in
  let d := startServer d in
  mkDev (loop d) true (serverProcess d) (spawned d) (killed d).

(** Lines 131-137: [stop()]. *)
Definition stop (d : dev_process) : dev_process :=
  if serverProcess d then
    let d := say "Stopping server..." d in
    mkDev (loop d) (started d) false (spawned d) (killed d ++ [SIGTERM])
  else d.

Definition process_exit (status : Z) (d : dev_process) : dev_process :=
  let p := loop d in
  with_loop d (mkProc (dev p) (timers p) (builds p) (stale p) (Some status) (out p)).

(** Lines 31-40: the two handlers. *)
Definition on_signal (s : signal) (d : dev_process) : dev_process :=
  match s with
  | SIGINT => process_exit 0 (stop (say "Shutting down development server..." d))
  | SIGTERM => process_exit 0 (stop d)
  end.

(** Lines 121-128: the child's exit, with its code and its signal (each
    of them null or set). *)
Definition on_child_exit (code : option Z) (sig : option string)
    (d : dev_process) : dev_process :=
  let d :=
    match code with
    | Some c =>
        if decide (c = 0%Z) then d
        else say ("Server exited with code " +:+ pretty c) d
    | None => d
    end in
  match sig with
  | Some name =>
      if decide (name = "") then d
      else say ("Server killed with signal " +:+ name) d
  | None => d
  end.

Inductive event :=
| Loop (e : DevLoop.event)                        (* the watcher, a build, a timer *)
| Signal (s : signal)                             (* SIGINT or SIGTERM arrives *)
| ChildExit (code : option Z) (sig : option string)
| ChildError (e : error)
| WatcherError (e : error).

(** One turn of the event loop. Before [start()] has gone past its
    [await] only the first build can settle: there is no watcher, no child
    and no handler yet. *)
Definition step (d : dev_process) (ev : event) : option dev_process :=
  match exited (loop d) with
  | Some _ => None
  | None =>
      if started d then
        match ev with
        | Loop e => with_loop d <$> DevLoop.step (loop d) e
        | Signal s => Some (on_signal s d)
        | ChildExit code sig => Some (on_child_exit code sig d)
        | ChildError e => Some (say ("Server error: " +:+ message e) d)
        | WatcherError e => Some (say ("Watcher error: " +:+ message e) d)
        end
      else
        match ev with
        | Loop (BuildSettles w) =>
            let p := build_resume w (loop d) in
            match exited p with
            | Some _ => Some (with_loop d p)
            | None => Some (start_resume (with_loop d p))
            end
        | _ => None
        end
  end.

Fixpoint run (d : dev_process) (evs : list event) : option dev_process :=
  match evs with
  | [] => Some d
  | ev :: rest =>
      match step d ev with
      | Some d' => run d' rest
      | None => None
      end
  end.

(** What holds between two turns: the server is spawned once, when
    [start()] resumes; while the process lives nothing was sent to it; and
    the process ends with status 0 after one SIGTERM to the child, or with
    status 1 and no signal to it. *)
Definition supervised (d : dev_process) : Prop :=
  spawned d = (if started d then 1 else 0) /\
  match exited (loop d) with
  | None => killed d = [] /\ serverProcess d = started d
  | Some status =>
      (status = 0%Z /\ started d = true /\ killed d = [SIGTERM] /\
       serverProcess d = false) \/
      (status = 1%Z /\ killed d = [] /\ serverProcess d = started d)
  end.

End Supervisor.

(** ** The page's application with its debug panel *)

(** [class DebugLogger]: the panel #debugLog and the console. The elements
    that the classes look up with [getElementById] are taken to exist; the
    scroll position of the panel is left out. *)
Module DebugLogger.
Import Js.

(** A [div] of the panel. *)
Record div := mkDiv {
  className : string;
  textContent : string
}.

(** The children of [logElement], oldest first, the console, and the
    number of readings of the clock so far. *)
Record logger := mkLogger {
  logElement : list div;
  console : list string;
  clock : nat
}.

Definition maxLogs : nat := 50.

(** Lines 19-21: the first child is removed while there are more than
    [maxLogs]. *)
Fixpoint trim (children : list div) : list div :=
  match children with
  | [] => []
  | _ :: rest => if Nat.ltb maxLogs (length children) then trim rest else children
  end.

(** [toUpperCase] on the letters a-z. *)
Definition upper_char (c : ascii) : ascii :=
  let n := nat_of_ascii c in
  if Nat.leb 97 n && Nat.leb n 122 then ascii_of_nat (n - 32) else c.

Fixpoint toUpperCase (s : string) : string :=
  match s with
  | EmptyString => EmptyString
  | String c rest => String (upper_char c) (toUpperCase rest)
  end.

Section Clock.
(** [new Date().toLocaleTimeString()] at each reading. *)
Context (time : nat -> string).

(** Lines 10-28. *)
Definition log (message type : string) : M logger unit :=
  modify (fun l =>
    let logEntry := mkDiv type ("[" +:+ time (clock l) +:+ "] " +:+ message) in
    mkLogger
      (trim (logElement l ++ [logEntry]))
      (console l ++ ["[" +:+ toUpperCase type +:+ "] " +:+ message])
      (S (clock l))).

Definition success (message : string) : M logger unit := log message "success".
Definition error (message : string) : M logger unit := log message "error".
Definition info (message : string) : M logger unit := log message "info".

(** The entries that a list of calls (message and type) appends, the
    clock having been read [k] times before. *)
Fixpoint entries (k : nat) (calls : list (string * string)) : list div :=
  match calls with
  | [] => []
  | (message, type) :: rest =>
      mkDiv type ("[" +:+ time k +:+ "] " +:+ message) :: entries (S k) rest
  end.

Definition lines (calls : list (string * string)) : list string :=
  map (fun c => "[" +:+ toUpperCase c.2 +:+ "] " +:+ c.1) calls.

End Clock.

End DebugLogger.

(** [class ModernMonacoApp] with [StatusIndicator] and [FileTreeManager].
    An asynchronous method that waits for the library is cut at that
    [await]: the part before it runs in the call, the part after it when
    the promise settles. [FileTreeManager.render] only empties #fileTree,
    which nothing reads, and [WorkerDebugger] only wraps [window.Worker]:
    both are left out. *)
Module MonacoApp.
Import Js.

Record app := mkApp {
  logger : DebugLogger.logger;
  indicator : string;                  (* className of #statusIndicator *)
  text : string;                       (* textContent of #statusText *)
  overlayHidden : bool;                (* #loadingOverlay has the class hidden *)
  workspace : bool;                    (* this.workspace is set *)
  fileTree : option (option string);   (* this.fileTree, with its activeFile *)
  loading : bool;                      (* initializeMonaco() waits for lazy() *)
  opening : list string                (* calls of openFile that wait for
                                          openTextDocument(), oldest first *)
}.

Definition TypeError := mkError "TypeError" "Cannot read properties of null".

Section Clock.
Context (time : nat -> string).

(** A method of [this.logger]. *)
Definition logging (m : M DebugLogger.logger unit) : M app unit :=
  modify (fun a =>
    mkApp (state_of (m (logger a))) (indicator a) (text a) (overlayHidden a)
      (workspace a) (fileTree a) (loading a) (opening a)).

Definition info (message : string) := logging (DebugLogger.info time message).
Definition success (message : string) := logging (DebugLogger.success time message).
Definition error (message : string) := logging (DebugLogger.error time message).

(** [console.error], past the panel. *)
Definition console_error (line : string) : M app unit :=
  logging (modify (fun l =>
    DebugLogger.mkLogger (DebugLogger.logElement l) (DebugLogger.console l ++ [line])
      (DebugLogger.clock l))).

(** Lines 42-45. *)
Definition setStatus (status message : string) : M app unit :=
  modify (fun a =>
    mkApp (logger a) ("status-indicator " +:+ status) message (overlayHidden a)
      (workspace a) (fileTree a) (loading a) (opening a)).

Definition status_loading (message : string) := setStatus "" message.
Definition status_ready (message : string) := setStatus "ready" message.
Definition status_error (message : string) := setStatus "error" message.

(** Lines 208-422: [new Workspace] throws or gives the workspace. *)
Definition createWorkspace (failure : option Js.error) : M app unit :=
  info "Creating workspace with sample files" ;;
  match failure with
  | Some e => throw e
  | None =>
      modify (fun a =>
        mkApp (logger a) (indicator a) (text a) (overlayHidden a)
          true (fileTree a) (loading a) (opening a))
  end ;;
  success "Workspace created with 6 files".

(** Lines 455-458: [openFile] up to its [await]. *)
Definition openFile_call (filename : string) : M app unit :=
  try_catch
    (info ("Opening file: " +:+ filename) ;;
     a ← get ;
     if workspace a then
       modify (fun a =>
         mkApp (logger a) (indicator a) (text a) (overlayHidden a)
           (workspace a) (fileTree a) (loading a) (opening a ++ [filename]))
     else throw TypeError)
    (fun e =>
       error ("Failed to open file " +:+ filename +:+ ": " +:+ message e)).

(** Lines 99-103, with the callback of lines 182-184. *)
Definition selectFile (filename : string) : M app unit :=
  a ← get ;
  match fileTree a with
  | None => throw TypeError
  | Some _ =>
      modify (fun a =>
        mkApp (logger a) (indicator a) (text a) (overlayHidden a)
          (workspace a) (Some (Some filename)) (loading a) (opening a)) ;;
      openFile_call filename
  end.

(** Lines 458-463: [openFile] after its [await]. *)
Definition openFile_resume (rejection : option Js.error) (filename : string)
  : M app unit :=
  try_catch
    (match rejection with
     | Some e => throw e
     | None => mret tt
     end ;;
     selectFile filename ;;
     success ("File opened: " +:+ filename))
    (fun e =>
       error ("Failed to open file " +:+ filename +:+ ": " +:+ message e)).

(** Lines 201-205. *)
Definition init_catch (e : Js.error) : M app unit :=
  error ("Initialization failed: " +:+ message e) ;;
  status_error "Initialization Failed" ;;
  console_error ("Initialization error: " +:+ message e).

(** Lines 173-190 and 424-429: [init] up to the [await] of [lazy()]. *)
Definition init_call (failure : option Js.error) : M app unit :=
  try_catch
    (info "Starting Modern Monaco self-hosted example" ;;
     status_loading "Initializing workspace..." ;;
     createWorkspace failure ;;
     modify (fun a =>
       mkApp (logger a) (indicator a) (text a) (overlayHidden a)
         (workspace a) (Some None) (loading a) (opening a)) ;;
     status_loading "Loading Monaco Editor..." ;;
     info "Initializing Monaco Editor with lazy loading" ;;
     modify (fun a =>
       mkApp (logger a) (indicator a) (text a) (overlayHidden a)
         (workspace a) (fileTree a) true (opening a)))
    init_catch.

(** Lines 446-452 and 192-199: [init] after the [await] of [lazy()]. *)
Definition init_resume (rejection : option Js.error) : M app unit :=
  modify (fun a =>
    mkApp (logger a) (indicator a) (text a) (overlayHidden a)
      (workspace a) (fileTree a) false (opening a)) ;;
  try_catch
    (match rejection with
     | Some e =>
         error ("Monaco initialization failed: " +:+ message e) ;;
         throw e
     | None =>
         success "Monaco Editor initialized with lazy loading" ;;
         info "Language services will load on demand"
     end ;;
     status_ready "Monaco Editor Ready" ;;
     success "Application initialized successfully" ;;
     modify (fun a =>
       mkApp (logger a) (indicator a) (text a) true
         (workspace a) (fileTree a) (loading a) (opening a)) ;;
     openFile_call "index.html")
    init_catch.

(** What the library reports back. *)
Inductive event :=
| MonacoSettles (rejection : option Js.error)      (* lazy() *)
| DocumentSettles (rejection : option Js.error).   (* openTextDocument() *)

(** One turn of the event loop; [None] when nothing waits for the
    event. *)
Definition step (a : app) (ev : event) : option app :=
  match ev with
  | MonacoSettles rejection =>
      if loading a then Some (state_of (init_resume rejection a)) else None
  | DocumentSettles rejection =>
      match opening a with
      | [] => None
      | filename :: rest =>
          Some (state_of
                  (openFile_resume rejection filename
                     (mkApp (logger a) (indicator a) (text a) (overlayHidden a)
                        (workspace a) (fileTree a) (loading a) rest)))
      end
  end.

Fixpoint run (a : app) (evs : list event) : option app :=
  match evs with
  | [] => Some a
  | ev :: rest =>
      match step a ev with
      | Some a' => run a' rest
      | None => None
      end
  end.

(** The page as it is loaded, the overlay covering it, and
    [new ModernMonacoApp()] on it. *)
Definition page : app :=
  mkApp (DebugLogger.mkLogger [] [] 0) "status-indicator" "" false false None
    false [].

Definition start (failure : option Js.error) : app :=
  state_of (init_call failure page).

End Clock.

(** Nothing waits for the library: no event can occur any more. *)
Definition settled (a : app) : bool :=
  negb (loading a) && bool_decide (opening a = []).

(** What the page can look like between two turns. *)
Definition shown (a : app) : Prop :=
  (loading a = true /\ indicator a = "status-indicator " /\
   overlayHidden a = false /\ opening a = [] /\
   workspace a = true /\ is_Some (fileTree a)) \/
  (loading a = false /\ indicator a = "status-indicator error" /\
   text a = "Initialization Failed" /\
   overlayHidden a = false /\ opening a = []) \/
  (loading a = false /\ indicator a = "status-indicator ready" /\
   overlayHidden a = true /\ workspace a = true /\ is_Some (fileTree a) /\
   (opening a = [] \/ opening a = ["index.html"])).

End MonacoApp.

(** ** The scripts and the server on one project directory *)

Module Setup.

(** The project directory as the tester reads it, when it is the file
    system that the copier wrote. *)
Definition disk_of (m : gmap Copier.path Copier.entry)
  : Tester.path -> option Tester.stored :=
  fun p =>
    match Copier.stat m p with
    | Some (Copier.F content) => Some (Tester.Bytes content)
    | Some Copier.D => Some Tester.Folder
    | None => None
    end.

(** The server finds the regular files that lie under public. *)
Definition serves (e : Server.env) (m : gmap Copier.path Copier.entry) : Prop :=
  forall r content,
    m !! ("public" :: r) = Some (Copier.F content) ->
    Server.isFile e ("public/" +:+ Copier.show r) = true.

(** The type that the server gives a file of the distribution. *)
Definition typeOf (f : Copier.path) : string :=
  if Str.endsWith (Copier.show f) ".wasm" then Server.wasm else Server.javascript.

(** A server that finds every path. *)
Definition finds_all : Server.env :=
  Server.mkEnv (fun _ => true) (fun _ => false) (fun _ => "application/octet-stream")
    "2025-01-01T00:00:00.000Z" "3000".

End Setup.

(** * Properties *)

(** ** The watch-rebuild loop *)

Module DevLoopFacts.
Import Js DevLoop.

Lemma build_ensureDir_cases r c :
  ensureDir r c = Ret tt c \/ exists e, ensureDir r c = Throw e c.
Proof.
  destruct r as [|e]; [now left|].
  unfold ensureDir, try_catch; simpl.
  destruct (decide (code e = "EEXIST")); [now left | right; now exists e].
Qed.

Lemma build_perform_cases r c :
  perform r c = Ret tt c \/ exists e, perform r c = Throw e c.
Proof. destruct r as [|e]; [now left | right; now exists e]. Qed.

(** [buildProject] never rejects: it returns, or the process exits with
    status 1. The [catch] of [build()] in dev.js is therefore never
    entered. *)
Lemma buildProject_settles w c :
  (exists c', buildProject w c = Ret tt c') \/
  (exists c', buildProject w c = Exit 1 c').
Proof.
  unfold buildProject, mbind, M_bind, bind, try_catch; simpl.
  destruct (build_ensureDir_cases (mkdirPublic w)
              (c ++ ["Building self-hosted Modern Monaco example..."]))
    as [-> | [e ->]]; [|right; eauto].
  destruct (build_ensureDir_cases (mkdirDist w)
              (c ++ ["Building self-hosted Modern Monaco example..."]))
    as [-> | [e ->]]; [|right; eauto].
  simpl.
  destruct (esbuild w); simpl; [|right; eauto].
  destruct (copyHtml w); simpl; [left | right]; eauto.
Qed.

(** Whether a run of [buildProject] succeeds depends on its I/O alone. *)
Lemma buildProject_returns w c c' :
  returns (buildProject w c) = returns (buildProject w c').
Proof.
  unfold buildProject, mbind, M_bind, bind, try_catch, ensureDir, try_catch; simpl.
  destruct (mkdirPublic w) as [|e1]; simpl;
    [|destruct (decide (code e1 = "EEXIST")); simpl];
    (destruct (mkdirDist w) as [|e2]; simpl;
     [|destruct (decide (code e2 = "EEXIST")); simpl]);
    try reflexivity;
    destruct (esbuild w); simpl; try reflexivity;
    destruct (copyHtml w); reflexivity.
Qed.

(** Whatever its I/O does, [buildProject] does not reject: it returns or
    the process exits with status 1. *)
Theorem buildProject_never_rejects (w : build_io) (c : console) :
  throws (buildProject w c) = false /\
  (returns (buildProject w c) = true \/
   exit_status (buildProject w c) = Some 1%Z).
Proof.
  destruct (buildProject_settles w c) as [[c' E] | [c' E]]; rewrite E; simpl; auto.
Qed.

Lemma succeeds_resume w p :
  succeeds w = true ->
  exists c, build_resume w p = build_finally (with_out p c).
Proof.
  unfold succeeds, build_resume. intros Hs.
  rewrite (buildProject_returns w [] (out p)) in Hs.
  destruct (buildProject_settles w (out p)) as [[c' E] | [c' E]];
    rewrite E in *; [eauto | discriminate].
Qed.

Lemma run_app p es1 es2 :
  run p (es1 ++ es2) =
  match run p es1 with
  | Some q => run q es2
  | None => None
  end.
Proof.
  revert p. induction es1 as [|e es1 IH]; intros p; simpl; [reflexivity|].
  destruct (step p e); [apply IH | reflexivity].
Qed.

(** File events that arrive while a build is awaited only raise the flag. *)
Lemma burst_while_building k p :
  exited p = None -> isBuilding (dev p) = true ->
  exists q,
    run p (repeat FileEvent k) = Some q /\
    exited q = None /\ isBuilding (dev q) = true /\
    buildQueue (dev q) = (if k is O then buildQueue (dev p) else true) /\
    builds q = builds p /\ timers q = timers p.
Proof.
  revert p. induction k as [|k IH]; intros p Hx Hb; simpl.
  - exists p. repeat split; auto.
  - unfold step. rewrite Hx. unfold build_call at 1; simpl. rewrite Hb.
    edestruct (IH (mkProc (mkDevServer true true) (timers p) (builds p) true
                     (exited p) (out p))) as (q & Hr & Hq1 & Hq2 & Hq3 & Hq4 & Hq5);
      [assumption | reflexivity |].
    rewrite Hx in Hr. exists q. simpl in *. repeat split; try assumption.
    destruct k; assumption.
Qed.

(** C1. While a build is in progress, a burst of K >= 1 file events only
    sets the one [buildQueue] flag: the loop is in the state build-queued,
    no build was started and no timer set during the burst. When the build
    in progress completes, exactly one rebuild is scheduled, and when its
    timer fires exactly one call of [buildProject] is made, whatever K
    was. *)
Theorem burst_coalesces_into_one_rebuild (p : proc) (k : nat) (w : build_io) :
  exited p = None ->
  phase_of p <> Idle ->
  1 <= k ->
  succeeds w = true ->
  exists q r t,
    run p (repeat FileEvent k) = Some q /\
    phase_of q = BuildQueued /\ builds q = builds p /\ timers q = timers p /\
    step q (BuildSettles w) = Some r /\
    phase_of r = Idle /\ buildQueue (dev r) = false /\
    builds r = builds p /\ timers r = S (timers p) /\
    step r TimerFires = Some t /\
    phase_of t = Building /\ builds t = S (builds p) /\ timers t = timers p.
Proof.
  intros Hx Hph Hk Hw.
  assert (Hb : isBuilding (dev p) = true).
  { unfold phase_of in Hph. destruct (isBuilding (dev p)); congruence. }
  destruct (burst_while_building k p Hx Hb) as (q & Hr & Hq1 & Hq2 & Hq3 & Hq4 & Hq5).
  destruct k as [|k]; [lia|]. pose proof Hr as Hr0.
  destruct (succeeds_resume w q Hw) as [c Hc].
  assert (Hs : step q (BuildSettles w) = Some (build_finally (with_out q c))).
  { unfold step. now rewrite Hq1, Hq2, Hc. }
  exists q, (build_finally (with_out q c)). clear Hc Hr.
  destruct q as [[ib bq] tm bd st ex o]; simpl in *; subst.
  eexists. split; [exact Hr0|]. do 3 (split; [reflexivity|]).
  split; [exact Hs|]. clear Hs.
  unfold step, build_finally, with_out, phase_of; simpl.
  repeat split; reflexivity.
Qed.

Lemma burst_coalesces_witness :
  exists q r t,
    run (build_call init) (repeat FileEvent 3) = Some q /\
    phase_of q = BuildQueued /\ builds q = builds (build_call init) /\
    timers q = timers (build_call init) /\
    step q (BuildSettles io_ok) = Some r /\
    phase_of r = Idle /\ buildQueue (dev r) = false /\
    builds r = builds (build_call init) /\
    timers r = S (timers (build_call init)) /\
    step r TimerFires = Some t /\
    phase_of t = Building /\ builds t = S (builds (build_call init)) /\
    timers t = timers (build_call init).
Proof.
  apply (burst_coalesces_into_one_rebuild (build_call init) 3 io_ok);
    [reflexivity | discriminate | lia | reflexivity].
Defined.

(** *** The last change is built, as long as no build fails *)

Lemma covered_init : covered init.
Proof. repeat split; simpl; intros; (discriminate || lia). Qed.

Lemma build_call_covered p :
  exited p = None -> covered (build_call p).
Proof.
  intros Hx. unfold build_call, covered.
  destruct (isBuilding (dev p)) eqn:Hb; simpl; repeat split; auto; discriminate.
Qed.

Lemma step_covered p e q :
  covered p -> good_event e = true -> step p e = Some q -> covered q.
Proof.
  intros (Hx & Hq & Hs) Hg. unfold step. rewrite Hx.
  destruct e as [|w|]; simpl in *.
  - intros [= <-]. now apply build_call_covered.
  - destruct (isBuilding (dev p)) eqn:Hb; [|discriminate]. intros [= <-].
    destruct (succeeds_resume w p Hg) as [c ->].
    unfold build_finally, with_out, covered; simpl.
    destruct (buildQueue (dev p)) eqn:Hbq; simpl; repeat split; auto;
      try discriminate; try (intros; right; lia).
  - destruct (timers p) as [|n] eqn:Ht; [discriminate|]. intros [= <-].
    now apply build_call_covered.
Qed.

(** When no run of the bundler fails, the loop never rests on a change
    that was not built: in every state it reaches in which no build is in
    progress and no rebuild is scheduled, the latest call of
    [buildProject] started after the last file event. *)
Theorem last_change_built_when_builds_succeed (es : list event) (q : proc) :
  forallb good_event es = true ->
  run init es = Some q ->
  quiescent q = true ->
  stale q = false.
Proof.
  intros Hg Hr Hq.
  assert (Hc : covered q).
  { revert Hg Hr. generalize covered_init. generalize init.
    induction es as [|e es IH]; intros p Hp Hg Hr; simpl in *.
    - now inversion Hr; subst.
    - apply andb_prop in Hg as [Hg1 Hg2].
      destruct (step p e) as [p'|] eqn:Hs; [|discriminate].
      exact (IH p' (step_covered p e p' Hp Hg1 Hs) Hg2 Hr). }
  destruct Hc as (_ & Hbq & Hs).
  unfold quiescent in Hq. apply andb_prop in Hq as [Hb Ht].
  apply Nat.eqb_eq in Ht. apply negb_true_iff in Hb.
  destruct (stale q); [|reflexivity].
  destruct (Hs eq_refl) as [H|H]; [|lia].
  rewrite (Hbq H) in Hb. discriminate.
Qed.

Lemma last_change_built_witness :
  exists q,
    run init [FileEvent; FileEvent; BuildSettles io_ok; TimerFires; BuildSettles io_ok]
      = Some q /\
    quiescent q = true /\
    builds q = 2 /\
    stale q = false.
Proof.
  eexists. split; [reflexivity|]. split; [reflexivity|]. split; [reflexivity|].
  apply (last_change_built_when_builds_succeed
           [FileEvent; FileEvent; BuildSettles io_ok; TimerFires; BuildSettles io_ok]);
    reflexivity.
Defined.

(** C2 on the code. A file event arrives while a build is in progress and
    that build then fails: [buildProject] itself ends the process with
    status 1, the rebuild that was queued for the change never starts, and
    no further event is handled. *)
Theorem failed_build_ends_the_loop :
  exists q,
    run init [FileEvent; FileEvent; BuildSettles esbuild_fails] = Some q /\
    exited q = Some 1%Z /\
    builds q = 1 /\
    buildQueue (dev q) = true /\
    stale q = true /\
    forall e, step q e = None.
Proof.
  eexists. split; [reflexivity|]. simpl. repeat split; reflexivity.
Qed.

(** *** When a build succeeds *)

(** [buildProject] returns exactly when both directories could be made or
    were there already, the bundler succeeded and the page was copied: an
    EEXIST is passed over for the two directories only. In every other
    case the process exits with status 1, and the last line on the
    console is the failure of one of the four steps. *)
Theorem build_succeeds_exactly_when (w : build_io) (c : console) :
  (returns (buildProject w c) = true <->
   tolerated (mkdirPublic w) = true /\ tolerated (mkdirDist w) = true /\
   esbuild w = IoOk /\ copyHtml w = IoOk) /\
  (returns (buildProject w c) = false ->
   exit_status (buildProject w c) = Some 1%Z /\
   exists e,
     IoFails e ∈ [mkdirPublic w; mkdirDist w; esbuild w; copyHtml w] /\
     last (state_of (buildProject w c)) = Some ("Build failed: " +:+ message e)).
Proof.
  assert (Hlast : forall (l : console) x, last (l ++ [x]) = Some x)
    by (intros; apply last_snoc).
  destruct w as [r1 r2 r3 r4].
  unfold buildProject, mbind, M_bind, bind, try_catch, ensureDir, try_catch, tolerated.
  destruct r1 as [|e1], r2 as [|e2], r3 as [|e3], r4 as [|e4]; simpl;
    repeat match goal with
           | |- context [decide (code ?e = "EEXIST")] =>
               let H := fresh "H" in
               destruct (decide (code e = "EEXIST")) as [H|H];
               [try rewrite (bool_decide_eq_true_2 _ H)
               |try rewrite (bool_decide_eq_false_2 _ H)];
               simpl
           end;
    (split;
     [split; [intros; repeat split; congruence | intros (? & ? & ? & ?); congruence]
     |intros Hr;
      first [discriminate Hr
            |split; [reflexivity|]; eexists; split; [|apply Hlast]; set_solver]]).
Qed.

(** A directory that exists is no failure, for esbuild the same error
    is. *)
Lemma build_succeeds_witness :
  returns
    (buildProject
       (mkBuildIo (IoFails (mkError "EEXIST" "file already exists")) IoOk IoOk IoOk)
       []) = true.
Proof.
  apply (proj1 (build_succeeds_exactly_when
                  (mkBuildIo (IoFails (mkError "EEXIST" "file already exists"))
                     IoOk IoOk IoOk) [])).
  repeat split.
Defined.

(** *** No rebuild without a change *)

Lemma build_call_bound p :
  builds (build_call p) + pending (build_call p) <= S (builds p + pending p) /\
  (buildQueue (dev p) = true -> isBuilding (dev p) = true ->
   build_call p = p).
Proof.
  unfold build_call, pending. destruct p as [[b q] t n s x o]; simpl.
  destruct b, q; simpl; split; try lia; try discriminate; reflexivity.
Qed.

Lemma step_bound p e q :
  step p e = Some q ->
  builds q + pending q <=
  builds p + pending p + changes [e].
Proof.
  unfold step. destruct (exited p); [discriminate|].
  destruct e as [|w|]; simpl.
  - intros [= <-]. unfold build_call, pending; simpl.
    destruct (isBuilding (dev p)), (buildQueue (dev p)); simpl; lia.
  - destruct (isBuilding (dev p)); [|discriminate]. intros [= <-].
    unfold build_resume.
    destruct (buildProject w (out p)); unfold build_finally, pending; simpl;
      destruct (buildQueue (dev p)); simpl; lia.
  - destruct (timers p) as [|n] eqn:Et; [discriminate|]. intros [= <-].
    unfold build_call, pending; simpl. rewrite Et.
    destruct (isBuilding (dev p)), (buildQueue (dev p)); simpl; lia.
Qed.

Lemma changes_cons e es : changes (e :: es) = changes [e] + changes es.
Proof. destruct e; reflexivity. Qed.

Lemma run_bound es : forall p q,
  run p es = Some q ->
  builds q + pending q <= builds p + pending p + changes es.
Proof.
  induction es as [|e es IH]; intros p q; simpl run.
  - intros [= <-]. simpl. lia.
  - destruct (step p e) as [p'|] eqn:Es; [|discriminate]. intros Hr.
    apply IH in Hr. apply step_bound in Es. rewrite changes_cons. lia.
Qed.

(** The loop never builds more often than files changed. After any run
    from the start of the watcher, the rebuilds made (begun or finished)
    together with those still scheduled or queued are at most as many as
    the file events seen: a timer or a raised flag never brings about more
    than the one rebuild it stands for. *)
Theorem rebuilds_never_outnumber_changes (es : list event) (p : proc) :
  run init es = Some p ->
  builds p + pending p <= changes es.
Proof. intros Hr. apply run_bound in Hr. exact Hr. Qed.

Lemma rebuilds_bound_witness :
  builds (mkProc (mkDevServer true false) 0 2 false None
            ["Building project..."; "Building self-hosted Modern Monaco example...";
             "Building JavaScript bundle..."; "Copying HTML file...";
             "Build completed successfully!"; "Build completed"; "Building project..."]) +
  pending (mkProc (mkDevServer true false) 0 2 false None
            ["Building project..."; "Building self-hosted Modern Monaco example...";
             "Building JavaScript bundle..."; "Copying HTML file...";
             "Build completed successfully!"; "Build completed"; "Building project..."])
  <= changes [FileEvent; FileEvent; FileEvent; BuildSettles io_ok; TimerFires].
Proof.
  apply (rebuilds_never_outnumber_changes
           [FileEvent; FileEvent; FileEvent; BuildSettles io_ok; TimerFires]).
  vm_compute. reflexivity.
Defined.

End DevLoopFacts.

(** ** The dev process around the loop *)

Module SupervisorFacts.
Import Js DevLoop Supervisor DevLoopFacts.

Lemma build_resume_exit w p :
  exited p = None ->
  exited (build_resume w p) = None \/ exited (build_resume w p) = Some 1%Z.
Proof.
  intros Hx. unfold build_resume.
  destruct (buildProject_settles w (out p)) as [[c E] | [c E]]; rewrite E.
  - left. unfold build_finally, with_out; simpl.
    destruct (buildQueue (dev p)); exact Hx.
  - right. reflexivity.
Qed.

Lemma loop_step_exit p e q :
  DevLoop.step p e = Some q -> exited q = None \/ exited q = Some 1%Z.
Proof.
  unfold DevLoop.step. destruct (exited p) eqn:Hx; [discriminate|].
  destruct e as [|w|].
  - intros [= <-]. left. unfold build_call; simpl.
    destruct (isBuilding (dev p)); reflexivity.
  - destruct (isBuilding (dev p)); [|discriminate]. intros [= <-].
    now apply build_resume_exit.
  - destruct (timers p); [discriminate|]. intros [= <-]. left.
    unfold build_call; simpl. destruct (isBuilding (dev p)); reflexivity.
Qed.

Lemma start_supervised : supervised start.
Proof. repeat split. Qed.

Lemma step_supervised d ev d' :
  supervised d -> step d ev = Some d' -> supervised d'.
Proof.
  intros [Hs Hx]. unfold step.
  destruct (exited (loop d)) eqn:Ex; [discriminate|]. destruct Hx as [Hk Hp].
  destruct (started d) eqn:Est.
  - destruct ev as [e | s | code sig | e | e].
    + destruct (DevLoop.step (loop d) e) as [q|] eqn:Eq; [|discriminate].
      intros [= <-]. unfold supervised, with_loop; simpl. rewrite Est.
      split; [exact Hs|].
      destruct (loop_step_exit _ _ _ Eq) as [-> | ->]; auto.
    + intros [= <-]. unfold supervised. split.
      * destruct s; unfold on_signal, process_exit, stop, say, with_loop; simpl;
          rewrite Hp; simpl; rewrite Est; exact Hs.
      * destruct s; unfold on_signal, process_exit, stop, say, with_loop; simpl;
          rewrite Hp; simpl; rewrite Hk, Est; left; auto.
    + intros [= <-]. unfold supervised, on_child_exit.
      destruct code as [c|]; [destruct (decide (c = 0%Z))|];
        (destruct sig as [name|]; [destruct (decide (name = ""))|]);
        simpl; rewrite ?Ex, Est; auto.
    + intros [= <-]. unfold supervised; simpl. rewrite Ex, Est. auto.
    + intros [= <-]. unfold supervised; simpl. rewrite Ex, Est. auto.
  - destruct ev as [[|w|] | | | |]; try discriminate.
    destruct (exited (build_resume w (loop d))) as [status|] eqn:Er.
    + intros [= <-]. unfold supervised, with_loop; simpl. rewrite Er, Est.
      split; [exact Hs|].
      destruct (build_resume_exit w (loop d) Ex) as [E | E]; rewrite E in Er;
        [discriminate|]. injection Er as <-. auto.
    + intros [= <-]. unfold supervised, start_resume, startServer, say, with_loop;
        simpl. rewrite Er, Hs. auto.
Qed.

Lemma run_supervised evs : forall d d',
  supervised d -> run d evs = Some d' -> supervised d'.
Proof.
  induction evs as [|ev evs IH]; intros d d' Hd; simpl.
  - now intros [= <-].
  - destruct (step d ev) as [d1|] eqn:E; [|discriminate].
    apply IH. exact (step_supervised _ _ _ Hd E).
Qed.

(** Once the dev process is up, SIGINT and SIGTERM end it in the same
    way, whatever the loop is doing: the child is sent SIGTERM once, the
    field [serverProcess] is cleared, and the exit status is 0. Nothing
    had been sent to the child before. *)
Theorem signal_stops_the_server_once
    (evs : list event) (d : dev_process) (s : signal) :
  run start evs = Some d ->
  started d = true ->
  exited (loop d) = None ->
  killed d = [] /\
  exists d',
    step d (Signal s) = Some d' /\
    exited (loop d') = Some 0%Z /\
    killed d' = [SIGTERM] /\
    serverProcess d' = false /\
    last (out (loop d')) = Some "Stopping server...".
Proof.
  intros Hr Hst Hx.
  destruct (run_supervised evs start d start_supervised Hr) as [_ Hi].
  rewrite Hx in Hi. destruct Hi as [Hk Hp]. rewrite Hst in Hp.
  split; [exact Hk|].
  exists (on_signal s d). unfold step. rewrite Hx, Hst.
  split; [reflexivity|].
  destruct s; unfold on_signal, process_exit, stop, say, with_loop; simpl;
    rewrite Hp; simpl; rewrite Hk; repeat split; apply last_snoc.
Qed.

Lemma signal_stops_witness :
  killed (start_resume (with_loop start (build_resume io_ok (loop start)))) = [] /\
  exists d',
    step (start_resume (with_loop start (build_resume io_ok (loop start))))
      (Signal SIGINT) = Some d' /\
    exited (loop d') = Some 0%Z /\
    killed d' = [SIGTERM] /\
    serverProcess d' = false /\
    last (out (loop d')) = Some "Stopping server...".
Proof.
  apply (signal_stops_the_server_once [Loop (BuildSettles io_ok)]
           (start_resume (with_loop start (build_resume io_ok (loop start))))
           SIGINT); reflexivity.
Defined.

(** A failed build ends the dev process behind the back of [stop()]:
    whenever the exit status is 1, no signal was ever sent to the server
    child, and [serverProcess] still holds it if it was spawned. The
    server is spawned once, when [start()] resumes, and never again; when
    the first build fails it is not spawned at all. *)
Theorem failed_build_leaves_the_server_running
    (evs : list event) (d : dev_process) :
  run start evs = Some d ->
  spawned d = (if started d then 1 else 0) /\
  (exited (loop d) = Some 1%Z ->
   killed d = [] /\ serverProcess d = started d).
Proof.
  intros Hr.
  destruct (run_supervised evs start d start_supervised Hr) as [Hs Hi].
  split; [exact Hs|]. intros Hx. rewrite Hx in Hi.
  destruct Hi as [(? & _) | (_ & Hk & Hp)]; [discriminate | auto].
Qed.

Lemma failed_build_witness :
  exists d,
    run start [Loop (BuildSettles io_ok); Loop FileEvent;
               Loop (BuildSettles esbuild_fails); Signal SIGTERM] = None /\
    run start [Loop (BuildSettles io_ok); Loop FileEvent;
               Loop (BuildSettles esbuild_fails)] = Some d /\
    exited (loop d) = Some 1%Z /\
    started d = true /\
    spawned d = 1 /\
    killed d = [] /\ serverProcess d = true.
Proof.
  eexists. split; [reflexivity|]. split; [reflexivity|].
  split; [reflexivity|]. split; [reflexivity|].
  pose proof (failed_build_leaves_the_server_running
                [Loop (BuildSettles io_ok); Loop FileEvent;
                 Loop (BuildSettles esbuild_fails)] _ eq_refl) as [Hs Hk].
  split; [exact Hs|]. apply Hk. reflexivity.
Defined.

End SupervisorFacts.

(** ** String methods *)

Module StrFacts.
Import Str.

Lemma chars_app a b : chars (a +:+ b) = chars a ++ chars b.
Proof. unfold chars. induction a as [|c a IH]; simpl; [reflexivity | now rewrite IH]. Qed.

Lemma chars_of_list l : chars (String.string_of_list_ascii l) = l.
Proof. apply String.list_ascii_of_string_of_list_ascii. Qed.

Lemma chars_toLowerCase s : chars (toLowerCase s) = map lower_char (chars s).
Proof. apply chars_of_list. Qed.

Lemma chars_slice n s : chars (slice n s) = drop n (chars s).
Proof. apply chars_of_list. Qed.

Lemma chars_inj a b : chars a = chars b -> a = b.
Proof.
  unfold chars. intros H.
  rewrite <- (String.string_of_list_ascii_of_string a),
          <- (String.string_of_list_ascii_of_string b).
  now rewrite H.
Qed.

Lemma endsWith_spec s suffix :
  endsWith s suffix = true <-> chars suffix `suffix_of` chars s.
Proof. unfold endsWith. apply bool_decide_eq_true. Qed.

(** A string that ends with a non-empty suffix ends with its last
    character. *)
Lemma endsWith_last s suffix c :
  endsWith s suffix = true -> last (chars suffix) = Some c ->
  last (chars s) = Some c.
Proof.
  rewrite endsWith_spec. intros [k ->] Hl.
  rewrite last_app, Hl. reflexivity.
Qed.

Lemma endsWith_app_r a b suffix :
  endsWith b suffix = true -> endsWith (a +:+ b) suffix = true.
Proof.
  rewrite !endsWith_spec, chars_app. apply suffix_app_r.
Qed.

Lemma last_app_nonempty a b :
  chars b <> [] -> last (chars (a +:+ b)) = last (chars b).
Proof.
  intros Hb. rewrite chars_app, last_app.
  destruct (last (chars b)) eqn:E; [reflexivity|].
  apply last_None in E. contradiction.
Qed.

Lemma occurs_char c s : occurs [c] s = true <-> c ∈ s.
Proof.
  induction s as [|d s IH].
  - split; [discriminate | intros H; inversion H].
  - change (occurs [c] (d :: s))
      with (bool_decide ([c] `prefix_of` d :: s) || occurs [c] s).
    rewrite orb_true_iff, bool_decide_eq_true, IH, elem_of_cons.
    split.
    + intros [[k Hk] | H]; [left | now right]. now inversion Hk.
    + intros [-> | H]; [left | now right]. now exists s.
Qed.

(** [s.includes('.')]. *)
Lemma includes_dot s : includes s "." = true <-> "."%char ∈ chars s.
Proof. unfold includes. apply occurs_char. Qed.

Lemma lower_char_dot c : lower_char c = "."%char -> c = "."%char.
Proof.
  destruct c as [[] [] [] [] [] [] [] []]; vm_compute; congruence.
Qed.

Lemma toLowerCase_dot s :
  "."%char ∈ chars (toLowerCase s) -> "."%char ∈ chars s.
Proof.
  rewrite chars_toLowerCase, list_elem_of_fmap.
  intros (c & Hc & Hin). symmetry in Hc. apply lower_char_dot in Hc. now subst.
Qed.

(** A suffix that contains a dot puts a dot into the string. *)
Lemma endsWith_dot s suffix :
  "."%char ∈ chars suffix -> endsWith s suffix = true -> "."%char ∈ chars s.
Proof.
  intros Hd. rewrite endsWith_spec. intros [k ->].
  apply elem_of_app. now right.
Qed.

End StrFacts.

(** ** The static asset server *)

Module ServerFacts.
Import Str StrFacts Server.

(** The two extensions end in different letters. *)
Lemma mjs_not_wasm s : endsWith s ".mjs" = true -> endsWith s ".wasm" = false.
Proof.
  intros H. apply (endsWith_last _ _ "s"%char) in H; [|reflexivity].
  destruct (endsWith s ".wasm") eqn:E; [|reflexivity].
  apply (endsWith_last _ _ "m"%char) in E; [|reflexivity]. congruence.
Qed.

Lemma wasm_not_mjs s : endsWith s ".wasm" = true -> endsWith s ".mjs" = false.
Proof.
  intros H. destruct (endsWith s ".mjs") eqn:E; [|reflexivity].
  apply mjs_not_wasm in E. congruence.
Qed.

Lemma middlewares_pass req :
  and_then (cors ∅) (mimeMiddleware req) = Next (preset req).
Proof. reflexivity. Qed.

Lemma preset_mjs req :
  endsWith (path req) ".mjs" = true ->
  preset req !! "Content-Type" = Some javascript.
Proof.
  intros H. unfold preset, cors, mimeMiddleware, and_then, setHeader.
  rewrite H, (mjs_not_wasm _ H).
  destruct (assetExtension (path req)); now simplify_map_eq.
Qed.

Lemma preset_wasm req :
  endsWith (path req) ".wasm" = true ->
  preset req !! "Content-Type" = Some wasm.
Proof.
  intros H. unfold preset, cors, mimeMiddleware, and_then, setHeader.
  rewrite H, (wasm_not_mjs _ H).
  destruct (assetExtension (path req)); now simplify_map_eq.
Qed.

(** [setHeaders] and the send library keep a type that is already right. *)
Lemma static_keeps_javascript e f h :
  h !! "Content-Type" = Some javascript -> endsWith f ".wasm" = false ->
  sendType e f (setHeaders f h) !! "Content-Type" = Some javascript.
Proof.
  intros Hh Hw. unfold sendType, setHeaders, setHeader. rewrite Hw.
  destruct (endsWith f ".mjs"); simplify_map_eq; reflexivity.
Qed.

Lemma static_keeps_wasm e f h :
  h !! "Content-Type" = Some wasm -> endsWith f ".mjs" = false ->
  sendType e f (setHeaders f h) !! "Content-Type" = Some wasm.
Proof.
  intros Hh Hm. unfold sendType, setHeaders, setHeader. rewrite Hm.
  destruct (endsWith f ".wasm"); simplify_map_eq; reflexivity.
Qed.

Lemma last_drop {A} n (l : list A) :
  drop n l <> [] -> last (drop n l) = last l.
Proof.
  intros H. rewrite <- (take_drop n l) at 2. rewrite last_app.
  destruct (last (drop n l)) eqn:E; [reflexivity|].
  apply last_None in E. contradiction.
Qed.

(** The last letter of the file a static middleware looks for: that of
    index.html, of its root, or of the request path. *)
Lemma staticFile_last root n p :
  let f := staticFile root (slice n p) in
  last (chars f) = Some "l"%char \/
  last (chars f) = last (chars root) \/
  last (chars f) = last (chars p).
Proof.
  unfold staticFile. destruct (endsWith (slice n p) "/").
  - left. rewrite !chars_app, !last_app. reflexivity.
  - destruct (chars (slice n p)) as [|c l] eqn:E.
    + right; left. rewrite chars_app, E, app_nil_r. reflexivity.
    + right; right. rewrite last_app_nonempty by (rewrite E; discriminate).
      rewrite chars_slice in *. apply last_drop. rewrite E. discriminate.
Qed.

Lemma slice_0 p : slice 0 p = p.
Proof. apply chars_inj. now rewrite chars_slice. Qed.

(** What the static middlewares answer, if they answer: a file with
    status 200, or the redirect of a directory. *)
Lemma statics_done e req h r :
  statics e req h = Done r ->
  (status r = 200 /\
   exists root n,
     (root = publicRoot \/ root = distRoot) /\
     let f := staticFile root (slice n (path req)) in
     payload r = SentFile f /\
     headers r = sendType e f (setHeaders f h)) \/
  r = redirect h.
Proof.
  unfold statics, and_then, serveStatic at 1.
  destruct (isFile e (staticFile publicRoot (path req))) eqn:E1.
  - intros [= <-]. left. split; [reflexivity|].
    exists publicRoot, 0. rewrite slice_0. auto.
  - destruct (negb (endsWith (path req) "/") &&
              isDirectory e (publicRoot +:+ path req)).
    + intros [= <-]. now right.
    + unfold serveMonaco, mounted.
      destruct (_ && _); [|discriminate].
      unfold serveStatic.
      destruct (isFile e (staticFile distRoot _)) eqn:E2.
      * intros [= <-]. left. split; [reflexivity|].
        exists distRoot, (String.length "/monaco"). auto.
      * destruct (negb _ && isDirectory e _); [|discriminate].
        intros [= <-]. now right.
Qed.

Lemma respond_static e req r :
  statics e req (preset req) = Done r -> respond e req = r.
Proof. unfold respond. rewrite middlewares_pass. simpl. now intros ->. Qed.

Lemma statics_next e req h h' : statics e req h = Next h' -> h' = h.
Proof.
  unfold statics, and_then, serveStatic, serveMonaco.
  destruct (isFile e _); [discriminate|].
  destruct (negb _ && isDirectory e _); [discriminate|].
  destruct (mounted _ _); [|congruence].
  unfold serveStatic. destruct (isFile e _); [discriminate|].
  destruct (negb _ && isDirectory e _); [discriminate | congruence].
Qed.

Lemma respond_routes e req h :
  statics e req (preset req) = Next h ->
  h = preset req /\ respond e req = routes e req (preset req).
Proof.
  unfold respond. rewrite middlewares_pass. simpl. intros H. rewrite H.
  apply statics_next in H as ->. auto.
Qed.

(** A request is answered from a file, with the redirect of a directory,
    or by the routes. *)
Lemma served_cases e req :
  (exists r f, statics e req (preset req) = Done r /\ status r = 200 /\
               payload r = SentFile f /\
               servedStatically e req = Some f /\ redirected e req = false) \/
  (statics e req (preset req) = Done (redirect (preset req)) /\
   servedStatically e req = None /\ redirected e req = true) \/
  (statics e req (preset req) = Next (preset req) /\
   servedStatically e req = None /\ redirected e req = false).
Proof.
  unfold servedStatically, redirected. rewrite middlewares_pass. simpl.
  destruct (statics e req (preset req)) as [h|r] eqn:E.
  - right; right. apply statics_next in E as ->. auto.
  - destruct (statics_done e req _ r E) as [(Hst & root & n & _ & Hp & _) | ->].
    + left. exists r, (staticFile root (slice n (path req))). simpl in Hp.
      rewrite Hp, Hst. auto.
    + right; left. auto.
Qed.

(** C4. A request whose path ends in .mjs and which a static middleware
    answers from an existing file gets status 200, that file, and the
    Content-Type application/javascript, exactly; one whose path ends in
    .wasm gets application/wasm. *)
Theorem static_modules_and_wasm_are_typed (e : env) (req : request) (f : string) :
  servedStatically e req = Some f ->
  (endsWith (path req) ".mjs" = true ->
   status (respond e req) = 200 /\
   payload (respond e req) = SentFile f /\
   headers (respond e req) !! "Content-Type" = Some "application/javascript") /\
  (endsWith (path req) ".wasm" = true ->
   status (respond e req) = 200 /\
   payload (respond e req) = SentFile f /\
   headers (respond e req) !! "Content-Type" = Some "application/wasm").
Proof.
  intros Hs.
  destruct (served_cases e req)
    as [(r & f' & Hd & Hst & Hp & Hs' & _) | [(_ & Hn & _) | (_ & Hn & _)]];
    [|congruence..].
  assert (f' = f) as -> by congruence.
  rewrite (respond_static e req r Hd).
  destruct (statics_done e req _ r Hd) as [(_ & root & n & Hroot & Hp' & Hh) | ->];
    [|discriminate Hp].
  simpl in Hp', Hh.
  pose proof (staticFile_last root n (path req)) as Hl. simpl in Hl.
  set (g := staticFile root (slice n (path req))) in *.
  assert (Hr : last (chars root) = Some "c"%char \/ last (chars root) = Some "t"%char).
  { destruct Hroot as [-> | ->]; [left | right]; reflexivity. }
  split; intros Hext; (split; [exact Hst|]); (split; [exact Hp|]); rewrite Hh.
  - apply static_keeps_javascript; [now apply preset_mjs|].
    destruct (endsWith g ".wasm") eqn:E; [|reflexivity].
    apply (endsWith_last _ _ "m"%char) in E; [|reflexivity].
    apply (endsWith_last _ _ "s"%char) in Hext; [|reflexivity].
    destruct Hl as [Hl | [Hl | Hl]]; destruct Hr; congruence.
  - apply static_keeps_wasm; [now apply preset_wasm|].
    destruct (endsWith g ".mjs") eqn:E; [|reflexivity].
    apply (endsWith_last _ _ "s"%char) in E; [|reflexivity].
    apply (endsWith_last _ _ "m"%char) in Hext; [|reflexivity].
    destruct Hl as [Hl | [Hl | Hl]]; destruct Hr; congruence.
Qed.

Lemma static_modules_witness :
  status (respond site (mkRequest "/monaco/index.mjs" false)) = 200 /\
  payload (respond site (mkRequest "/monaco/index.mjs" false)) =
    SentFile "public/monaco/index.mjs" /\
  headers (respond site (mkRequest "/monaco/index.mjs" false)) !! "Content-Type" =
    Some "application/javascript".
Proof.
  apply (static_modules_and_wasm_are_typed site
           (mkRequest "/monaco/index.mjs" false) "public/monaco/index.mjs");
    vm_compute; reflexivity.
Defined.

(** Without the middleware and [setHeaders], the type would be the
    library's guess. *)
Example wasm_served_with_its_type :
  headers (respond site (mkRequest "/monaco/onig.wasm" true)) !! "Content-Type" =
    Some "application/wasm".
Proof. vm_compute. reflexivity. Qed.

(** *** Paths with a dot *)

Lemma dot_in_lower p :
  includes p "." = true -> "."%char ∈ chars (toLowerCase p).
Proof.
  rewrite includes_dot, chars_toLowerCase, list_elem_of_fmap.
  intros H. exists "."%char. split; [reflexivity | exact H].
Qed.

(** A route path without a dot does not match a path with one. *)
Lemma routeIs_dot route p :
  includes route "." = false -> includes p "." = true -> routeIs route p = false.
Proof.
  intros Hr Hp. apply dot_in_lower in Hp.
  unfold routeIs. apply orb_false_iff.
  split; apply bool_decide_eq_false; intros E; rewrite E in Hp.
  - apply includes_dot in Hp. congruence.
  - rewrite chars_app, elem_of_app in Hp. destruct Hp as [Hp | Hp].
    + apply includes_dot in Hp. congruence.
    + change (chars "/") with ["/"%char] in Hp.
      apply elem_of_cons in Hp as [Hp | Hp]; [discriminate | inversion Hp].
Qed.

(** C5 on the code: a path with a dot that names no file and does not
    decode is answered by the error handler, with status 500. *)
Lemma undecodable_dotted_path_is_500 :
  includes (path (mkRequest "/a.b%" true)) "." = true /\
  servedStatically site (mkRequest "/a.b%" true) = None /\
  status (respond site (mkRequest "/a.b%" true)) = 500 /\
  payload (respond site (mkRequest "/a.b%" true)) =
    ErrorJson "Failed to decode param '/a.b%'".
Proof. vm_compute. repeat split; reflexivity. Qed.

(** C5, amended. A GET request whose path contains a dot and that no
    static middleware answers from a file is never answered with a file,
    so never with the default document. Its status is 301 when a static
    middleware finds a directory of that name; otherwise it is 404, with
    a text message, when what the matching route decodes does decode,
    and 500 when it does not. *)
Theorem dotted_path_without_file_is_404 (e : env) (req : request) :
  includes (path req) "." = true ->
  servedStatically e req = None ->
  (forall f, payload (respond e req) <> SentFile f) /\
  (redirected e req = true -> status (respond e req) = 301) /\
  (redirected e req = false -> decodable (param (path req)) = true ->
   status (respond e req) = 404 /\
   exists text, payload (respond e req) = Text text) /\
  (redirected e req = false -> decodable (param (path req)) = false ->
   status (respond e req) = 500).
Proof.
  intros Hdot Hs.
  destruct (served_cases e req)
    as [(r & f & _ & _ & _ & Hf & _) | [(Hd & _ & Hr) | (Hn & _ & Hr)]];
    [congruence| |].
  - rewrite (respond_static _ _ _ Hd), Hr. simpl.
    repeat split; intros; discriminate.
  - destruct (respond_routes e req _ Hn) as [_ ->]. rewrite Hr.
    unfold routes, param, decodeError.
    rewrite (routeIs_dot "/health" _ eq_refl Hdot),
            (routeIs_dot "/debug/files" _ eq_refl Hdot), Hdot, andb_false_r.
    destruct (routeEndsWith ".js" (path req));
      [|destruct (routeEndsWith ".mjs" (path req))];
      match goal with
      | |- context [decodable ?x] => destruct (decodable x)
      end; simpl; repeat split; intros; try discriminate; eauto.
Qed.

Lemma dotted_path_witness :
  (forall f, payload (respond site (mkRequest "/nonexistent.mjs" true)) <> SentFile f) /\
  (redirected site (mkRequest "/nonexistent.mjs" true) = true ->
   status (respond site (mkRequest "/nonexistent.mjs" true)) = 301) /\
  (redirected site (mkRequest "/nonexistent.mjs" true) = false ->
   decodable (param (path (mkRequest "/nonexistent.mjs" true))) = true ->
   status (respond site (mkRequest "/nonexistent.mjs" true)) = 404 /\
   exists text, payload (respond site (mkRequest "/nonexistent.mjs" true)) = Text text) /\
  (redirected site (mkRequest "/nonexistent.mjs" true) = false ->
   decodable (param (path (mkRequest "/nonexistent.mjs" true))) = false ->
   status (respond site (mkRequest "/nonexistent.mjs" true)) = 500).
Proof.
  apply (dotted_path_without_file_is_404 site (mkRequest "/nonexistent.mjs" true));
    vm_compute; reflexivity.
Defined.

(** The three answers on the example server. *)
Example dotted_paths_on_the_site :
  status (respond site (mkRequest "/nonexistent.mjs" true)) = 404 /\
  status (respond site (mkRequest "/%.js" true)) = 500 /\
  status (respond site (mkRequest "/%41.js" true)) = 404 /\
  status (respond site (mkRequest "/monaco" true)) = 301 /\
  status (respond site (mkRequest "/monaco" false)) = 301 /\
  status (respond site (mkRequest "/%" true)) = 500.
Proof. vm_compute. repeat split; reflexivity. Qed.

(** *** Paths without a dot *)

(** The routes for scripts and modules match no path without a dot. *)
Lemma routeEndsWith_dot ext p :
  "."%char ∈ chars ext -> includes p "." = false -> routeEndsWith ext p = false.
Proof.
  intros He Hp. unfold routeEndsWith.
  destruct (endsWith (toLowerCase p) ext || endsWith (toLowerCase p) (ext +:+ "/"))
    eqn:E; [|reflexivity].
  assert (Hd : "."%char ∈ chars (toLowerCase p)).
  { apply orb_true_iff in E as [E | E].
    - exact (endsWith_dot _ _ He E).
    - apply (endsWith_dot _ (ext +:+ "/")); [|exact E].
      rewrite chars_app, elem_of_app. now left. }
  apply toLowerCase_dot, includes_dot in Hd. congruence.
Qed.

Lemma routes_fallback e req h :
  includes (path req) "." = false ->
  routeIs "/health" (path req) = false ->
  routeIs "/debug/files" (path req) = false ->
  routes e req h =
  if decodable (path req) then
    if acceptsHtml req then sendFile e indexHtml h
    else mkResponse 404 h (Text "File not found")
  else decodeError (path req) h.
Proof.
  intros Hdot Hh Hd. unfold routes. rewrite Hh, Hd, Hdot.
  rewrite !routeEndsWith_dot by (assumption || (vm_compute; set_solver)).
  destruct (decodable (path req)); simpl; [|reflexivity].
  now rewrite andb_true_r.
Qed.

Lemma not_answered_earlier e req :
  answeredEarlier e req = false ->
  statics e req (preset req) = Next (preset req) /\
  routeIs "/health" (path req) = false /\
  routeIs "/debug/files" (path req) = false.
Proof.
  unfold answeredEarlier. rewrite !orb_false_iff, bool_decide_eq_false.
  intros [[[Hs Hr] Hh] Hd]. repeat split; try assumption.
  destruct (served_cases e req)
    as [(r & f & _ & _ & _ & Hf & _) | [(_ & _ & Hr') | (Hn & _ & _)]].
  - exfalso. apply Hs. rewrite Hf. eauto.
  - congruence.
  - exact Hn.
Qed.

(** C6 on the code: the health check has no dot in its path and is
    answered with its JSON object, whatever the client accepts. *)
Lemma health_check_is_not_the_default_document :
  includes (path (mkRequest "/health" true)) "." = false /\
  acceptsHtml (mkRequest "/health" true) = true /\
  isFile site indexHtml = true /\
  status (respond site (mkRequest "/health" true)) = 200 /\
  payload (respond site (mkRequest "/health" true)) =
    HealthJson "2025-01-01T00:00:00.000Z".
Proof. vm_compute. repeat split; reflexivity. Qed.

(** C6, amended. A GET request whose path contains no dot and decodes,
    whose client accepts HTML and which is not answered earlier (by a
    static file, by the redirect of a directory, by the health check or
    the debug endpoint) is answered with the default document
    public/index.html and status 200, when that file exists. *)
Theorem navigation_falls_back_to_index (e : env) (req : request) :
  includes (path req) "." = false ->
  decodable (path req) = true ->
  acceptsHtml req = true ->
  answeredEarlier e req = false ->
  isFile e indexHtml = true ->
  status (respond e req) = 200 /\
  payload (respond e req) = SentFile indexHtml.
Proof.
  intros Hdot Hdec Ha He Hi.
  apply not_answered_earlier in He as (Hn & Hh & Hd).
  destruct (respond_routes e req _ Hn) as [_ ->].
  rewrite (routes_fallback e req _ Hdot Hh Hd), Hdec, Ha.
  unfold sendFile. rewrite Hi. split; reflexivity.
Qed.

Lemma navigation_witness :
  status (respond site (mkRequest "/editor/settings" true)) = 200 /\
  payload (respond site (mkRequest "/editor/settings" true)) = SentFile indexHtml.
Proof.
  apply (navigation_falls_back_to_index site (mkRequest "/editor/settings" true));
    vm_compute; reflexivity.
Defined.

(** C10 on the code: the health check is answered with status 200 for a
    client that does not accept HTML. *)
Lemma health_check_is_not_404 :
  includes (path (mkRequest "/health" false)) "." = false /\
  acceptsHtml (mkRequest "/health" false) = false /\
  status (respond site (mkRequest "/health" false)) = 200 /\
  payload (respond site (mkRequest "/health" false)) =
    HealthJson "2025-01-01T00:00:00.000Z".
Proof. vm_compute. repeat split; reflexivity. Qed.

(** C10, amended. A GET request whose path contains no dot and decodes,
    whose client does not accept HTML and which is not answered earlier
    (by a static file, by the redirect of a directory, by the health
    check or the debug endpoint) is answered with status 404 and the text
    File not found. And whenever a request that is not answered earlier
    gets the default document, its path has no dot and its client accepts
    HTML: the fallback needs both. *)
Theorem fallback_needs_html_and_no_dot (e : env) (req : request) :
  answeredEarlier e req = false ->
  (includes (path req) "." = false -> decodable (path req) = true ->
   acceptsHtml req = false ->
   status (respond e req) = 404 /\
   payload (respond e req) = Text "File not found") /\
  (payload (respond e req) = SentFile indexHtml ->
   includes (path req) "." = false /\ acceptsHtml req = true).
Proof.
  intros He. apply not_answered_earlier in He as (Hn & Hh & Hd).
  destruct (respond_routes e req _ Hn) as [_ ->].
  split.
  - intros Hdot Hdec Ha. rewrite (routes_fallback e req _ Hdot Hh Hd), Hdec, Ha.
    split; reflexivity.
  - unfold routes, decodeError. rewrite Hh, Hd.
    destruct (routeEndsWith ".js" (path req));
      [destruct (decodable _); discriminate|].
    destruct (routeEndsWith ".mjs" (path req));
      [destruct (decodable _); discriminate|].
    destruct (decodable (path req)); [|discriminate].
    destruct (acceptsHtml req), (includes (path req) "."); simpl;
      try discriminate. auto.
Qed.

Lemma fallback_witness :
  status (respond site (mkRequest "/editor/settings" false)) = 404 /\
  payload (respond site (mkRequest "/editor/settings" false)) = Text "File not found".
Proof.
  apply (fallback_needs_html_and_no_dot site (mkRequest "/editor/settings" false));
    vm_compute; reflexivity.
Defined.

(** *** Headers that every response carries *)

Lemma same_but_type_refl h : same_but_type h h.
Proof. intros name _. reflexivity. Qed.

Lemma setHeaders_same f h : same_but_type h (setHeaders f h).
Proof.
  intros name Hn. unfold setHeaders, setHeader.
  destruct (endsWith f ".mjs"), (endsWith f ".wasm");
    rewrite ?lookup_insert_ne by congruence; reflexivity.
Qed.

Lemma sendType_same e f h : same_but_type h (sendType e f h).
Proof.
  intros name Hn. unfold sendType, setHeader.
  destruct (h !! "Content-Type"); [reflexivity|].
  apply lookup_insert_ne. congruence.
Qed.

(** Whatever answers a request, it keeps the headers set by the two first
    middlewares, but for the Content-Type. *)
Lemma respond_keeps_preset e req :
  same_but_type (preset req) (headers (respond e req)).
Proof.
  destruct (served_cases e req)
    as [(r & f & Hd & _ & Hp & _) | [(Hd & _) | (Hn & _)]].
  - rewrite (respond_static e req r Hd).
    destruct (statics_done e req _ r Hd) as [(_ & root & n & _ & _ & Hh) | ->];
      [|discriminate Hp].
    simpl in Hh. rewrite Hh. intros name Hname.
    rewrite (sendType_same _ _ _ name Hname). now apply setHeaders_same.
  - rewrite (respond_static e req _ Hd). intros name Hname.
    apply lookup_insert_ne. congruence.
  - destruct (respond_routes e req _ Hn) as [_ ->].
    unfold routes, sendFile, decodeError.
    repeat match goal with
           | |- context [if ?b then _ else _] => destruct b
           end; simpl; try apply same_but_type_refl.
    apply sendType_same.
Qed.

Lemma preset_fixed req :
  preset req !! "Access-Control-Allow-Origin" = Some "*" /\
  preset req !! "Cross-Origin-Embedder-Policy" = Some "require-corp" /\
  preset req !! "Cross-Origin-Opener-Policy" = Some "same-origin".
Proof.
  unfold preset, cors, mimeMiddleware, and_then, setHeader.
  destruct (endsWith (path req) ".mjs"), (endsWith (path req) ".wasm"),
    (assetExtension (path req)); repeat split; now simplify_map_eq.
Qed.

Lemma preset_cache req :
  assetExtension (path req) = true ->
  preset req !! "Cache-Control" = Some "public, max-age=31536000".
Proof.
  intros Ha. unfold preset, cors, mimeMiddleware, and_then, setHeader. rewrite Ha.
  destruct (endsWith (path req) ".mjs"), (endsWith (path req) ".wasm");
    now simplify_map_eq.
Qed.

(** Every answer to a GET request, from a file, a route, the fallback or
    the error handler, with any status, carries the two isolation headers
    and allows every origin. *)
Theorem every_response_is_isolated (e : env) (req : request) :
  headers (respond e req) !! "Cross-Origin-Embedder-Policy" = Some "require-corp" /\
  headers (respond e req) !! "Cross-Origin-Opener-Policy" = Some "same-origin" /\
  headers (respond e req) !! "Access-Control-Allow-Origin" = Some "*".
Proof.
  pose proof (respond_keeps_preset e req) as Hk.
  destruct (preset_fixed req) as (Ha & Hc & Ho).
  rewrite !Hk by discriminate. auto.
Qed.

(** A path with one of the five asset extensions is answered with the
    one-year cache directive whatever the answer is: also a 404 for a
    file that is not there. *)
Theorem asset_paths_are_cached_even_when_missing (e : env) (req : request) :
  assetExtension (path req) = true ->
  headers (respond e req) !! "Cache-Control" = Some "public, max-age=31536000".
Proof.
  intros Ha. rewrite (respond_keeps_preset e req) by discriminate.
  now apply preset_cache.
Qed.

Lemma asset_cache_witness :
  status (respond site (mkRequest "/nonexistent.mjs" true)) = 404 /\
  headers (respond site (mkRequest "/nonexistent.mjs" true)) !! "Cache-Control" =
    Some "public, max-age=31536000".
Proof.
  split; [vm_compute; reflexivity|].
  apply (asset_paths_are_cached_even_when_missing site
           (mkRequest "/nonexistent.mjs" true)).
  vm_compute. reflexivity.
Defined.

(** *** Which handler answers *)

(** The file under public wins; the distribution mounted at /monaco is
    only looked at when public has neither a file for the path nor a
    directory to redirect to. The answer is that file with status 200,
    whatever routes the path would match. *)
Theorem public_files_win_over_the_mount (e : env) (req : request) (f : string) :
  servedStatically e req = Some f <->
  (isFile e (staticFile publicRoot (path req)) = true /\
   f = staticFile publicRoot (path req)) \/
  (isFile e (staticFile publicRoot (path req)) = false /\
   negb (endsWith (path req) "/") && isDirectory e (publicRoot +:+ path req) = false /\
   exists rest,
     mounted "/monaco" (path req) = Some rest /\
     isFile e (staticFile distRoot rest) = true /\
     f = staticFile distRoot rest).
Proof.
  unfold servedStatically. rewrite middlewares_pass. simpl.
  unfold statics, and_then, serveStatic at 1.
  destruct (isFile e (staticFile publicRoot (path req))) eqn:E1; simpl.
  - split.
    + intros [= <-]. left. auto.
    + intros [[_ ->] | [? _]]; [reflexivity | discriminate].
  - destruct (negb (endsWith (path req) "/") &&
              isDirectory e (publicRoot +:+ path req)) eqn:D1; simpl.
    { split; [discriminate|].
      intros [[? _] | (_ & ? & _)]; discriminate. }
    unfold serveMonaco. destruct (mounted "/monaco" (path req)) as [rest|] eqn:Em.
    + unfold serveStatic.
      destruct (isFile e (staticFile distRoot rest)) eqn:E2; simpl.
      * split.
        -- intros [= <-]. right. split; [reflexivity|]. split; [reflexivity|].
           exists rest. auto.
        -- intros [[? _] | (_ & _ & rest' & [= <-] & _ & ->)];
             [discriminate | reflexivity].
      * split.
        -- destruct (negb (endsWith rest "/") && isDirectory e (distRoot +:+ rest));
             simpl; discriminate.
        -- intros [[? _] | (_ & _ & rest' & [= <-] & H & _)]; congruence.
    + split; [discriminate|].
      intros [[? _] | (_ & _ & rest' & ? & _)]; discriminate.
Qed.

(** A file stored as public/health hides the health check, and so does a
    directory of that name. *)
Example health_check_can_be_shadowed :
  payload
    (respond (mkEnv (fun f => bool_decide (f = "public/health")) (fun _ => false)
                (fun _ => "application/octet-stream") "t" "3000")
       (mkRequest "/health" true))
  = SentFile "public/health" /\
  status
    (respond (mkEnv (fun _ => false) (fun f => bool_decide (f = "public/health"))
                (fun _ => "application/octet-stream") "t" "3000")
       (mkRequest "/health" true))
  = 301.
Proof. vm_compute. split; reflexivity. Qed.

(** The health check answers every spelling of its path (any letter
    case, with or without a slash at the end) that no static file hides,
    with status 200 and the current time, whatever the client accepts;
    unless public holds a directory of that name, which is answered with
    the redirect. *)
Theorem health_check_answers (e : env) (req : request) :
  routeIs "/health" (path req) = true ->
  servedStatically e req = None ->
  (redirected e req = false ->
   status (respond e req) = 200 /\
   payload (respond e req) = HealthJson (now e)) /\
  (redirected e req = true -> status (respond e req) = 301).
Proof.
  intros Hr Hs.
  destruct (served_cases e req)
    as [(r & f & _ & _ & _ & Hf & _) | [(Hd & _ & Hred) | (Hn & _ & Hred)]];
    [congruence| |].
  - rewrite (respond_static _ _ _ Hd), Hred. split; [discriminate | reflexivity].
  - destruct (respond_routes e req _ Hn) as [_ ->]. rewrite Hred.
    unfold routes. rewrite Hr. split; [auto | discriminate].
Qed.

Lemma health_check_witness :
  (redirected site (mkRequest "/Health/" false) = false ->
   status (respond site (mkRequest "/Health/" false)) = 200 /\
   payload (respond site (mkRequest "/Health/" false)) = HealthJson (now site)) /\
  (redirected site (mkRequest "/Health/" false) = true ->
   status (respond site (mkRequest "/Health/" false)) = 301).
Proof.
  apply (health_check_answers site (mkRequest "/Health/" false));
    vm_compute; reflexivity.
Defined.

(** A request for a script or a module that no static middleware answers
    gets its own 404 text, also from a client that accepts HTML and also
    when the default document exists; when what stands before the
    extension does not decode, the error handler answers with 500. *)
Theorem missing_scripts_get_their_own_404 (e : env) (req : request) :
  servedStatically e req = None ->
  redirected e req = false ->
  (routeEndsWith ".js" (path req) = true ->
   includes (path req) "." = true /\
   (decodable (capture ".js" (path req)) = true ->
    status (respond e req) = 404 /\
    payload (respond e req) = Text "JavaScript file not found") /\
   (decodable (capture ".js" (path req)) = false ->
    status (respond e req) = 500)) /\
  (routeEndsWith ".js" (path req) = false ->
   routeEndsWith ".mjs" (path req) = true ->
   includes (path req) "." = true /\
   (decodable (capture ".mjs" (path req)) = true ->
    status (respond e req) = 404 /\
    payload (respond e req) = Text "Module file not found") /\
   (decodable (capture ".mjs" (path req)) = false ->
    status (respond e req) = 500)).
Proof.
  intros Hs Hred.
  destruct (served_cases e req)
    as [(r & f & _ & _ & _ & Hf & _) | [(_ & _ & Hr) | (Hn & _)]];
    [congruence..|].
  destruct (respond_routes e req _ Hn) as [_ ->].
  assert (Hdot : forall ext, "."%char ∈ chars ext ->
            routeEndsWith ext (path req) = true -> includes (path req) "." = true).
  { intros ext He Hr. destruct (includes (path req) ".") eqn:E; [reflexivity|].
    rewrite (routeEndsWith_dot ext _ He E) in Hr. discriminate. }
  split.
  - intros Hjs. assert (Hd := Hdot ".js" ltac:(vm_compute; set_solver) Hjs).
    split; [exact Hd|]. unfold routes, decodeError.
    rewrite (routeIs_dot "/health" _ eq_refl Hd),
            (routeIs_dot "/debug/files" _ eq_refl Hd), Hjs.
    split; intros ->; auto.
  - intros Hjs Hmjs. assert (Hd := Hdot ".mjs" ltac:(vm_compute; set_solver) Hmjs).
    split; [exact Hd|]. unfold routes, decodeError.
    rewrite (routeIs_dot "/health" _ eq_refl Hd),
            (routeIs_dot "/debug/files" _ eq_refl Hd), Hjs, Hmjs.
    split; intros ->; auto.
Qed.

Lemma missing_scripts_witness :
  includes "/dist/App.JS" "." = true /\
  (decodable (capture ".js" "/dist/App.JS") = true ->
   status (respond site (mkRequest "/dist/App.JS" true)) = 404 /\
   payload (respond site (mkRequest "/dist/App.JS" true)) =
     Text "JavaScript file not found") /\
  (decodable (capture ".js" "/dist/App.JS") = false ->
   status (respond site (mkRequest "/dist/App.JS" true)) = 500).
Proof.
  apply (proj1 (missing_scripts_get_their_own_404 site
                  (mkRequest "/dist/App.JS" true)
                  ltac:(vm_compute; reflexivity) ltac:(vm_compute; reflexivity))).
  vm_compute. reflexivity.
Defined.



(** With public/dist made by a build that failed later, GET /dist is
    answered by the redirect, before the routes. *)
Example directory_without_index_is_redirected :
  answeredEarlier
    (mkEnv (fun _ => false) (fun f => bool_decide (f = "public/dist"))
       (fun _ => "text/plain") "t" "3000")
    (mkRequest "/dist" true) = true /\
  status
    (respond
       (mkEnv (fun _ => false) (fun f => bool_decide (f = "public/dist"))
          (fun _ => "text/plain") "t" "3000")
       (mkRequest "/dist" true)) = 301.
Proof. vm_compute. split; reflexivity. Qed.

End ServerFacts.

(** ** The setup tester *)

Module TesterFacts.
Import Js Str Tester.

Lemma runs_ret {A} (a : A) : runs (mret a) [] [] (fun x _ => x = a).
Proof.
  intros t. exists a, t. unfold tally. simpl.
  rewrite !app_nil_r, !Nat.add_0_r. repeat split; reflexivity.
Qed.

Lemma runs_bind {A B} (m : M tester A) (k : A -> M tester B)
    vs1 us1 vs2 us2 P Q :
  runs m vs1 us1 P -> (forall a, (exists t, P a t) -> runs (k a) vs2 us2 Q) ->
  runs (m ≫= k) (vs1 ++ vs2) (us1 ++ us2) Q.
Proof.
  intros Hm Hk t.
  destruct (Hm t) as (a & t1 & E1 & P1 & R1 & Q1 & S1 & W1 & X1).
  destruct (Hk a (ex_intro _ t1 P1) t1) as (b & t2 & E2 & P2 & R2 & Q2 & S2 & W2 & X2).
  exists b, t2. unfold mbind, M_bind, bind. rewrite E1, E2.
  unfold tally in *. rewrite !filter_app, !length_app.
  rewrite R2, R1, Q2, Q1, !app_assoc. repeat split; (assumption || lia).
Qed.

Lemma runs_weaken {A} (m : M tester A) vs us P : runs m vs us P -> runs m vs us any.
Proof.
  intros H t. destruct (H t) as (a & t' & E & _ & R). exists a, t'.
  split; [exact E|]. split; [exact I | exact R].
Qed.

Lemma runs_eq {A} (m : M tester A) vs us vs' us' P :
  runs m vs us P -> vs = vs' -> us = us' -> runs m vs' us' P.
Proof. now intros H <- <-. Qed.

Lemma runs_then {A} (m : M tester unit) (k : M tester A) vs us P :
  runs m [] [] any -> runs k vs us P -> runs (m ;; k) vs us P.
Proof.
  intros Hm Hk.
  change vs with ([] ++ vs). change us with ([] ++ us).
  eapply runs_bind; [exact Hm | intros _ _; exact Hk].
Qed.

(** A [try] whose body always returns never enters its [catch]. *)
Lemma runs_try {A} (m : M tester A) h vs us P :
  runs m vs us P -> runs (try_catch m h) vs us P.
Proof.
  intros H t. destruct (H t) as (a & t' & E & R). exists a, t'.
  unfold try_catch. rewrite E. auto.
Qed.

(** One call of [log] by the script records its type, unless it is
    [Info]. *)
Lemma runs_log message k :
  runs (log message k) (if decide (k = Info) then [] else [k]) [] any.
Proof.
  intros t. eexists tt, _. split; [reflexivity|]. split; [exact I|].
  unfold recorded, fired, tally.
  destruct k; simpl; rewrite ?omap_app, ?filter_app, ?length_app; simpl;
    rewrite ?app_nil_r, ?Nat.add_0_r; repeat split; try reflexivity; lia.
Qed.

Lemma runs_log_info message : runs (log message Info) [] [] any.
Proof. exact (runs_log message Info). Qed.

Lemma runs_log_outcome message k : k <> Info -> runs (log message k) [k] [] any.
Proof.
  intros Hk. pose proof (runs_log message k) as H.
  destruct (decide (k = Info)); [contradiction | exact H].
Qed.

Lemma runs_log_then {A} message k (a : A) :
  k <> Info -> runs (log message k ;; mret a) [k] [] any.
Proof.
  intros Hk.
  change [k] with ([k] ++ []). change (@nil string) with (@nil string ++ []).
  eapply runs_bind;
    [now apply runs_log_outcome | intros; eapply runs_weaken, runs_ret].
Qed.

(** *** Callbacks that run late *)

(** The callbacks that are due log one error each; no outcome of a check
    is recorded by them. *)
Lemma fire_all (l : list (nat * string)) : forall t,
  exists t',
    for_of (fun c : nat * string => log_from Callback c.2 Error) l t = Ret tt t' /\
    recorded t' = recorded t /\ requests t' = requests t /\
    successes t' = successes t /\ warnings t' = warnings t /\
    pending t' = pending t /\
    length (errors t') = length (errors t) + length l /\
    length (fired t') = length (fired t) + length l.
Proof.
  induction l as [|c l IH]; intros t.
  - exists t. simpl. rewrite !Nat.add_0_r. repeat split; reflexivity.
  - destruct (IH (mkTester (errors t ++ [c.2]) (warnings t) (successes t)
                    (logged t ++ [(Callback, Error, c.2)]) (requests t) (pending t)))
      as (t' & E & R & Q & S & W & P & X & F).
    exists t'. split; [exact E|].
    unfold recorded, fired in *. simpl in *.
    rewrite omap_app in R. rewrite omap_app in F. simpl in R, F.
    rewrite app_nil_r in R. rewrite !length_app in *. simpl in *.
    repeat split; try assumption; lia.
Qed.

Lemma settle_spec t :
  exists t',
    settle t = Ret tt t' /\
    recorded t' = recorded t /\ requests t' = requests t /\
    successes t' = successes t /\ warnings t' = warnings t /\
    pending t' =
      map (fun c => (pred c.1, c.2)) (filter (fun c => c.1 <> 0) (pending t)) /\
    length (errors t') =
      length (errors t) + length (filter (fun c => c.1 = 0) (pending t)) /\
    length (fired t') =
      length (fired t) + length (filter (fun c => c.1 = 0) (pending t)).
Proof.
  destruct (fire_all (filter (fun c => c.1 = 0) (pending t))
              (mkTester (errors t) (warnings t) (successes t) (logged t) (requests t)
                 (map (fun c => (pred c.1, c.2))
                    (filter (fun c => c.1 <> 0) (pending t)))))
    as (t' & E & H).
  exists t'. split; [exact E | exact H].
Qed.

Lemma runs_settle : runs settle [] [] any.
Proof.
  intros t. destruct (settle_spec t) as (t' & E & R & Q & S & W & _ & X & F).
  exists tt, t'. split; [exact E|]. split; [exact I|].
  unfold tally. simpl. rewrite R, Q, S, W, !app_nil_r.
  repeat split; lia.
Qed.

Lemma runs_later delay message : runs (later delay message) [] [] any.
Proof.
  intros t. eexists tt, _. split; [reflexivity|]. split; [exact I|].
  unfold recorded, fired, tally. simpl. rewrite !app_nil_r.
  repeat split; lia.
Qed.

(** *** The checks *)

(** A wait at the head of a [try] block: the callbacks that are due run,
    then the block goes on. *)
Lemma runs_try_settle {A B} (m : M tester A) (body : A -> M tester B) h vs us P :
  runs (try_catch (m ≫= body) h) vs us P ->
  runs (try_catch ((settle ;; m) ≫= body) h) vs us P.
Proof.
  intros H t.
  destruct (runs_settle t) as ([] & t1 & E1 & _ & R1 & Q1 & S1 & W1 & X1).
  destruct (H t1) as (a & t' & E & HP & R & Q & S & W & X).
  exists a, t'. split.
  { unfold try_catch, mbind, M_bind, bind in *. rewrite E1. exact E. }
  split; [exact HP|].
  rewrite R, Q, S, W, R1, Q1, S1, W1, !app_nil_r.
  change (tally Success []) with 0. change (tally Warning []) with 0.
  change (tally Error []) with 0 in X1.
  repeat split; lia.
Qed.

(** Lines 39-48: the check returns and records one outcome. *)
Lemma runs_testFileExists e p d :
  runs (testFileExists e p d) [verdict e (FileExists p d)] [] any.
Proof.
  unfold testFileExists, fs_access. apply runs_try_settle.
  intros t. unfold try_catch, verdict.
  destruct (disk e p) as [x|].
  - apply (runs_log_then _ Success true). discriminate.
  - apply (runs_log_then _ Error false). discriminate.
Qed.

(** Lines 50-64. *)
Lemma runs_testFileContent e p d x :
  runs (testFileContent e p d x) [verdict e (FileContent p d x)] [] any.
Proof.
  unfold testFileContent, fs_readFile. apply runs_try_settle.
  intros t. unfold try_catch, verdict.
  destruct (disk e p) as [[content|]|].
  - change (mret content ≫= _) with
      (fun t0 : tester =>
         (if includes content x
          then log (d +:+ " contains expected content") Success ;; mret true
          else log (d +:+ " missing expected content: " +:+ x) Warning ;; mret false)
           t0).
    destruct (includes content x).
    + destruct (runs_log_then (d +:+ " contains expected content") Success true
                  ltac:(discriminate) t) as (a & t' & E & H).
      exists a, t'. rewrite E. auto.
    + destruct (runs_log_then (d +:+ " missing expected content: " +:+ x) Warning
                  false ltac:(discriminate) t) as (a & t' & E & H).
      exists a, t'. rewrite E. auto.
  - apply (runs_log_then _ Error false). discriminate.
  - apply (runs_log_then _ Error false). discriminate.
Qed.

(** Lines 66-89: one request, one outcome of the check, and the promise
    resolves. *)
Lemma runs_testHttpEndpoint e url d :
  runs (testHttpEndpoint e url d) [verdict e (HttpEndpoint url d)] [url] any.
Proof.
  unfold testHttpEndpoint.
  change [verdict e (HttpEndpoint url d)] with ([] ++ [verdict e (HttpEndpoint url d)]).
  change [url] with ([url] ++ []).
  eapply (runs_bind _ _ _ _ _ _ any).
  - intros t. eexists tt, _. split; [reflexivity|]. unfold recorded, fired, tally, any.
    simpl. rewrite !app_nil_r, !Nat.add_0_r. repeat split; reflexivity.
  - intros _ _. apply runs_then; [apply runs_settle|]. unfold verdict.
    destruct (http_get e url) as [c after | err | hangup].
    + apply runs_then;
        [destruct after as [[delay l]|];
         [apply runs_later | eapply runs_weaken, runs_ret]|].
      destruct (decide (c = 200)); apply runs_log_then; discriminate.
    + apply runs_log_then; discriminate.
    + change [Error] with ([Error] ++ []).
      change (@nil string) with (@nil string ++ []).
      eapply runs_bind; [apply runs_log_outcome; discriminate|].
      intros _ _. apply runs_then;
        [apply runs_later | eapply runs_weaken, runs_ret].
Qed.

(** A loop whose body records one outcome per element. *)
Lemma runs_for_of {A} (body : A -> M tester unit) (g : A -> log_type) xs P :
  (forall x, runs (body x) [g x] [] P) ->
  runs (for_of body xs) (map g xs) [] any.
Proof.
  intros Hb. induction xs as [|x xs IH]; simpl.
  - eapply runs_weaken, runs_ret.
  - change (g x :: map g xs) with ([g x] ++ map g xs).
    change (@nil string) with (@nil string ++ []).
    eapply runs_bind; [apply Hb | intros _ _; exact IH].
Qed.

Lemma hasScript_defined v script t :
  v <> JNull -> hasScript v script t = Ret (definesScript v script) t.
Proof.
  intros Hv. unfold hasScript, definesScript, property.
  destruct v as [| | | | |fields]; try contradiction; try reflexivity.
  unfold mbind, M_bind, bind; simpl.
  destruct (field "scripts" fields) as [s|]; [|reflexivity].
  destruct s as [| [] | z | str | items | scripts]; simpl; try reflexivity.
  - destruct (Z.eqb z 0); reflexivity.
  - destruct (bool_decide (str = "")); reflexivity.
Qed.

Lemma runs_try_bind_ret {A B} (a : A) (k : A -> M tester B) h vs us P :
  runs (try_catch (k a) h) vs us P -> runs (try_catch (mret a ≫= k) h) vs us P.
Proof. intros H t. exact (H t). Qed.

(** Lines 155-170: whatever package.json holds, the block returns, with
    one outcome per script or one error. *)
Lemma runs_testScripts e : runs (testScripts e) (scriptVerdicts e) [] any.
Proof.
  unfold testScripts, scriptVerdicts, fs_readFile. apply runs_try_settle.
  assert (Hfail : forall (m : M tester unit) err,
            (forall t, m t = Throw err t) ->
            runs (try_catch m
                    (fun error =>
                       log ("Cannot read package.json: " +:+ message error) Error))
              [Error] [] any).
  { intros m err Hm t. unfold try_catch. rewrite Hm.
    apply runs_log_outcome. discriminate. }
  destruct (disk e ["package.json"]) as [[text|]|];
    [|apply (Hfail _ EISDIR); reflexivity | apply (Hfail _ ENOENT); reflexivity].
  apply runs_try_bind_ret. cbv beta.
  destruct (JSON_parse e text) as [v|err];
    [|apply (Hfail _ err); reflexivity].
  apply (runs_try_bind_ret v). cbv beta.
  assert (Hd : v = JNull \/ v <> JNull)
    by (destruct v; (now left) || (right; discriminate)).
  destruct Hd as [-> | Hv]; [apply (Hfail _ TypeError); reflexivity|].
  apply runs_try.
  eapply runs_eq;
    [|destruct v; try contradiction; reflexivity | reflexivity].
  apply (runs_for_of _
           (fun script => if definesScript v script then Success else Error)
           _ any).
  intros script t.
  unfold mbind, M_bind, bind. rewrite (hasScript_defined v script t Hv).
  destruct (definesScript v script); apply runs_log_outcome; discriminate.
Qed.

(** Lines 176-182: the report holds the lengths of the three arrays. *)
Lemma runs_generateReport :
  runs generateReport [] [] (fun rep t => rep = counts t).
Proof.
  intros t. exists (counts t), t. unfold tally. simpl.
  rewrite !app_nil_r, !Nat.add_0_r. repeat split; reflexivity.
Qed.

Lemma runs_monaco_file e file :
  runs (testFileExists e (["public"; "monaco"] ++ file)
          ("Monaco file: " +:+ show file) ;; mret tt)
    [verdict e (FileExists (["public"; "monaco"] ++ file)
                  ("Monaco file: " +:+ show file))] [] any.
Proof.
  eapply runs_eq;
    [eapply runs_bind;
      [apply runs_testFileExists | intros _ _; eapply runs_weaken, runs_ret]
    | reflexivity | reflexivity].
Qed.

Ltac run_check e :=
  first
    [ apply runs_log_info
    | apply runs_testFileExists
    | apply runs_testFileContent
    | apply runs_testHttpEndpoint
    | apply runs_testScripts
    | apply (runs_for_of _ _ _ _ (runs_monaco_file e)) ].

(** The whole script: every check runs, in the order of the file. *)
Lemma runs_runTests e :
  runs (runTests e) (map (verdict e) checks ++ scriptVerdicts e) urls
    (fun rep t => rep = counts t).
Proof.
  eapply runs_eq.
  - unfold runTests.
    repeat (eapply runs_bind; [run_check e | intros ? _]).
    apply runs_generateReport.
  - rewrite (app_nil_r (scriptVerdicts e)). reflexivity.
  - reflexivity.
Qed.

(** The run from the fresh tester, with the arrays counted. *)
Lemma runTests_fresh e :
  exists t,
    runTests e fresh = Ret (counts t) t /\
    recorded t = map (verdict e) checks ++ scriptVerdicts e /\
    requests t = urls /\
    length (successes t) = tally Success (recorded t) /\
    length (warnings t) = tally Warning (recorded t) /\
    length (errors t) = tally Error (recorded t) + length (fired t).
Proof.
  destruct (runs_runTests e fresh) as (rep & t & E & -> & R & Q & S & W & X).
  exists t. split; [exact E|].
  change (recorded t = map (verdict e) checks ++ scriptVerdicts e) in R.
  change (requests t = urls) in Q.
  change (length (successes t) =
          tally Success (map (verdict e) checks ++ scriptVerdicts e)) in S.
  change (length (warnings t) =
          tally Warning (map (verdict e) checks ++ scriptVerdicts e)) in W.
  change (length (errors t) + 0 =
          tally Error (map (verdict e) checks ++ scriptVerdicts e) +
          length (fired t)) in X.
  rewrite R. repeat split; try assumption. lia.
Qed.

(** Outcomes are of three types, so the three tallies add up. *)
Lemma tally_sum (vs : list log_type) :
  Info ∉ vs ->
  tally Success vs + tally Warning vs + tally Error vs = length vs.
Proof.
  unfold tally. induction vs as [|k vs IH]; [reflexivity|].
  rewrite not_elem_of_cons. intros [Hk Hvs]. specialize (IH Hvs).
  rewrite !filter_cons.
  destruct k; try congruence; simpl in *; lia.
Qed.

Lemma tally_none k vs : tally k vs = 0 <-> k ∉ vs.
Proof.
  unfold tally. induction vs as [|v vs IH]; [split; [intros _ H; inversion H | reflexivity]|].
  rewrite filter_cons, not_elem_of_cons.
  destruct (decide (v = k)) as [->|Hne]; simpl.
  - split; [discriminate | intros [H _]; congruence].
  - rewrite IH. split; [auto | intros [_ H]; exact H].
Qed.

Lemma verdict_recorded e c : verdict e c <> Info.
Proof.
  destruct c as [p d | p d x | u d]; simpl.
  - destruct (disk e p); discriminate.
  - destruct (disk e p) as [[content|]|]; try discriminate.
    destruct (includes content x); discriminate.
  - destruct (http_get e u) as [c after| |]; try discriminate.
    destruct (decide (c = 200)); discriminate.
Qed.

Lemma scriptVerdicts_cases e :
  scriptVerdicts e = [Error] \/
  exists packageJson,
    scriptVerdicts e =
    map (fun script => if definesScript packageJson script then Success else Error)
      requiredScripts.
Proof.
  unfold scriptVerdicts. destruct (disk e ["package.json"]) as [[text|]|]; auto.
  destruct (JSON_parse e text) as [v|]; auto.
  destruct v; eauto.
Qed.

Lemma verdicts_recorded e : Info ∉ map (verdict e) checks ++ scriptVerdicts e.
Proof.
  rewrite not_elem_of_app. split.
  - intros H. apply list_elem_of_In, in_map_iff in H as (c & Hc & _).
    now apply verdict_recorded in Hc.
  - destruct (scriptVerdicts_cases e) as [-> | [pj ->]].
    + intros H. apply list_elem_of_singleton in H. discriminate.
    + intros H. apply list_elem_of_In, in_map_iff in H as (s & Hs & _).
      destruct (definesScript pj s); discriminate.
Qed.

(** *** After the report *)

Lemma settle_n_spec n : forall t,
  (forall c, c ∈ pending t -> c.1 < n) ->
  exists t',
    settle_n n t = Ret tt t' /\
    recorded t' = recorded t /\ requests t' = requests t /\
    successes t' = successes t /\ warnings t' = warnings t /\
    pending t' = [] /\
    length (errors t') = length (errors t) + length (pending t) /\
    length (fired t') = length (fired t) + length (pending t).
Proof.
  induction n as [|n IH]; intros t Hb.
  - exists t. assert (Hp : pending t = []).
    { destruct (pending t) as [|c l]; [reflexivity|].
      specialize (Hb c ltac:(apply list_elem_of_here)). lia. }
    rewrite Hp. simpl. rewrite !Nat.add_0_r. repeat split; reflexivity.
  - destruct (settle_spec t) as (t1 & E1 & R1 & Q1 & S1 & W1 & P1 & X1 & F1).
    destruct (IH t1) as (t' & E & R & Q & S & W & P & X & F).
    { intros c Hc. rewrite P1 in Hc.
      apply list_elem_of_fmap in Hc as (c0 & -> & Hc0).
      apply list_elem_of_filter in Hc0 as [Hn0 Hin]. specialize (Hb c0 Hin).
      simpl in *. lia. }
    exists t'. split.
    { cbn [settle_n]. unfold mbind, M_bind, bind. rewrite E1. exact E. }
    rewrite R, Q, S, W, X, F, R1, Q1, S1, W1, X1, F1, P1, length_map.
    assert (Hlen : length (filter (fun c : nat * string => c.1 = 0) (pending t)) +
                   length (filter (fun c : nat * string => c.1 <> 0) (pending t)) =
                   length (pending t)).
    { clear. induction (pending t) as [|c l IHl]; [reflexivity|].
      rewrite !filter_cons.
      destruct (decide (c.1 = 0)), (decide (c.1 <> 0)); simpl; lia. }
    repeat split; try assumption; lia.
Qed.

Lemma drain_spec t :
  exists t',
    drain t = Ret tt t' /\
    recorded t' = recorded t /\ requests t' = requests t /\
    successes t' = successes t /\ warnings t' = warnings t /\
    pending t' = [] /\
    length (errors t') = length (errors t) + length (pending t) /\
    length (fired t') = length (fired t) + length (pending t).
Proof.
  change (drain t) with (settle_n (S (list_max (map fst (pending t)))) t).
  apply settle_n_spec. intros c Hc.
  assert (c.1 <= list_max (map fst (pending t))); [|lia].
  clear -Hc. induction (pending t) as [|c0 l IH]; [inversion Hc|].
  apply elem_of_cons in Hc as [-> | Hc]; simpl; [lia|].
  specialize (IH Hc). lia.
Qed.

(** The script from the command line: the tests, then the callbacks that
    are left. *)
Lemma main_spec e :
  exists t t',
    runTests e fresh = Ret (counts t) t /\
    main e fresh = Ret tt t' /\
    recorded t' = recorded t /\ requests t' = requests t /\
    pending t' = [] /\
    length (successes t') = length (successes t) /\
    length (warnings t') = length (warnings t) /\
    length (errors t') = length (errors t) + length (pending t).
Proof.
  destruct (runTests_fresh e) as (t & E & _).
  destruct (drain_spec t) as (t' & Ed & R & Q & S & W & P & X & _).
  exists t, t'. split; [exact E|]. split.
  { unfold main, try_catch, mbind, M_bind, bind. rewrite E. exact Ed. }
  rewrite R, Q, S, W, X. repeat split; assumption.
Qed.



Example all_checks_fail :
  runTests silent fresh = Ret (mkReport 0 0 25) (state_of (runTests silent fresh)) /\
  recorded (state_of (runTests silent fresh)) = repeat Error 22 /\
  fired (state_of (runTests silent fresh)) =
    [ "Health endpoint not accessible: socket hang up";
      "Monaco main file not accessible: socket hang up";
      "Editor worker not accessible: socket hang up" ].
Proof. vm_compute. repeat split; reflexivity. Qed.

(** *** The script as a whole *)

(** The script never ends with a failure status. Whatever is missing,
    unreadable, unparsable or unreachable, and whatever callbacks run
    late, [runTests] returns, so the handler with [process.exit(1)] is
    not entered: the script ends normally, with every probe sent once
    and no callback left; failed checks show in the report only. *)
Theorem failed_checks_do_not_fail_the_script (e : env) :
  exists t,
    main e fresh = Ret tt t /\
    exit_status (main e fresh) = None /\
    requests t = urls /\
    pending t = [].
Proof.
  destruct (main_spec e) as (t0 & t & E0 & Em & _ & Q & P & _).
  destruct (runTests_fresh e) as (t1 & E1 & _ & Q1 & _).
  rewrite E0 in E1. injection E1 as Ht. subst t1.
  exists t. rewrite Em. repeat split; congruence.
Qed.

Lemma complete_shown t :
  "Setup appears to be complete!" ∈ recommendations t <->
  length (errors t) = 0 /\ length (warnings t) = 0.
Proof.
  unfold recommendations.
  destruct (length (errors t)) as [|n], (length (warnings t)) as [|m]; simpl.
  - split; [auto | intros _; apply list_elem_of_here].
  - split; [|intros [_ ?]; discriminate].
    intros H. repeat (apply elem_of_cons in H as [H | H]; [discriminate|]).
    inversion H.
  - split; [|intros [? _]; discriminate].
    intros H. repeat (apply elem_of_cons in H as [H | H]; [discriminate|]).
    inversion H.
  - split; [|intros [? _]; discriminate].
    intros H. repeat (apply elem_of_cons in H as [H | H]; [discriminate|]).
    inversion H.
Qed.

(** The report ends with "Setup appears to be complete!" exactly when
    every check of the run succeeded, package.json defines the five
    scripts, and no callback of a probe ran late before the report (one
    that does logs an error); the report then counts 26 successes. One
    warning or one error, from whatever check, takes the line away. *)
Theorem setup_is_complete_exactly_when_all_pass (e : env) :
  exists rep t,
    runTests e fresh = Ret rep t /\
    ("Setup appears to be complete!" ∈ recommendations t <->
     (forall c, c ∈ checks -> verdict e c = Success) /\
     (forall v, v ∈ scriptVerdicts e -> v = Success) /\
     fired t = []) /\
    ("Setup appears to be complete!" ∈ recommendations t ->
     rep = mkReport 26 0 0).
Proof.
  destruct (runTests_fresh e) as (t & E & R & _ & S & W & X).
  exists (counts t), t. split; [exact E|].
  rewrite R in S, W, X.
  set (vs := map (verdict e) checks ++ scriptVerdicts e) in *.
  pose proof (verdicts_recorded e) as Hinfo. fold vs in Hinfo.
  assert (Hall : (length (errors t) = 0 /\ length (warnings t) = 0) <->
                 (forall v, v ∈ vs -> v = Success) /\ fired t = []).
  { rewrite X, W. split.
    - intros [He Hw].
      assert (He' : tally Error vs = 0) by lia.
      assert (Hf : length (fired t) = 0) by lia.
      apply tally_none in He', Hw. split.
      + intros v Hv. destruct v; try reflexivity; contradiction.
      + now destruct (fired t).
    - intros [H Hf]. rewrite Hf. simpl.
      assert (He : tally Error vs = 0)
        by (apply tally_none; intros Hin; apply H in Hin; discriminate).
      assert (Hw : tally Warning vs = 0)
        by (apply tally_none; intros Hin; apply H in Hin; discriminate).
      lia. }
  assert (Hsplit : (forall v, v ∈ vs -> v = Success) <->
                   (forall c, c ∈ checks -> verdict e c = Success) /\
                   (forall v, v ∈ scriptVerdicts e -> v = Success)).
  { unfold vs. split.
    - intros H. split.
      + intros c Hc. apply H, elem_of_app. left.
        apply list_elem_of_In, in_map, list_elem_of_In. exact Hc.
      + intros v Hv. apply H, elem_of_app. now right.
    - intros [Hc Hs] v Hv. apply elem_of_app in Hv as [Hv | Hv]; [|now apply Hs].
      apply list_elem_of_In, in_map_iff in Hv as (c & <- & Hin).
      apply Hc, list_elem_of_In. exact Hin. }
  split.
  - rewrite complete_shown, Hall, Hsplit. tauto.
  - intros Hc. apply complete_shown in Hc. pose proof Hc as [He Hw].
    pose proof (proj1 Hall Hc) as [Hs0 Hf].
    pose proof (proj1 Hsplit Hs0) as [_ Hs]. unfold counts.
    rewrite He, Hw. f_equal.
    pose proof (tally_sum vs Hinfo) as Hsum.
    rewrite Hf in X. simpl in X.
    rewrite S. unfold vs in *. rewrite length_app in Hsum.
    assert (H5 : length (scriptVerdicts e) = 5).
    { destruct (scriptVerdicts_cases e) as [E1 | [pj E1]]; rewrite E1 in *.
      - specialize (Hs Error ltac:(apply list_elem_of_here)). discriminate.
      - now rewrite length_map. }
    rewrite H5 in Hsum. 
    assert (H21 : length (map (verdict e) checks) = 21) by reflexivity.
    lia.
Qed.

(** With everything in place the line is there. *)
Example healthy_setup_is_complete :
  returns (main healthy fresh) = true /\
  "Setup appears to be complete!" ∈ recommendations (state_of (runTests healthy fresh)) /\
  runTests healthy fresh =
    Ret (mkReport 26 0 0) (state_of (runTests healthy fresh)).
Proof.
  split; [vm_compute; reflexivity|]. split.
  - apply complete_shown. vm_compute. auto.
  - vm_compute. reflexivity.
Qed.

End TesterFacts.

(** ** The asset copier *)

Module CopierFacts.
Import Js Copier.

(** The names of a listing written out are distinct. *)
Ltac distinct_names :=
  repeat (apply NoDup_cons_2;
          [let H := fresh in
           intros H;
           repeat (apply elem_of_cons in H as [H | H]; [discriminate|]);
           inversion H|]);
  apply NoDup_nil_2.

(** *** The file system primitives *)

Lemma prefix_snoc_inv {A} (q l : list A) x :
  q `prefix_of` l ++ [x] -> q `prefix_of` l \/ q = l ++ [x].
Proof.
  intros [k Hk].
  destruct k as [|y k _] using rev_ind.
  - right. now rewrite app_nil_r in Hk.
  - left. rewrite app_assoc in Hk. apply app_inj_tail in Hk as [-> _].
    now exists k.
Qed.

Lemma stat_lookup m q : q <> [] -> stat m q = m !! q.
Proof. now destruct q. Qed.

(** [mkdirp] only adds directories, and only at the prefixes of the path
    below [pre]. *)
Lemma mkdirp_frame rest : forall pre m m',
  mkdirp pre rest m = Ok m' ->
  (forall q x, m !! q = Some x -> m' !! q = Some x) /\
  (forall q, ~ (q `prefix_of` pre ++ rest /\ length pre < length q) ->
             m' !! q = m !! q).
Proof.
  induction rest as [|x rest IH]; intros pre m m' H; simpl in H.
  - inversion H; subst. auto.
  - destruct (m !! (pre ++ [x])) as [[data|]|] eqn:E; [discriminate| |].
    + destruct (IH _ _ _ H) as [Hmono Hfr]. split; [exact Hmono|].
      intros q Hq. apply Hfr. intros [Hp Hl]. apply Hq.
      rewrite <- app_assoc in Hp. split; [exact Hp|].
      rewrite length_app in Hl. simpl in Hl. lia.
    + destruct (IH _ _ _ H) as [Hmono Hfr]. split.
      * intros q y Hy. apply Hmono. rewrite lookup_insert_ne; [exact Hy|].
        intros Heq. subst q. unfold path in *. rewrite E in Hy. discriminate.
      * intros q Hq. rewrite Hfr.
        -- apply lookup_insert_ne. intros <-. apply Hq. split.
           ++ apply prefix_app, prefix_cons, prefix_nil.
           ++ rewrite length_app. simpl. lia.
        -- intros [Hp Hl]. apply Hq. rewrite <- app_assoc in Hp.
           split; [exact Hp|]. rewrite length_app in Hl. simpl in Hl. lia.
Qed.

(** When nothing but directories is in the way, [mkdirp] succeeds and
    every prefix is a directory afterwards. *)
Lemma mkdirp_creates rest : forall pre m,
  (forall q, q `prefix_of` pre ++ rest -> length pre < length q ->
             m !! q = None \/ m !! q = Some D) ->
  exists m',
    mkdirp pre rest m = Ok m' /\
    (forall q, q `prefix_of` pre ++ rest -> length pre < length q ->
               m' !! q = Some D).
Proof.
  induction rest as [|x rest IH]; intros pre m H; simpl.
  - exists m. split; [reflexivity|]. intros q Hp Hl.
    rewrite app_nil_r in Hp. apply prefix_length in Hp. lia.
  - assert (Hcur : (pre ++ [x]) `prefix_of` pre ++ x :: rest)
      by apply prefix_app, prefix_cons, prefix_nil.
    assert (Hlen : length pre < length (pre ++ [x]))
      by (rewrite length_app; simpl; lia).
    assert (Hstep : forall m1,
              m1 !! (pre ++ [x]) = Some D ->
              (forall q, q <> pre ++ [x] -> m1 !! q = m !! q) ->
              exists m', mkdirp (pre ++ [x]) rest m1 = Ok m' /\
                (forall q, q `prefix_of` pre ++ x :: rest ->
                           length pre < length q -> m' !! q = Some D)).
    { intros m1 Hd Hsame.
      destruct (IH (pre ++ [x]) m1) as (m' & Hm & Hall).
      - intros q Hp Hl. rewrite Hsame.
        + apply H; [now rewrite <- app_assoc in Hp|].
          rewrite length_app in Hl. simpl in Hl. lia.
        + intros ->. lia.
      - exists m'. split; [exact Hm|]. intros q Hp Hl.
        destruct (decide (length q = length (pre ++ [x]))) as [Heq|Hne].
        + assert (q = pre ++ [x]) as ->.
          { destruct Hp as [k1 Hk1], Hcur as [k2 Hk2].
            rewrite Hk2 in Hk1. apply app_inj_1 in Hk1 as [? _]; auto. }
          destruct (mkdirp_frame _ _ _ _ Hm) as [Hmono _]. now apply Hmono.
        + apply Hall; [now rewrite <- app_assoc|].
          rewrite length_app in *. simpl in *. lia. }
    destruct (H (pre ++ [x]) Hcur Hlen) as [E | E]; rewrite E.
    + apply Hstep.
      * apply lookup_insert_eq.
      * intros q Hq. now apply lookup_insert_ne.
    + apply Hstep; auto.
Qed.

(** On a path that is there already, [mkdirp] changes nothing. *)
Lemma mkdirp_noop rest : forall pre m,
  (forall q, q `prefix_of` pre ++ rest -> length pre < length q ->
             m !! q = Some D) ->
  mkdirp pre rest m = Ok m.
Proof.
  induction rest as [|x rest IH]; intros pre m H; simpl; [reflexivity|].
  rewrite H.
  - apply IH. intros q Hp Hl. apply H; [now rewrite <- app_assoc in Hp|].
    rewrite length_app in Hl. simpl in Hl. lia.
  - apply prefix_app, prefix_cons, prefix_nil.
  - rewrite length_app. simpl. lia.
Qed.

(** [mkdirp] fails with EEXIST or ENOTDIR only. *)
Lemma mkdirp_errors rest : forall pre m e,
  mkdirp pre rest m = Err e -> e = EEXIST \/ e = ENOTDIR.
Proof.
  induction rest as [|x rest IH]; intros pre m e H; simpl in H; [discriminate|].
  destruct (m !! (pre ++ [x])) as [[data|]|]; eauto.
  destruct rest; inversion H; auto.
Qed.

(** *** [ensureDir] and [copyFile] *)

Lemma touched_refl K m : touched_only K m m.
Proof. split; auto. Qed.

Lemma touched_trans (K1 K2 K : path -> Prop) m1 m2 m3 :
  touched_only K1 m1 m2 -> touched_only K2 m2 m3 ->
  (forall q, K1 q -> K q) -> (forall q, K2 q -> K q) ->
  touched_only K m1 m3.
Proof.
  intros [M1 F1] [M2 F2] H1 H2. split; [auto|].
  intros q Hq. rewrite F2, F1; auto.
Qed.

Lemma world_eta w : mkWorld (fs w) (console w) = w.
Proof. now destruct w. Qed.

Lemma prefix_nil_length (q dir : path) :
  q `prefix_of` [] ++ dir /\ length (@nil string) < length q <->
  q `prefix_of` dir /\ q <> [].
Proof. simpl. split; intros [H1 H2]; (split; [exact H1|]); destruct q; simpl in *; (lia || congruence). Qed.

(** What [ensureDir] does: it returns, having added the missing
    directories; it returns without a change when a file has the name; it
    throws ENOTDIR when a file is in the way. *)
Lemma ensureDir_cases dir w :
  (exists m',
     mkdirp [] dir (fs w) = Ok m' /\
     ensureDir dir w = Ret tt (mkWorld m' (console w)) /\
     touched_only (fun q => q `prefix_of` dir) (fs w) m') \/
  ensureDir dir w = Ret tt w \/
  ensureDir dir w = Throw ENOTDIR w.
Proof.
  unfold ensureDir, try_catch, fs_mkdir_recursive, io.
  destruct (mkdirp [] dir (fs w)) as [m'|e] eqn:E.
  - left. exists m'. split; [reflexivity|]. split; [reflexivity|].
    destruct (mkdirp_frame _ _ _ _ E) as [Hmono Hfr]. split; [auto|].
    intros q Hq. apply Hfr. intros [Hp _]. auto.
  - right. destruct (mkdirp_errors _ _ _ _ E) as [-> | ->]; [left | right];
      reflexivity.
Qed.

Lemma ensureDir_noop dir w : dirs_upto dir (fs w) -> ensureDir dir w = Ret tt w.
Proof.
  intros H. unfold ensureDir, try_catch, fs_mkdir_recursive, io.
  rewrite mkdirp_noop, world_eta; [reflexivity|].
  intros q Hp Hl. rewrite <- stat_lookup by (destruct q; simpl in *; [lia | congruence]).
  now apply H.
Qed.

Lemma ensureDir_creates dir w :
  (forall q, q `prefix_of` dir -> stat (fs w) q = None \/ stat (fs w) q = Some D) ->
  exists m',
    ensureDir dir w = Ret tt (mkWorld m' (console w)) /\
    dirs_upto dir m' /\
    touched_only (fun q => q `prefix_of` dir) (fs w) m'.
Proof.
  intros H.
  destruct (mkdirp_creates dir [] (fs w)) as (m' & E & Hall).
  { intros q Hp Hl. rewrite <- stat_lookup by (destruct q; simpl in *; [lia | congruence]).
    now apply H. }
  exists m'. unfold ensureDir, try_catch, fs_mkdir_recursive, io. rewrite E.
  split; [reflexivity|]. split.
  - intros q Hq. destruct q as [|x q]; [reflexivity|]. simpl.
    apply (Hall (x :: q)); [exact Hq | simpl; lia].
  - destruct (mkdirp_frame _ _ _ _ E) as [Hmono Hfr]. split; [auto|].
    intros q Hq. apply Hfr. intros [Hp _]. auto.
Qed.

Lemma dirname_prefix (p : path) : dirname p `prefix_of` p.
Proof.
  unfold dirname. destruct p as [|x p _] using rev_ind; [apply prefix_nil|].
  rewrite removelast_last. now exists [x].
Qed.

Lemma dirname_snoc (p : path) x : dirname (p ++ [x]) = p.
Proof. apply removelast_last. Qed.

(** Writing a file: what it needs and what it does. *)
Lemma write_ok p data m :
  stat m (dirname p) = Some D -> stat m p <> Some D ->
  write p data m = Ok (<[p := F data]> m).
Proof.
  intros Hd Hp. unfold write. rewrite Hd.
  destruct (stat m p) as [[d|]|]; congruence.
Qed.

Lemma write_inv p data m m' :
  write p data m = Ok m' -> stat m p <> Some D /\ m' = <[p := F data]> m.
Proof.
  unfold write. destruct (stat m (dirname p)) as [[d|]|]; try discriminate.
  destruct (stat m p) as [[d|]|]; intros H; inversion H; split; congruence.
Qed.

Lemma write_touched p data m m' :
  write p data m = Ok m' -> touched_only (fun q => q = p) m m'.
Proof.
  intros H. apply write_inv in H as [Hp ->]. split.
  - intros q Hq. rewrite lookup_insert_ne; [exact Hq|].
    intros <-. apply Hp. destruct p; [reflexivity | exact Hq].
  - intros q Hq. apply lookup_insert_ne. congruence.
Qed.

Lemma bind_ret_eq {S A B} (m : M S A) (k : A -> M S B) s a s' :
  m s = Ret a s' -> (m ≫= k) s = k a s'.
Proof. intros H. unfold mbind, M_bind, bind. now rewrite H. Qed.

Lemma bind_throw_eq {S A B} (m : M S A) (k : A -> M S B) s e s' :
  m s = Throw e s' -> (m ≫= k) s = Throw e s'.
Proof. intros H. unfold mbind, M_bind, bind. now rewrite H. Qed.

Lemma bind_exit_eq {S A B} (m : M S A) (k : A -> M S B) s c s' :
  m s = Exit c s' -> (m ≫= k) s = Exit c s'.
Proof. intros H. unfold mbind, M_bind, bind. now rewrite H. Qed.

Lemma bind_ret_ex {S A} (m : M S A) (k : A -> M S unit) s a s' :
  m s = Ret a s' -> (exists s'', k a s' = Ret tt s'') ->
  exists s'', (m ≫= k) s = Ret tt s''.
Proof. intros H [s'' E]. exists s''. now rewrite (bind_ret_eq _ _ _ _ _ H). Qed.

Lemma try_ret_eq {S A} (m : M S A) h s a s' :
  m s = Ret a s' -> try_catch m h s = Ret a s'.
Proof. intros H. unfold try_catch. now rewrite H. Qed.

Lemma try_throw_eq {S A} (m : M S A) h s e s' :
  m s = Throw e s' -> try_catch m h s = h e s'.
Proof. intros H. unfold try_catch. now rewrite H. Qed.

Lemma try_exit_eq {S A} (m : M S A) h s c s' :
  m s = Exit c s' -> try_catch m h s = Exit c s'.
Proof. intros H. unfold try_catch. now rewrite H. Qed.

Lemma fs_copyFile_cases at_src dest w :
  (exists data m',
     at_src = Some (File data) /\ write dest data (fs w) = Ok m' /\
     fs_copyFile at_src dest w = Ret tt (mkWorld m' (console w))) \/
  (exists e, fs_copyFile at_src dest w = Throw e w).
Proof.
  unfold fs_copyFile. destruct at_src as [[data|es]|]; [|right; eexists; reflexivity..].
  unfold io. destruct (write dest data (fs w)) as [m'|e] eqn:E.
  - left. exists data, m'. auto.
  - right. exists e. reflexivity.
Qed.

(** Lines 19-28 never throw: [copyFile] returns true with the file in
    place, or false with one warning on the console. Either way only
    [dest] and the directories above it are touched. *)
Lemma copyFile_total src at_src dest w :
  exists b w',
    copyFile src at_src dest w = Ret b w' /\
    touched_only (fun q => q `prefix_of` dest) (fs w) (fs w') /\
    (b = true ->
     exists data, at_src = Some (File data) /\
                  fs w' !! dest = Some (F data) /\ console w' = console w) /\
    (b = false -> exists line, console w' = console w ++ [line]).
Proof.
  unfold copyFile.
  assert (Hup : forall q, q `prefix_of` dirname dest -> q `prefix_of` dest).
  { intros q Hq. etransitivity; [exact Hq | apply dirname_prefix]. }
  assert (Hfail : forall body (w1 : world) (e : error),
            body w = Throw e w1 ->
            touched_only (fun q => q `prefix_of` dest) (fs w) (fs w1) ->
            console w1 = console w ->
            exists b w',
              try_catch body
                (fun e =>
                   log ("Could not copy " +:+ show src +:+ ": " +:+ message e) ;;
                   mret false) w = Ret b w' /\
              touched_only (fun q => q `prefix_of` dest) (fs w) (fs w') /\
              (b = true ->
               exists data, at_src = Some (File data) /\
                            fs w' !! dest = Some (F data) /\ console w' = console w) /\
              (b = false -> exists line, console w' = console w ++ [line])).
  { intros body w1 e Hb Ht Hc. eexists false, _.
    split; [erewrite try_throw_eq by exact Hb; reflexivity|]. simpl.
    split; [exact Ht|]. split; [discriminate|]. intros _. rewrite Hc. eauto. }
  assert (Hcopy : forall w1,
            ensureDir (dirname dest) w = Ret tt w1 ->
            touched_only (fun q => q `prefix_of` dest) (fs w) (fs w1) ->
            console w1 = console w ->
            exists b w',
              try_catch
                (ensureDir (dirname dest) ;; fs_copyFile at_src dest ;; mret true)
                (fun e =>
                   log ("Could not copy " +:+ show src +:+ ": " +:+ message e) ;;
                   mret false) w = Ret b w' /\
              touched_only (fun q => q `prefix_of` dest) (fs w) (fs w') /\
              (b = true ->
               exists data, at_src = Some (File data) /\
                            fs w' !! dest = Some (F data) /\ console w' = console w) /\
              (b = false -> exists line, console w' = console w ++ [line])).
  { intros w1 He Ht Hc.
    destruct (fs_copyFile_cases at_src dest w1) as [(data & m' & -> & Hw & Hf) | [e Hf]].
    - exists true, (mkWorld m' (console w1)). split.
      + apply try_ret_eq. erewrite bind_ret_eq by exact He.
        erewrite bind_ret_eq by exact Hf. reflexivity.
      + simpl. split; [|split; [|discriminate]].
        * eapply touched_trans;
            [exact Ht | exact (write_touched _ _ _ _ Hw) | auto |].
          intros q ->. reflexivity.
        * intros _. exists data. split; [reflexivity|]. split; [|exact Hc].
          apply write_inv in Hw as [_ ->]. apply lookup_insert_eq.
    - apply (Hfail _ w1 e); [|exact Ht | exact Hc].
      erewrite bind_ret_eq by exact He. now apply bind_throw_eq. }
  destruct (ensureDir_cases (dirname dest) w) as [(m' & _ & He & Ht) | [He | He]].
  - apply (Hcopy _ He); [|reflexivity]. simpl.
    eapply touched_trans; [exact Ht | apply touched_refl | exact Hup | exact Hup].
  - apply (Hcopy _ He); [apply touched_refl | reflexivity].
  - apply (Hfail _ w ENOTDIR); [|apply touched_refl | reflexivity].
    now apply bind_throw_eq.
Qed.

(** With its directory in place and no directory of its name, the file is
    copied. *)
Lemma copyFile_ok src data dest w :
  dirs_upto (dirname dest) (fs w) -> stat (fs w) dest <> Some D ->
  copyFile src (Some (File data)) dest w =
  Ret true (mkWorld (<[dest := F data]> (fs w)) (console w)).
Proof.
  intros Hd Hp. unfold copyFile, try_catch, mbind, M_bind, bind.
  rewrite (ensureDir_noop _ _ Hd). unfold fs_copyFile, io.
  rewrite write_ok; [reflexivity | | exact Hp].
  apply Hd. reflexivity.
Qed.

(** *** [copyDirectory] never throws *)

Lemma node_ind' (P : node -> Prop) :
  (forall data, P (File data)) ->
  (forall es, Forall (fun e => P e.2) es -> P (Dir es)) ->
  forall n, P n.
Proof.
  intros HF HD. fix IH 1. intros [data|es]; [apply HF|].
  apply HD. induction es as [|[x c] es IHes]; constructor; [apply IH | exact IHes].
Qed.

Lemma copyDirectory_Dir es src dest :
  copyDirectory (Dir es) src dest =
  try_catch (ensureDir dest ;; for_of (copyEntry src dest) es)
    (fun e => log ("Could not copy directory " +:+ show src +:+ ": " +:+ message e)).
Proof. reflexivity. Qed.

Lemma copyDirectory_File data src dest :
  copyDirectory (File data) src dest =
  try_catch (ensureDir dest ;; throw ENOTDIR)
    (fun e => log ("Could not copy directory " +:+ show src +:+ ": " +:+ message e)).
Proof. reflexivity. Qed.

Lemma around_snoc dest x q : around (dest ++ [x]) q -> around dest q.
Proof.
  intros [H | H].
  - apply prefix_snoc_inv in H as [H | ->]; [now left | right; now exists [x]].
  - right. etransitivity; [|exact H]. now exists [x].
Qed.

Lemma prefix_around dest q : q `prefix_of` dest -> around dest q.
Proof. now left. Qed.

(** Two names in one directory are apart. *)
Lemma not_around_sibling dest x y r : x <> y -> ~ around (dest ++ [x]) (dest ++ y :: r).
Proof.
  intros Hxy [H | H].
  - apply prefix_app_inv in H. apply prefix_cons_inv_1 in H. congruence.
  - apply prefix_app_inv in H. apply prefix_cons_inv_1 in H. congruence.
Qed.

Section Traversal.
Context (src dest : path).

(** One turn of the loop returns, whatever the copy of its entry does. *)
Lemma copyEntry_total (e : string * node) :
  (forall src' dest' w, exists w',
     copyDirectory e.2 src' dest' w = Ret tt w' /\
     touched_only (around dest') (fs w) (fs w')) ->
  forall w, exists w',
    copyEntry src dest e w = Ret tt w' /\
    touched_only (around (dest ++ [e.1])) (fs w) (fs w').
Proof.
  destruct e as [name child]. simpl. intros IH w.
  destruct child as [data|sub]; [|apply IH].
  destruct (copyFile_total (src ++ [name]) (Some (File data)) (dest ++ [name]) w)
    as (b & w' & E & Ht & _).
  exists w'. split; [erewrite bind_ret_eq by exact E; reflexivity|].
  eapply touched_trans;
    [exact Ht | apply (touched_refl (around (dest ++ [name]))) | | auto].
  intros q Hq. now left.
Qed.

Lemma loop_total (es : list (string * node)) :
  Forall (fun e => forall src' dest' w, exists w',
            copyDirectory e.2 src' dest' w = Ret tt w' /\
            touched_only (around dest') (fs w) (fs w')) es ->
  forall w, exists w',
    for_of (copyEntry src dest) es w = Ret tt w' /\
    touched_only (around dest) (fs w) (fs w').
Proof.
  induction 1 as [|e es He _ IH]; intros w.
  - exists w. split; [reflexivity | apply touched_refl].
  - destruct (copyEntry_total e He w) as (w1 & E1 & T1).
    destruct (IH w1) as (w2 & E2 & T2).
    exists w2. split.
    + change (for_of (copyEntry src dest) (e :: es))
        with (copyEntry src dest e ;; for_of (copyEntry src dest) es).
      erewrite bind_ret_eq by exact E1. exact E2.
    + eapply touched_trans; [exact T1 | exact T2 | | auto].
      intros q. apply around_snoc.
Qed.

End Traversal.

(** Lines 30-48: [copyDirectory] returns from every state, whatever the
    source holds and whatever fails on the way, and it writes nowhere but
    at, above and below [dest]. *)
Lemma copyDirectory_total n : forall src dest w,
  exists w',
    copyDirectory n src dest w = Ret tt w' /\
    touched_only (around dest) (fs w) (fs w').
Proof.
  induction n as [data|es IH] using node_ind'; intros src dest w.
  - rewrite copyDirectory_File.
    destruct (ensureDir_cases dest w) as [(m' & _ & He & Ht) | [He | He]].
    + eexists. split.
      * erewrite try_throw_eq; [reflexivity|].
        erewrite bind_ret_eq by exact He. reflexivity.
      * simpl. eapply touched_trans;
          [exact Ht | apply (touched_refl (around dest)) | apply prefix_around | auto].
    + eexists. split.
      * erewrite try_throw_eq; [reflexivity|].
        erewrite bind_ret_eq by exact He. reflexivity.
      * apply touched_refl.
    + eexists. split.
      * erewrite try_throw_eq; [reflexivity|]. apply bind_throw_eq. exact He.
      * apply touched_refl.
  - rewrite copyDirectory_Dir.
    destruct (ensureDir_cases dest w) as [(m' & _ & He & Ht) | [He | He]].
    + destruct (loop_total src dest es IH (mkWorld m' (console w)))
        as (w2 & E2 & T2).
      exists w2. split.
      * apply try_ret_eq. erewrite bind_ret_eq by exact He. exact E2.
      * eapply touched_trans; [exact Ht | exact T2 | apply prefix_around | auto].
    + destruct (loop_total src dest es IH w) as (w2 & E2 & T2).
      exists w2. split; [|exact T2].
      apply try_ret_eq. erewrite bind_ret_eq by exact He. exact E2.
    + eexists. split.
      * erewrite try_throw_eq; [reflexivity|]. apply bind_throw_eq. exact He.
      * apply touched_refl.
Qed.

(** *** The traversal goes on after a failure *)

Lemma dirs_upto_touched K dest m m' :
  dirs_upto dest m -> touched_only K m m' -> dirs_upto dest m'.
Proof.
  intros Hd [Hmono _] q Hq. specialize (Hd q Hq).
  destruct q as [|x q]; [reflexivity|]. simpl in *. now apply Hmono.
Qed.

Lemma sibling_untouched dest x y m m' :
  x <> y -> touched_only (around (dest ++ [x])) m m' ->
  m' !! (dest ++ [y]) = m !! (dest ++ [y]).
Proof. intros Hxy [_ Hfr]. apply Hfr. now apply not_around_sibling. Qed.

(** The loop of lines 35-44 over a directory listing: every file entry
    whose name is not taken by a directory at the destination is copied,
    whatever happens to the entries before and after it. *)
Lemma loop_copies_file src dest es :
  NoDup (map fst es) ->
  forall w, dirs_upto dest (fs w) ->
  exists w',
    for_of (copyEntry src dest) es w = Ret tt w' /\
    dirs_upto dest (fs w') /\
    (forall name, name ∉ map fst es ->
       fs w' !! (dest ++ [name]) = fs w !! (dest ++ [name])) /\
    (forall name data, (name, File data) ∈ es ->
       fs w !! (dest ++ [name]) <> Some D ->
       fs w' !! (dest ++ [name]) = Some (F data)).
Proof.
  induction es as [|[x child] es IH]; intros Hnd w Hd.
  - exists w. split; [reflexivity|]. split; [exact Hd|]. split; [auto|].
    intros name data Hin. inversion Hin.
  - simpl in Hnd. apply NoDup_cons in Hnd as [Hx Hnd].
    destruct (copyEntry_total src dest (x, child)
                (copyDirectory_total child) w) as (w1 & E1 & T1).
    simpl in T1.
    pose proof (dirs_upto_touched _ _ _ _ Hd T1) as Hd1.
    destruct (IH Hnd w1 Hd1) as (w2 & E2 & Hd2 & Hout & Hin).
    exists w2. split; [|split; [exact Hd2|split]].
    + change (for_of (copyEntry src dest) ((x, child) :: es))
        with (copyEntry src dest (x, child) ;; for_of (copyEntry src dest) es).
      erewrite bind_ret_eq by exact E1. exact E2.
    + intros name Hname. simpl in Hname. apply not_elem_of_cons in Hname as [Hne Hname].
      rewrite (Hout name Hname). eapply sibling_untouched; [|exact T1]. congruence.
    + intros name data Hmem Hfree. apply elem_of_cons in Hmem as [Heq | Hmem].
      * inversion Heq; subst x child. rewrite (Hout name Hx).
        assert (Hok := copyFile_ok (src ++ [name]) data (dest ++ [name]) w).
        rewrite dirname_snoc in Hok. specialize (Hok Hd).
        rewrite stat_lookup in Hok by (intros E; destruct dest; discriminate).
        specialize (Hok Hfree).
        unfold copyEntry in E1. erewrite bind_ret_eq in E1 by exact Hok.
        inversion E1; subst w1. simpl. apply lookup_insert_eq.
      * assert (Hne : x <> name).
        { intros ->. apply Hx. apply list_elem_of_fmap. now exists (name, File data). }
        apply (Hin name data Hmem).
        rewrite (sibling_untouched dest x name _ _ Hne T1). exact Hfree.
Qed.

(** *** A failed copy leaves a warning *)

(** Lines 19-28: when [ensureDir] or [fs.copyFile] throws, the [catch]
    writes the warning with the message of the error and [copyFile]
    returns false; when both return, [copyFile] returns true. *)
Lemma copyFile_caught src at_src dest w e w1 :
  (ensureDir (dirname dest) ;; fs_copyFile at_src dest) w = Throw e w1 ->
  copyFile src at_src dest w =
  Ret false
    (mkWorld (fs w1)
       (console w1 ++ ["Could not copy " +:+ show src +:+ ": " +:+ message e])).
Proof.
  unfold copyFile, try_catch, mbind, M_bind, bind.
  destruct (ensureDir (dirname dest) w) as [[] w2|e2 w2|c w2].
  - destruct (fs_copyFile at_src dest w2) as [[] w3|e3 w3|c w3];
      intros H; inversion H; subst; reflexivity.
  - intros H; inversion H; subst; reflexivity.
  - discriminate.
Qed.

Lemma copyFile_returned src at_src dest w w1 :
  (ensureDir (dirname dest) ;; fs_copyFile at_src dest) w = Ret tt w1 ->
  copyFile src at_src dest w = Ret true w1.
Proof.
  unfold copyFile, try_catch, mbind, M_bind, bind.
  destruct (ensureDir (dirname dest) w) as [[] w2|e2 w2|c w2]; [|discriminate..].
  destruct (fs_copyFile at_src dest w2) as [[] w3|e3 w3|c w3];
    intros H; inversion H; subst; reflexivity.
Qed.

(** A file is not copied onto a directory: [fs.copyFile] throws EISDIR. *)
Lemma copyFile_onto_directory src data dest w :
  dirs_upto (dirname dest) (fs w) -> stat (fs w) dest = Some D ->
  copyFile src (Some (File data)) dest w =
  Ret false
    (mkWorld (fs w)
       (console w ++
        ["Could not copy " +:+ show src +:+ ": illegal operation on a directory"])).
Proof.
  intros Hd Hp.
  apply (copyFile_caught src (Some (File data)) dest w EISDIR w).
  erewrite bind_ret_eq by exact (ensureDir_noop _ _ Hd).
  unfold fs_copyFile, io, write. rewrite (Hd (dirname dest)) by reflexivity.
  now rewrite Hp.
Qed.

(** What the console holds is never taken back. *)
Lemma copyFile_console src at_src dest w :
  exists b w', copyFile src at_src dest w = Ret b w' /\
               exists more, console w' = console w ++ more.
Proof.
  destruct (copyFile_total src at_src dest w) as (b & w' & E & _ & Ht & Hf).
  exists b, w'. split; [exact E|]. destruct b.
  - destruct (Ht eq_refl) as (_ & _ & _ & Hc). exists []. now rewrite app_nil_r.
  - destruct (Hf eq_refl) as [line Hl]. eauto.
Qed.

Lemma loop_console src dest (es : list (string * node)) :
  Forall (fun e => forall src' dest' w, exists w',
            copyDirectory e.2 src' dest' w = Ret tt w' /\
            exists more, console w' = console w ++ more) es ->
  forall w, exists w',
    for_of (copyEntry src dest) es w = Ret tt w' /\
    exists more, console w' = console w ++ more.
Proof.
  induction 1 as [|[name child] es He _ IH]; intros w.
  - exists w. split; [reflexivity|]. exists []. now rewrite app_nil_r.
  - assert (H1 : exists w1, copyEntry src dest (name, child) w = Ret tt w1 /\
                            exists more, console w1 = console w ++ more).
    { simpl in He |- *. destruct child as [data|sub]; [|apply He].
      destruct (copyFile_console (src ++ [name]) (Some (File data)) (dest ++ [name]) w)
        as (b & w1 & E & Hk).
      exists w1. split; [erewrite bind_ret_eq by exact E; reflexivity | exact Hk]. }
    destruct H1 as (w1 & E1 & m1 & K1). destruct (IH w1) as (w2 & E2 & m2 & K2).
    exists w2. split.
    + change (for_of (copyEntry src dest) ((name, child) :: es))
        with (copyEntry src dest (name, child) ;; for_of (copyEntry src dest) es).
      erewrite bind_ret_eq by exact E1. exact E2.
    + exists (m1 ++ m2). now rewrite K2, K1, app_assoc.
Qed.

Lemma copyDirectory_console n : forall src dest w,
  exists w',
    copyDirectory n src dest w = Ret tt w' /\
    exists more, console w' = console w ++ more.
Proof.
  induction n as [data|es IH] using node_ind'; intros src dest w.
  - rewrite copyDirectory_File.
    destruct (ensureDir_cases dest w) as [(m' & Em & He & _) | [He | He]].
    + eexists. split.
      * erewrite try_throw_eq; [reflexivity|].
        erewrite bind_ret_eq by exact He. reflexivity.
      * simpl. eauto.
    + eexists. split.
      * erewrite try_throw_eq; [reflexivity|].
        erewrite bind_ret_eq by exact He. reflexivity.
      * simpl. eauto.
    + eexists. split.
      * erewrite try_throw_eq; [reflexivity|]. apply bind_throw_eq. exact He.
      * simpl. eauto.
  - rewrite copyDirectory_Dir.
    destruct (ensureDir_cases dest w) as [(m' & Em & He & _) | [He | He]].
    + destruct (loop_console src dest es IH (mkWorld m' (console w)))
        as (w2 & E2 & K2).
      exists w2. split; [|exact K2].
      apply try_ret_eq. erewrite bind_ret_eq by exact He. exact E2.
    + destruct (loop_console src dest es IH w) as (w2 & E2 & K2).
      exists w2. split; [|exact K2].
      apply try_ret_eq. erewrite bind_ret_eq by exact He. exact E2.
    + eexists. split.
      * erewrite try_throw_eq; [reflexivity|]. apply bind_throw_eq. exact He.
      * simpl. eauto.
Qed.

(** The loop of lines 35-44 over a directory listing: a file entry whose
    name is taken by a directory at the destination leaves its warning on
    the console, and the directory stays. *)
Lemma loop_logs_failure src dest es :
  forall w name data,
  dirs_upto dest (fs w) ->
  (name, File data) ∈ es ->
  fs w !! (dest ++ [name]) = Some D ->
  exists w',
    for_of (copyEntry src dest) es w = Ret tt w' /\
    fs w' !! (dest ++ [name]) = Some D /\
    ("Could not copy " +:+ show (src ++ [name]) +:+
     ": illegal operation on a directory") ∈ console w'.
Proof.
  induction es as [|[x child] es IH]; intros w name data Hd Hin Htaken.
  - inversion Hin.
  - destruct (copyEntry_total src dest (x, child)
                (copyDirectory_total child) w) as (w1 & E1 & T1).
    simpl in T1.
    pose proof (dirs_upto_touched _ _ _ _ Hd T1) as Hd1.
    pose proof (proj1 T1 _ Htaken) as Htaken1.
    change (for_of (copyEntry src dest) ((x, child) :: es))
      with (copyEntry src dest (x, child) ;; for_of (copyEntry src dest) es).
    erewrite bind_ret_eq by exact E1.
    apply elem_of_cons in Hin as [Heq | Hin].
    + inversion Heq; subst x child.
      assert (Hfail := copyFile_onto_directory (src ++ [name]) data (dest ++ [name]) w).
      rewrite dirname_snoc in Hfail. specialize (Hfail Hd).
      rewrite stat_lookup in Hfail by (intros E; destruct dest; discriminate).
      specialize (Hfail Htaken).
      unfold copyEntry in E1. erewrite bind_ret_eq in E1 by exact Hfail.
      assert (Hw1 : console w1 = console w ++
                ["Could not copy " +:+ show (src ++ [name]) +:+
                 ": illegal operation on a directory"]).
      { inversion E1. reflexivity. }
      assert (Hall : Forall (fun e => forall src' dest' w, exists w',
                        copyDirectory e.2 src' dest' w = Ret tt w' /\
                        touched_only (around dest') (fs w) (fs w')) es).
      { apply Forall_forall. intros e _. apply copyDirectory_total. }
      assert (Hcon : Forall (fun e => forall src' dest' w, exists w',
                        copyDirectory e.2 src' dest' w = Ret tt w' /\
                        exists more, console w' = console w ++ more) es).
      { apply Forall_forall. intros e _. apply copyDirectory_console. }
      destruct (loop_total src dest es Hall w1) as (w2 & E2 & T2).
      destruct (loop_console src dest es Hcon w1) as (w2' & E2' & more & K2).
      rewrite E2 in E2'. inversion E2'; subst w2'.
      exists w2. split; [exact E2|]. split; [exact (proj1 T2 _ Htaken1)|].
      rewrite K2, Hw1. set_solver.
    + exact (IH w1 name data Hd1 Hin Htaken1).
Qed.

(** C7. A failed copy of one file is logged and skipped. [copyFile]
    never throws. When [ensureDir] or [fs.copyFile] throws inside it, it
    returns false and the console holds one more line, the warning with
    the path of the source and the message of the error; when both
    return, it returns true and writes no line. A file that is to be
    copied onto a directory is such a failure. [copyDirectory] returns
    from every state, whatever fails inside it. In its traversal a file
    entry whose name is taken by a directory at the destination leaves
    its warning on the console, and the traversal goes on: when the
    destination directory is there, every file of the source directory
    whose name is not taken by a directory at the destination is in the
    destination afterwards, with its bytes, whatever happened to the
    other entries. *)
Theorem single_copy_failure_is_skipped :
  (forall src at_src dest w, exists b w',
     copyFile src at_src dest w = Ret b w' /\
     (b = false -> exists line, console w' = console w ++ [line])) /\
  (forall src at_src dest w e w1,
     (ensureDir (dirname dest) ;; fs_copyFile at_src dest) w = Throw e w1 ->
     copyFile src at_src dest w =
     Ret false
       (mkWorld (fs w1)
          (console w1 ++
           ["Could not copy " +:+ show src +:+ ": " +:+ message e]))) /\
  (forall src at_src dest w w1,
     (ensureDir (dirname dest) ;; fs_copyFile at_src dest) w = Ret tt w1 ->
     copyFile src at_src dest w = Ret true w1) /\
  (forall src data dest w,
     dirs_upto (dirname dest) (fs w) -> stat (fs w) dest = Some D ->
     copyFile src (Some (File data)) dest w =
     Ret false
       (mkWorld (fs w)
          (console w ++
           ["Could not copy " +:+ show src +:+
            ": illegal operation on a directory"]))) /\
  (forall n src dest w, exists w', copyDirectory n src dest w = Ret tt w') /\
  (forall es src dest w name data,
     dirs_upto dest (fs w) ->
     (name, File data) ∈ es ->
     fs w !! (dest ++ [name]) = Some D ->
     exists w',
       copyDirectory (Dir es) src dest w = Ret tt w' /\
       fs w' !! (dest ++ [name]) = Some D /\
       ("Could not copy " +:+ show (src ++ [name]) +:+
        ": illegal operation on a directory") ∈ console w') /\
  (forall es src dest w name data,
     NoDup (map fst es) ->
     dirs_upto dest (fs w) ->
     (name, File data) ∈ es ->
     fs w !! (dest ++ [name]) <> Some D ->
     exists w',
       copyDirectory (Dir es) src dest w = Ret tt w' /\
       fs w' !! (dest ++ [name]) = Some (F data)).
Proof.
  split; [|split; [|split; [|split; [|split; [|split]]]]].
  - intros src at_src dest w.
    destruct (copyFile_total src at_src dest w) as (b & w' & E & _ & _ & Hf).
    exists b, w'. auto.
  - exact copyFile_caught.
  - exact copyFile_returned.
  - exact copyFile_onto_directory.
  - intros n src dest w.
    destruct (copyDirectory_total n src dest w) as (w' & E & _). eauto.
  - intros es src dest w name data Hd Hin Htaken.
    destruct (loop_logs_failure src dest es w name data Hd Hin Htaken)
      as (w' & E & Hdir & Hline).
    exists w'. split; [|split; [exact Hdir | exact Hline]].
    rewrite copyDirectory_Dir. apply try_ret_eq.
    erewrite bind_ret_eq by exact (ensureDir_noop dest w Hd). exact E.
  - intros es src dest w name data Hnd Hd Hin Hfree.
    destruct (loop_copies_file src dest es Hnd w Hd) as (w' & E & _ & _ & Hcopy).
    exists w'. split; [|exact (Hcopy name data Hin Hfree)].
    rewrite copyDirectory_Dir. apply try_ret_eq.
    erewrite bind_ret_eq by exact (ensureDir_noop dest w Hd). exact E.
Qed.

(** *** Copying into an empty destination *)

Lemma assoc_app y l1 l2 :
  assoc y (l1 ++ l2) =
  match assoc y l1 with
  | Some v => Some v
  | None => assoc y l2
  end.
Proof.
  induction l1 as [|[x c] l1 IH]; simpl; [reflexivity|].
  destruct (decide (y = x)); [reflexivity | exact IH].
Qed.

Lemma assoc_None x es : x ∉ map fst es -> assoc x es = None.
Proof.
  induction es as [|[y c] es IH]; simpl; [reflexivity|].
  intros H. apply not_elem_of_cons in H as [Hne H].
  destruct (decide (x = y)); [contradiction | auto].
Qed.

Lemma assoc_Some_in x c es : assoc x es = Some c -> (x, c) ∈ es.
Proof.
  induction es as [|[y d] es IH]; simpl; [discriminate|].
  destruct (decide (x = y)) as [->|].
  - intros [= ->]. apply elem_of_cons. now left.
  - intros H. apply elem_of_cons. right. auto.
Qed.

Lemma assoc_in x c es : NoDup (map fst es) -> (x, c) ∈ es -> assoc x es = Some c.
Proof.
  induction es as [|[y d] es IH]; simpl; intros Hnd Hin; [inversion Hin|].
  apply NoDup_cons in Hnd as [Hy Hnd].
  apply elem_of_cons in Hin as [Heq | Hin].
  - inversion Heq; subst. destruct (decide (y = y)); [reflexivity | contradiction].
  - destruct (decide (x = y)) as [->|]; [|auto].
    exfalso. apply Hy. apply list_elem_of_fmap. now exists (y, c).
Qed.

Lemma well_formed_Dir es :
  well_formed (Dir es) <->
  NoDup (map fst es) /\ Forall (fun e => well_formed e.2) es.
Proof.
  simpl. apply and_iff_compat_l.
  induction es as [|e es IH]; simpl.
  - split; [constructor | trivial].
  - rewrite Forall_cons, IH. reflexivity.
Qed.

Lemma lookup_node_File data r : r <> [] -> lookup_node (File data) r = None.
Proof. now destruct r. Qed.

(** The image of a listing with one more entry. *)
Lemma mirrors_step dest done x child m m1 :
  x ∉ map fst done ->
  mirrors (Dir done) dest m ->
  m1 !! (dest ++ [x]) = Some (entry_of child) ->
  (forall r, r <> [] -> m1 !! (dest ++ x :: r) = entry_of <$> lookup_node child r) ->
  (forall y r, y <> x -> m1 !! (dest ++ y :: r) = m !! (dest ++ y :: r)) ->
  mirrors (Dir (done ++ [(x, child)])) dest m1.
Proof.
  intros Hx Hm H1 H2 H3 [|y r] Hr; [contradiction|].
  simpl. rewrite assoc_app.
  destruct (decide (y = x)) as [-> | Hne].
  - rewrite (assoc_None _ _ Hx). simpl.
    destruct (decide (x = x)); [|contradiction].
    destruct r as [|z r]; [exact H1 | apply H2; discriminate].
  - rewrite (H3 y r Hne), (Hm (y :: r)) by discriminate. simpl.
    destruct (assoc y done); [reflexivity|]. simpl.
    destruct (decide (y = x)); [contradiction | reflexivity].
Qed.

Lemma copyDirectory_frame n src dest m c m' c' :
  copyDirectory n src dest (mkWorld m c) = Ret tt (mkWorld m' c') ->
  touched_only (around dest) m m'.
Proof.
  intros E. destruct (copyDirectory_total n src dest (mkWorld m c)) as (w' & E' & T).
  rewrite E in E'. inversion E'; subst w'. exact T.
Qed.

(** The loop on a fresh destination: after the entries [done], the
    entries [es] are added one by one, without a warning. *)
Lemma loop_fresh src dest c es :
  Forall (fun e =>
            is_dir e.2 -> forall src' dest' m,
            empty_destination dest' m ->
            exists m',
              copyDirectory e.2 src' dest' (mkWorld m c) = Ret tt (mkWorld m' c) /\
              dirs_upto dest' m' /\ mirrors e.2 dest' m') es ->
  forall done m,
    NoDup (map fst (done ++ es)) ->
    dirs_upto dest m ->
    mirrors (Dir done) dest m ->
    exists m',
      for_of (copyEntry src dest) es (mkWorld m c) = Ret tt (mkWorld m' c) /\
      dirs_upto dest m' /\
      mirrors (Dir (done ++ es)) dest m'.
Proof.
  induction 1 as [|[x child] es He _ IH]; intros done m Hnd Hd Hm.
  - exists m. rewrite app_nil_r. auto.
  - assert (Hx : x ∉ map fst done).
    { rewrite map_app in Hnd. apply NoDup_app in Hnd as (_ & Hdisj & _).
      intros Hin. apply (Hdisj x Hin). simpl. apply elem_of_cons. now left. }
    assert (Hnone : forall r, m !! (dest ++ x :: r) = None).
    { intros r. rewrite (Hm (x :: r)) by discriminate. simpl.
      now rewrite (assoc_None _ _ Hx). }
    assert (Hstep : exists m1,
              copyEntry src dest (x, child) (mkWorld m c) = Ret tt (mkWorld m1 c) /\
              dirs_upto dest m1 /\
              mirrors (Dir (done ++ [(x, child)])) dest m1).
    { destruct child as [data|sub].
      - exists (<[dest ++ [x] := F data]> m).
        assert (Hok := copyFile_ok (src ++ [x]) data (dest ++ [x]) (mkWorld m c)).
        rewrite dirname_snoc in Hok. specialize (Hok Hd). simpl in Hok.
        rewrite stat_lookup in Hok by (intros E; destruct dest; discriminate).
        rewrite Hnone in Hok. specialize (Hok ltac:(discriminate)).
        split; [unfold copyEntry; erewrite bind_ret_eq by exact Hok; reflexivity|].
        split.
        + intros q Hq. specialize (Hd q Hq). destruct q as [|y q]; [reflexivity|].
          simpl in *. rewrite lookup_insert_ne; [exact Hd|].
          intros E. rewrite <- E in Hq. now apply prefix_snoc_not in Hq.
        + apply (mirrors_step dest done x (File data) m); auto.
          * apply lookup_insert_eq.
          * intros r Hr. rewrite lookup_insert_ne, Hnone, lookup_node_File by
              (assumption || (intros E; apply app_inv_head in E;
                              inversion E; subst; contradiction)).
            reflexivity.
          * intros y r Hne. apply lookup_insert_ne.
            intros E. apply app_inv_head in E. inversion E; subst. contradiction.
      - destruct (He ltac:(eexists; reflexivity) (src ++ [x]) (dest ++ [x]) m)
          as (m1 & E1 & Hd1 & Hm1).
        { split.
          - intros q Hq. apply prefix_snoc_inv in Hq as [Hq | ->].
            + right. now apply Hd.
            + left. rewrite stat_lookup by (intros E; destruct dest; discriminate).
              apply Hnone.
          - intros r Hr. rewrite <- app_assoc. apply Hnone. }
        exists m1. split; [exact E1|].
        pose proof (copyDirectory_frame _ _ _ _ _ _ _ E1) as [Hmono Hfr].
        split.
        + intros q Hq. apply Hd1. etransitivity; [exact Hq|]. now exists [x].
        + apply (mirrors_step dest done x (Dir sub) m); auto.
          * specialize (Hd1 (dest ++ [x]) ltac:(reflexivity)).
            rewrite stat_lookup in Hd1 by (intros E; destruct dest; discriminate).
            exact Hd1.
          * intros r Hr. specialize (Hm1 r Hr). rewrite <- app_assoc in Hm1.
            exact Hm1.
          * intros y r Hne. apply Hfr. apply not_around_sibling. congruence. }
    destruct Hstep as (m1 & E1 & Hd1 & Hm1).
    destruct (IH (done ++ [(x, child)]) m1) as (m2 & E2 & Hd2 & Hm2); auto.
    { now rewrite <- app_assoc. }
    exists m2. split; [|split; [exact Hd2|]].
    + change (for_of (copyEntry src dest) ((x, child) :: es))
        with (copyEntry src dest (x, child) ;; for_of (copyEntry src dest) es).
      erewrite bind_ret_eq by exact E1. exact E2.
    + now rewrite <- app_assoc in Hm2.
Qed.

(** A well-formed source directory copied into an empty destination: no
    warning, and the destination holds the source tree. *)
Lemma copy_fresh n :
  well_formed n -> is_dir n -> forall c src dest m,
  empty_destination dest m ->
  exists m',
    copyDirectory n src dest (mkWorld m c) = Ret tt (mkWorld m' c) /\
    dirs_upto dest m' /\ mirrors n dest m'.
Proof.
  induction n as [data|es IH] using node_ind'; intros Hwf [es' Hes] c src dest m He;
    [discriminate|].
  apply well_formed_Dir in Hwf as [Hnd Hwf].
  destruct He as [Habove Hbelow].
  destruct (ensureDir_creates dest (mkWorld m c) Habove) as (m0 & E0 & Hd0 & [_ Hfr0]).
  simpl in E0, Hfr0.
  destruct (loop_fresh src dest c es) with (done := @nil (string * node)) (m := m0)
    as (m1 & E1 & Hd1 & Hm1); auto.
  - clear -IH Hwf. induction es as [|e es IHes]; constructor.
    + intros Hdir src' dest' m He.
      apply Forall_cons in IH as [IHe _]. apply Forall_cons in Hwf as [Hwe _].
      now apply IHe.
    + apply Forall_cons in IH as [_ IH]. apply Forall_cons in Hwf as [_ Hwf]. auto.
  - intros r Hr. rewrite Hfr0.
    + rewrite Hbelow by exact Hr. destruct r; [contradiction | reflexivity].
    + intros Hp. apply prefix_length in Hp. rewrite length_app in Hp.
      destruct r; [contradiction | simpl in Hp; lia].
  - exists m1. split; [|auto].
    rewrite copyDirectory_Dir. apply try_ret_eq.
    erewrite bind_ret_eq by exact E0. exact E1.
Qed.

(** *** Copying a second time *)

Lemma mirrors_child all x child dest m :
  NoDup (map fst all) -> (x, child) ∈ all -> mirrors (Dir all) dest m ->
  m !! (dest ++ [x]) = Some (entry_of child) /\ mirrors child (dest ++ [x]) m.
Proof.
  intros Hnd Hin Hm. split.
  - rewrite (Hm [x]) by discriminate. simpl. now rewrite (assoc_in _ _ _ Hnd Hin).
  - intros r Hr. rewrite <- app_assoc. simpl. rewrite (Hm (x :: r)) by discriminate.
    simpl. now rewrite (assoc_in _ _ _ Hnd Hin).
Qed.

Lemma loop_again src dest all w es :
  NoDup (map fst all) ->
  (forall e, e ∈ es -> e ∈ all) ->
  Forall (fun e =>
            is_dir e.2 -> forall src' dest',
            dirs_upto dest' (fs w) -> mirrors e.2 dest' (fs w) ->
            copyDirectory e.2 src' dest' w = Ret tt w) es ->
  dirs_upto dest (fs w) ->
  mirrors (Dir all) dest (fs w) ->
  for_of (copyEntry src dest) es w = Ret tt w.
Proof.
  intros Hnd Hsub Hes Hd Hm.
  induction Hes as [|[x child] es He _ IH]; [reflexivity|].
  change (for_of (copyEntry src dest) ((x, child) :: es))
    with (copyEntry src dest (x, child) ;; for_of (copyEntry src dest) es).
  assert (Hin : (x, child) ∈ all) by (apply Hsub, elem_of_cons; now left).
  destruct (mirrors_child all x child dest (fs w) Hnd Hin Hm) as [Hx Hc].
  assert (Hne : dest ++ [x] <> []) by (intros E; destruct dest; discriminate).
  assert (E1 : copyEntry src dest (x, child) w = Ret tt w).
  { destruct child as [data|sub].
    - assert (Hok := copyFile_ok (src ++ [x]) data (dest ++ [x]) w).
      rewrite dirname_snoc, stat_lookup in Hok by exact Hne.
      rewrite Hx in Hok. specialize (Hok Hd ltac:(discriminate)).
      unfold copyEntry. erewrite bind_ret_eq by exact Hok.
      rewrite insert_id by exact Hx. now rewrite world_eta.
    - apply He; [eexists; reflexivity | | exact Hc].
      intros q Hq. apply prefix_snoc_inv in Hq as [Hq | ->]; [now apply Hd|].
      now rewrite stat_lookup by exact Hne. }
  erewrite bind_ret_eq by exact E1. apply IH.
  intros e Hin'. apply Hsub, elem_of_cons. now right.
Qed.

(** Copying a tree onto its own copy changes nothing. *)
Lemma copy_again n :
  well_formed n -> is_dir n -> forall src dest w,
  dirs_upto dest (fs w) -> mirrors n dest (fs w) ->
  copyDirectory n src dest w = Ret tt w.
Proof.
  induction n as [data|es IH] using node_ind'; intros Hwf [es' Hes] src dest w Hd Hm;
    [discriminate|].
  apply well_formed_Dir in Hwf as [Hnd Hwf].
  rewrite copyDirectory_Dir. apply try_ret_eq.
  erewrite bind_ret_eq by exact (ensureDir_noop dest w Hd).
  apply (loop_again src dest es); auto.
  clear -IH Hwf. induction es as [|e es IHes]; constructor.
  - intros Hdir src' dest' Hd Hm.
    apply Forall_cons in IH as [IHe _]. apply Forall_cons in Hwf as [Hwe _].
    now apply IHe.
  - apply Forall_cons in IH as [_ IH]. apply Forall_cons in Hwf as [_ Hwf]. auto.
Qed.

(** *** The files of a tree *)

Lemma files_Dir es r data :
  (r, data) ∈ files (Dir es) <->
  exists x c r', (x, c) ∈ es /\ r = x :: r' /\ (r', data) ∈ files c.
Proof.
  simpl. rewrite list_elem_of_In, in_flat_map. split.
  - intros ([x c] & Hin & Hf). apply list_elem_of_In in Hin.
    apply list_elem_of_In, list_elem_of_fmap in Hf as ([r' d] & Heq & Hf).
    simpl in Heq. inversion Heq; subst. eauto 7.
  - intros (x & c & r' & Hin & -> & Hf). exists (x, c).
    split; [now apply list_elem_of_In|].
    apply list_elem_of_In, list_elem_of_fmap. now exists (r', data).
Qed.

Lemma files_lookup n :
  well_formed n ->
  forall r data, (r, data) ∈ files n <-> lookup_node n r = Some (File data).
Proof.
  induction n as [d|es IH] using node_ind'; intros Hwf r data.
  - simpl. rewrite list_elem_of_singleton. split.
    + intros [= -> ->]. reflexivity.
    + destruct r; [intros [= ->]; reflexivity | discriminate].
  - apply well_formed_Dir in Hwf as [Hnd Hwf]. rewrite files_Dir. split.
    + intros (x & c & r' & Hin & -> & Hf). simpl.
      rewrite (assoc_in _ _ _ Hnd Hin).
      rewrite Forall_forall in IH, Hwf.
      apply (IH (x, c) Hin (Hwf (x, c) Hin)). exact Hf.
    + destruct r as [|x r']; [discriminate|]. simpl.
      destruct (assoc x es) as [c|] eqn:E; [|discriminate].
      apply assoc_Some_in in E. intros Hl. exists x, c, r'.
      split; [exact E|]. split; [reflexivity|].
      rewrite Forall_forall in IH, Hwf.
      now apply (IH (x, c) E (Hwf (x, c) E)).
Qed.

Lemma files_NoDup n : well_formed n -> NoDup (files n).
Proof.
  induction n as [d|es IH] using node_ind'; intros Hwf.
  - simpl. apply NoDup_singleton.
  - apply well_formed_Dir in Hwf as [Hnd Hwf].
    induction es as [|[x c] es IHes]; [constructor|].
    simpl in Hnd. apply NoDup_cons in Hnd as [Hx Hnd].
    apply Forall_cons in IH as [IHc IH]. apply Forall_cons in Hwf as [Hwc Hwf].
    change (files (Dir ((x, c) :: es)))
      with (map (fun f => (x :: f.1, f.2)) (files c) ++ files (Dir es)).
    apply NoDup_app. split; [|split; [|auto]].
    + apply NoDup_fmap_2; [|auto].
      intros [r1 d1] [r2 d2]. simpl. congruence.
    + intros [r d] H1 H2.
      apply list_elem_of_fmap in H1 as ([r1 d1] & Heq & _). simpl in Heq.
      inversion Heq; subst.
      apply files_Dir in H2 as (y & c' & r' & Hin & Hr & _).
      inversion Hr; subst. apply Hx. apply list_elem_of_fmap. now exists (y, c').
Qed.

Lemma files_below_spec dest m r data :
  (r, data) ∈ files_below dest m <-> r <> [] /\ m !! (dest ++ r) = Some (F data).
Proof.
  unfold files_below. rewrite list_elem_of_omap. split.
  - intros ([k v] & Hin & Hf). apply elem_of_map_to_list in Hin. simpl in Hf.
    destruct v as [d|]; [|discriminate].
    destruct (decide (dest `prefix_of` k /\ k <> dest)) as [[[k' ->] Hne]|];
      [|discriminate].
    rewrite drop_app_length in Hf. inversion Hf; subst. split; [|exact Hin].
    intros ->. apply Hne. apply app_nil_r.
  - intros [Hr Hl]. exists (dest ++ r, F data). split.
    + now apply elem_of_map_to_list.
    + simpl. destruct (decide (dest `prefix_of` dest ++ r /\ dest ++ r <> dest))
        as [_ | Hn].
      * now rewrite drop_app_length.
      * exfalso. apply Hn. split; [now exists r|].
        intros E. apply Hr. rewrite <- (app_nil_r dest) in E at 2.
        now apply app_inv_head in E.
Qed.

Lemma NoDup_omap_inj {A B} (f : A -> option B) (l : list A) :
  (forall x y z, f x = Some z -> f y = Some z -> x = y) ->
  NoDup l -> NoDup (omap f l).
Proof.
  intros Hinj. induction l as [|x l IH]; intros Hnd; [constructor|].
  apply NoDup_cons in Hnd as [Hx Hnd].
  change (omap f (x :: l))
    with (match f x with Some z => z :: omap f l | None => omap f l end).
  destruct (f x) as [z|] eqn:E; [|auto].
  apply NoDup_cons. split; [|auto].
  intros Hin. apply list_elem_of_omap in Hin as (y & Hin & E').
  apply Hx. now rewrite (Hinj x y z E E').
Qed.

Lemma files_below_NoDup dest m : NoDup (files_below dest m).
Proof.
  unfold files_below. apply NoDup_omap_inj; [|apply NoDup_map_to_list].
  intros [k1 [d1|]] [k2 [d2|]] z; simpl; try discriminate.
  destruct (decide (dest `prefix_of` k1 /\ k1 <> dest)) as [[[r1 ->] _]|];
    [|discriminate].
  destruct (decide (dest `prefix_of` k2 /\ k2 <> dest)) as [[[r2 ->] _]|];
    [|discriminate].
  rewrite !drop_app_length. congruence.
Qed.

(** C8. A source directory (each listing naming its entries once) copied
    into an empty destination: [copyDirectory] returns without a warning,
    the files below the destination are exactly the files of the source,
    at the same relative paths and with the same bytes, so there are as
    many of them; copying the same source again returns the same world;
    and [ensureDir] on a directory that is there already, as the
    destination now is, returns without an error and without a change. *)
Theorem copy_mirrors_source_and_is_idempotent
    (n : node) (src dest : path) (w : world) :
  well_formed n ->
  is_dir n ->
  empty_destination dest (fs w) ->
  exists w1,
    copyDirectory n src dest w = Ret tt w1 /\
    console w1 = console w /\
    (forall r data,
       (r, data) ∈ files n <-> r <> [] /\ fs w1 !! (dest ++ r) = Some (F data)) /\
    files_below dest (fs w1) ≡ₚ files n /\
    length (files_below dest (fs w1)) = length (files n) /\
    copyDirectory n src dest w1 = Ret tt w1 /\
    ensureDir dest w1 = Ret tt w1 /\
    (forall dir w', dirs_upto dir (fs w') -> ensureDir dir w' = Ret tt w').
Proof.
  intros Hwf Hdir He.
  destruct (copy_fresh n Hwf Hdir (console w) src dest (fs w) He)
    as (m' & E & Hd & Hm).
  rewrite world_eta in E.
  assert (Hiff : forall r data,
            (r, data) ∈ files n <-> r <> [] /\ m' !! (dest ++ r) = Some (F data)).
  { intros r data. rewrite (files_lookup n Hwf). split.
    - intros Hl. assert (Hr : r <> []).
      { intros ->. destruct Hdir as [es ->]. discriminate. }
      split; [exact Hr|]. now rewrite (Hm r Hr), Hl.
    - intros [Hr Hl]. rewrite (Hm r Hr) in Hl.
      destruct (lookup_node n r) as [[d|es]|]; simpl in Hl; congruence. }
  assert (Hperm : files_below dest m' ≡ₚ files n).
  { apply NoDup_Permutation;
      [apply files_below_NoDup | now apply files_NoDup |].
    intros [r data]. now rewrite files_below_spec, Hiff. }
  exists (mkWorld m' (console w)). simpl.
  split; [exact E|]. split; [reflexivity|]. split; [exact Hiff|].
  split; [exact Hperm|]. split; [now rewrite Hperm|].
  split; [now apply copy_again|]. split; [now apply ensureDir_noop|].
  intros dir w'. apply ensureDir_noop.
Qed.

Lemma copy_mirrors_witness :
  exists w1,
    copyDirectory small_dist ["dist"] ["public"; "monaco"] (mkWorld ∅ []) = Ret tt w1 /\
    console w1 = [] /\
    (forall r data,
       (r, data) ∈ files small_dist <->
       r <> [] /\ fs w1 !! (["public"; "monaco"] ++ r) = Some (F data)) /\
    files_below ["public"; "monaco"] (fs w1) ≡ₚ files small_dist /\
    length (files_below ["public"; "monaco"] (fs w1)) = length (files small_dist) /\
    copyDirectory small_dist ["dist"] ["public"; "monaco"] w1 = Ret tt w1 /\
    ensureDir ["public"; "monaco"] w1 = Ret tt w1 /\
    (forall dir w', dirs_upto dir (fs w') -> ensureDir dir w' = Ret tt w').
Proof.
  apply (copy_mirrors_source_and_is_idempotent small_dist ["dist"]
           ["public"; "monaco"] (mkWorld ∅ [])).
  - simpl. repeat split; distinct_names.
  - eexists. reflexivity.
  - split.
    + intros q _. destruct q; [now right | left; apply lookup_empty].
    + intros r _. apply lookup_empty.
Defined.

(** The copy computed: two files arrive, and no warning is logged. *)
Example small_dist_copied :
  exists w1,
    copyDirectory small_dist ["dist"] ["public"; "monaco"] (mkWorld ∅ []) = Ret tt w1 /\
    fs w1 !! ["public"; "monaco"; "index.mjs"] = Some (F "export {}") /\
    fs w1 !! ["public"; "monaco"; "lsp"; "worker.mjs"] = Some (F "onmessage = null") /\
    fs w1 !! ["public"; "monaco"; "lsp"] = Some D /\
    console w1 = [].
Proof. eexists. split; [vm_compute; reflexivity|]. vm_compute. auto. Qed.

Lemma skipped_failure_witness :
  (exists w',
     copyDirectory (Dir [("a", File "x"); ("b", File "y")]) ["in"] ["out"] taken
       = Ret tt w' /\
     fs w' !! (["out"] ++ ["a"]) = Some D /\
     "Could not copy in/a: illegal operation on a directory" ∈ console w') /\
  (exists w',
     copyDirectory (Dir [("a", File "x"); ("b", File "y")]) ["in"] ["out"] taken
       = Ret tt w' /\
     fs w' !! (["out"] ++ ["b"]) = Some (F "y")).
Proof.
  assert (Hd : dirs_upto ["out"] (fs taken)).
  { intros q Hq. destruct q as [|x [|y q]].
    - reflexivity.
    - apply prefix_cons_inv_1 in Hq. subst x. reflexivity.
    - apply prefix_length in Hq. simpl in Hq. lia. }
  split.
  - apply (proj1 (proj2 (proj2 (proj2 (proj2 (proj2 single_copy_failure_is_skipped)))))
             [("a", File "x"); ("b", File "y")] ["in"] ["out"] taken "a" "x").
    + exact Hd.
    + set_solver.
    + reflexivity.
  - apply (proj2 (proj2 (proj2 (proj2 (proj2 (proj2 single_copy_failure_is_skipped)))))
             [("a", File "x"); ("b", File "y")] ["in"] ["out"] taken "b" "y").
    + simpl. distinct_names.
    + exact Hd.
    + set_solver.
    + vm_compute. discriminate.
Defined.

(** The failed copy in that run: a is not copied, one warning is logged,
    and b is copied all the same. *)
Example failed_copy_is_logged :
  exists w',
    copyDirectory (Dir [("a", File "x"); ("b", File "y")]) ["in"] ["out"] taken
      = Ret tt w' /\
    fs w' !! ["out"; "a"] = Some D /\
    fs w' !! ["out"; "b"] = Some (F "y") /\
    console w' = ["Could not copy in/a: illegal operation on a directory"].
Proof. eexists. split; [vm_compute; reflexivity|]. vm_compute. auto. Qed.

(** *** [copyModernMonaco] *)

Lemma log_eq line w : log line w = Ret tt (mkWorld (fs w) (console w ++ [line])).
Proof. reflexivity. Qed.

(** The loop of lines 89-98 writes no file, and its flag ends up true
    exactly when every file was found. *)
Lemma verifyFiles_spec files : forall acc w,
  exists c,
    verifyFiles files acc w =
    Ret (acc && forallb (fun f => bool_decide (is_Some (stat (fs w) (publicMonacoPath ++ f))))
                  files)
      (mkWorld (fs w) c).
Proof.
  induction files as [|f files IH]; intros acc w.
  - exists (console w). simpl. now rewrite andb_true_r, world_eta.
  - cbn [verifyFiles forallb].
    assert (Hstep : exists c,
              try_catch
                (fs_access (publicMonacoPath ++ f) ;;
                 log ("Found: " +:+ show f) ;; mret acc)
                (fun _ => log ("Missing: " +:+ show f) ;; mret false) w =
              Ret (acc && bool_decide (is_Some (stat (fs w) (publicMonacoPath ++ f))))
                (mkWorld (fs w) c)).
    { unfold fs_access.
      destruct (decide (is_Some (stat (fs w) (publicMonacoPath ++ f)))) as [Hs|Hs].
      - rewrite (bool_decide_eq_true_2 _ Hs), andb_true_r. eexists.
        apply try_ret_eq. unfold fs_access.
        unfold mbind, M_bind, bind.
        destruct (decide (is_Some (stat (fs w) (publicMonacoPath ++ f))));
          [reflexivity | contradiction].
      - rewrite (bool_decide_eq_false_2 _ Hs), andb_false_r. eexists.
        erewrite try_throw_eq; [reflexivity|].
        unfold mbind, M_bind, bind.
        destruct (decide (is_Some (stat (fs w) (publicMonacoPath ++ f))));
          [contradiction | reflexivity]. }
    destruct Hstep as [c1 E1].
    destruct (IH (acc && bool_decide (is_Some (stat (fs w) (publicMonacoPath ++ f))))
                (mkWorld (fs w) c1)) as [c2 E2].
    exists c2. erewrite bind_ret_eq by exact E1. rewrite E2. simpl.
    now rewrite andb_assoc.
Qed.

(** Lines 51-72 end in a return, or in exit status 1 before anything is
    copied. *)
Lemma copyPhase_cases dist w :
  (exists w', copyPhase dist w = Ret tt w') \/
  (exists w', copyPhase dist w = Exit 1 w' /\ fs w' = fs w).
Proof.
  unfold copyPhase. destruct dist as [n|].
  - left. do 4 (eapply bind_ret_ex; [apply log_eq|]).
    eapply bind_ret_ex; [reflexivity|].
    destruct (copyDirectory_total n monacoDistPath publicMonacoPath
                (mkWorld (fs w)
                   (((((console w ++ ["Copying modern-monaco distribution files..."]) ++
                       ["projectRoot"]) ++
                      ["monacoPath " +:+ show (dirname monacoDistPath)]) ++
                     ["monacoDistPath " +:+ show monacoDistPath]) ++
                    ["Found modern-monaco dist directory"]))) as (w' & E & _).
    exists w'. exact E.
  - right. eexists. split.
    + do 4 (erewrite bind_ret_eq by apply log_eq).
      apply bind_exit_eq. reflexivity.
    + reflexivity.
Qed.

Lemma verifyPhase_missing now w :
  all_present (fs w) = false ->
  exists w', verifyPhase now w = Exit 1 w' /\ fs w' = fs w.
Proof.
  intros Ha. unfold verifyPhase.
  destruct (verifyFiles_spec criticalFiles true
              (mkWorld (fs w) (console w ++ ["Verifying critical files..."])))
    as [c E].
  simpl fs in E. change (true && ?b) with b in E. fold (all_present (fs w)) in E.
  rewrite Ha in E.
  eexists. split.
  - erewrite bind_ret_eq by apply log_eq.
    erewrite bind_ret_eq by exact E.
    apply bind_exit_eq. reflexivity.
  - reflexivity.
Qed.

Lemma verifyPhase_present now w :
  all_present (fs w) = true ->
  (exists w', verifyPhase now w = Ret tt w' /\
              fs w' = <[verificationFile := F (verificationData now)]> (fs w)) \/
  (exists e w', verifyPhase now w = Throw e w' /\ fs w' = fs w).
Proof.
  intros Ha. unfold verifyPhase.
  destruct (verifyFiles_spec criticalFiles true
              (mkWorld (fs w) (console w ++ ["Verifying critical files..."])))
    as [c E].
  simpl fs in E. change (true && ?b) with b in E. fold (all_present (fs w)) in E.
  rewrite Ha in E.
  destruct (write verificationFile (verificationData now) (fs w)) as [m'|e] eqn:Hw.
  - left. eexists. split.
    + erewrite bind_ret_eq by apply log_eq.
      erewrite bind_ret_eq by exact E.
      erewrite bind_ret_eq by reflexivity.
      erewrite bind_ret_eq by apply log_eq.
      erewrite bind_ret_eq by apply log_eq.
      erewrite bind_ret_eq; [apply log_eq|].
      unfold fs_writeFile, io. simpl fs. rewrite Hw. reflexivity.
    + simpl. now apply write_inv in Hw as [_ ->].
  - right. exists e. eexists. split.
    + erewrite bind_ret_eq by apply log_eq.
      erewrite bind_ret_eq by exact E.
      erewrite bind_ret_eq by reflexivity.
      erewrite bind_ret_eq by apply log_eq.
      erewrite bind_ret_eq by apply log_eq.
      apply bind_throw_eq.
      unfold fs_writeFile, io. simpl fs. rewrite Hw. reflexivity.
    + reflexivity.
Qed.

Lemma absent_not_all_present m f :
  f ∈ criticalFiles -> stat m (publicMonacoPath ++ f) = None ->
  all_present m = false.
Proof.
  intros Hin Hs. apply not_true_is_false. unfold all_present. intros E.
  rewrite forallb_forall in E. apply list_elem_of_In in Hin.
  specialize (E f Hin). apply bool_decide_eq_true in E.
  rewrite Hs in E. now destruct E.
Qed.

(** C3. When a critical file is absent under public/monaco after the
    copy, the script ends with exit status 1 and has written nothing since
    the copy: no verification.json. In every run, the file system at the
    end is the one after the copy, or else every critical file was present,
    the script returned, and the only change is the manifest. *)
Theorem missing_critical_file_exits_without_manifest
    (dist : option node) (now : string) (w : world) :
  ((exists f, f ∈ criticalFiles /\
              stat (fs (after_copy dist w)) (publicMonacoPath ++ f) = None) ->
   exit_status (main dist now w) = Some 1%Z /\
   fs (state_of (main dist now w)) = fs (after_copy dist w)) /\
  (fs (state_of (main dist now w)) = fs (after_copy dist w) \/
   (all_present (fs (after_copy dist w)) = true /\
    returns (main dist now w) = true /\
    fs (state_of (main dist now w)) =
      <[verificationFile := F (verificationData now)]> (fs (after_copy dist w)))).
Proof.
  unfold after_copy, main, copyModernMonaco.
  destruct (copyPhase_cases dist w) as [[c Ec] | (c & Ec & Hc)].
  - rewrite Ec. simpl state_of.
    destruct (all_present (fs c)) eqn:Ha.
    + destruct (verifyPhase_present now c Ha) as [(w' & Ev & Hw) | (e & w' & Ev & Hw)].
      * assert (Em : try_catch (copyPhase dist ;; verifyPhase now)
                       (fun e => log ("Copy failed: " +:+ message e) ;; process_exit 1)
                       w = Ret tt w').
        { apply try_ret_eq. erewrite bind_ret_eq by exact Ec. exact Ev. }
        rewrite Em. simpl. split; [|right; auto].
        intros (f & Hin & Hs). rewrite (absent_not_all_present _ f Hin Hs) in Ha.
        discriminate.
      * assert (Em : try_catch (copyPhase dist ;; verifyPhase now)
                       (fun e => log ("Copy failed: " +:+ message e) ;; process_exit 1)
                       w = Exit 1 (mkWorld (fs w')
                                     (console w' ++ ["Copy failed: " +:+ message e]))).
        { erewrite try_throw_eq; [reflexivity|].
          erewrite bind_ret_eq by exact Ec. exact Ev. }
        rewrite Em. simpl. auto.
    + destruct (verifyPhase_missing now c Ha) as (w' & Ev & Hw).
      assert (Em : try_catch (copyPhase dist ;; verifyPhase now)
                     (fun e => log ("Copy failed: " +:+ message e) ;; process_exit 1)
                     w = Exit 1 w').
      { apply try_exit_eq. erewrite bind_ret_eq by exact Ec. exact Ev. }
      rewrite Em. simpl. auto.
  - rewrite Ec. simpl state_of.
    assert (Em : try_catch (copyPhase dist ;; verifyPhase now)
                   (fun e => log ("Copy failed: " +:+ message e) ;; process_exit 1)
                   w = Exit 1 c).
    { apply try_exit_eq. now apply bind_exit_eq. }
    rewrite Em. simpl. auto.
Qed.

(** A distribution without onig.wasm and the other critical files. *)
Lemma missing_critical_file_witness :
  exit_status (main (Some small_dist) "2025-01-01T00:00:00.000Z" (mkWorld ∅ []))
    = Some 1%Z /\
  fs (state_of (main (Some small_dist) "2025-01-01T00:00:00.000Z" (mkWorld ∅ [])))
    = fs (after_copy (Some small_dist) (mkWorld ∅ [])).
Proof.
  apply (proj1 (missing_critical_file_exits_without_manifest
                  (Some small_dist) "2025-01-01T00:00:00.000Z" (mkWorld ∅ []))).
  exists ["onig.wasm"]. split; [set_solver | vm_compute; reflexivity].
Defined.

(** With a complete distribution the script returns and the manifest is
    there. *)
Example complete_copy_writes_manifest :
  returns (main (Some full_dist) "t" (mkWorld ∅ [])) = true /\
  fs (state_of (main (Some full_dist) "t" (mkWorld ∅ []))) !! verificationFile
    = Some (F (verificationData "t")).
Proof. vm_compute. auto. Qed.

(** *** Nothing is removed *)

Lemma nothing_removed_refl m : nothing_removed m m.
Proof. split; eauto. Qed.

Lemma nothing_removed_trans m1 m2 m3 :
  nothing_removed m1 m2 -> nothing_removed m2 m3 -> nothing_removed m1 m3.
Proof.
  intros [D1 F1] [D2 F2]. split; [auto|].
  intros q data H. destruct (F1 q data H) as [data' H']. eauto.
Qed.

Lemma mkdirp_keeps pre rest m m' :
  mkdirp pre rest m = Ok m' -> nothing_removed m m'.
Proof.
  intros E. destruct (mkdirp_frame _ _ _ _ E) as [Hmono _]. split; eauto.
Qed.

Lemma write_keeps p data m m' :
  write p data m = Ok m' -> nothing_removed m m'.
Proof.
  intros H. pose proof (write_touched _ _ _ _ H) as [HD _].
  apply write_inv in H as [_ ->]. split; [exact HD|].
  intros q d Hq. destruct (decide (q = p)) as [->|Hne].
  - exists data. apply lookup_insert_eq.
  - exists d. now rewrite lookup_insert_ne by congruence.
Qed.

Lemma ensureDir_keeps dir w :
  exists r, ensureDir dir w = r /\ nothing_removed (fs w) (fs (state_of r)) /\
            (forall c w', r <> Exit c w').
Proof.
  eexists. split; [reflexivity|].
  destruct (ensureDir_cases dir w) as [(m' & E & -> & _) | [-> | ->]]; simpl.
  - split; [now apply mkdirp_keeps in E | discriminate].
  - split; [apply nothing_removed_refl | discriminate].
  - split; [apply nothing_removed_refl | discriminate].
Qed.

Lemma copyFile_keeps src at_src dest w :
  exists b w', copyFile src at_src dest w = Ret b w' /\ nothing_removed (fs w) (fs w').
Proof.
  unfold copyFile.
  destruct (ensureDir_cases (dirname dest) w) as [(m' & E & He & _) | [He | He]].
  - apply mkdirp_keeps in E.
    destruct (fs_copyFile_cases at_src dest (mkWorld m' (console w)))
      as [(data & m2 & -> & Hw & Hf) | [e Hf]].
    + exists true, (mkWorld m2 (console w)). split.
      * apply try_ret_eq. erewrite bind_ret_eq by exact He.
        erewrite bind_ret_eq by exact Hf. reflexivity.
      * simpl. eapply nothing_removed_trans; [exact E|].
        now apply write_keeps in Hw.
    + eexists false, _. split.
      * erewrite try_throw_eq; [reflexivity|].
        erewrite bind_ret_eq by exact He. apply bind_throw_eq. exact Hf.
      * exact E.
  - destruct (fs_copyFile_cases at_src dest w)
      as [(data & m2 & -> & Hw & Hf) | [e Hf]].
    + exists true, (mkWorld m2 (console w)). split.
      * apply try_ret_eq. erewrite bind_ret_eq by exact He.
        erewrite bind_ret_eq by exact Hf. reflexivity.
      * simpl. now apply write_keeps in Hw.
    + eexists false, _. split.
      * erewrite try_throw_eq; [reflexivity|].
        erewrite bind_ret_eq by exact He. apply bind_throw_eq. exact Hf.
      * apply nothing_removed_refl.
  - eexists false, _. split.
    + erewrite try_throw_eq; [reflexivity|]. apply bind_throw_eq. exact He.
    + apply nothing_removed_refl.
Qed.

Lemma loop_keeps src dest (es : list (string * node)) :
  Forall (fun e => forall src' dest' w, exists w',
            copyDirectory e.2 src' dest' w = Ret tt w' /\
            nothing_removed (fs w) (fs w')) es ->
  forall w, exists w',
    for_of (copyEntry src dest) es w = Ret tt w' /\
    nothing_removed (fs w) (fs w').
Proof.
  induction 1 as [|[name child] es He _ IH]; intros w.
  - exists w. split; [reflexivity | apply nothing_removed_refl].
  - assert (H1 : exists w1, copyEntry src dest (name, child) w = Ret tt w1 /\
                            nothing_removed (fs w) (fs w1)).
    { simpl in He |- *. destruct child as [data|sub]; [|apply He].
      destruct (copyFile_keeps (src ++ [name]) (Some (File data)) (dest ++ [name]) w)
        as (b & w1 & E & Hk).
      exists w1. split; [erewrite bind_ret_eq by exact E; reflexivity | exact Hk]. }
    destruct H1 as (w1 & E1 & K1). destruct (IH w1) as (w2 & E2 & K2).
    exists w2. split.
    + change (for_of (copyEntry src dest) ((name, child) :: es))
        with (copyEntry src dest (name, child) ;; for_of (copyEntry src dest) es).
      erewrite bind_ret_eq by exact E1. exact E2.
    + eapply nothing_removed_trans; eassumption.
Qed.

Lemma copyDirectory_keeps n : forall src dest w,
  exists w',
    copyDirectory n src dest w = Ret tt w' /\ nothing_removed (fs w) (fs w').
Proof.
  induction n as [data|es IH] using node_ind'; intros src dest w.
  - rewrite copyDirectory_File.
    destruct (ensureDir_cases dest w) as [(m' & Em & He & _) | [He | He]].
    + eexists. split.
      * erewrite try_throw_eq; [reflexivity|].
        erewrite bind_ret_eq by exact He. reflexivity.
      * simpl. now apply mkdirp_keeps in Em.
    + eexists. split.
      * erewrite try_throw_eq; [reflexivity|].
        erewrite bind_ret_eq by exact He. reflexivity.
      * apply nothing_removed_refl.
    + eexists. split.
      * erewrite try_throw_eq; [reflexivity|]. apply bind_throw_eq. exact He.
      * apply nothing_removed_refl.
  - rewrite copyDirectory_Dir.
    destruct (ensureDir_cases dest w) as [(m' & Em & He & _) | [He | He]].
    + destruct (loop_keeps src dest es IH (mkWorld m' (console w)))
        as (w2 & E2 & K2).
      exists w2. split.
      * apply try_ret_eq. erewrite bind_ret_eq by exact He. exact E2.
      * eapply nothing_removed_trans; [|exact K2]. now apply mkdirp_keeps in Em.
    + destruct (loop_keeps src dest es IH w) as (w2 & E2 & K2).
      exists w2. split; [|exact K2].
      apply try_ret_eq. erewrite bind_ret_eq by exact He. exact E2.
    + eexists. split.
      * erewrite try_throw_eq; [reflexivity|]. apply bind_throw_eq. exact He.
      * apply nothing_removed_refl.
Qed.

(** The copy only adds and overwrites. Whatever the source holds and
    whatever fails on the way, every directory that was there is still a
    directory, every file is still a file (a file of the destination that
    the source does not name keeps its place), and what lies neither
    above nor below [dest] is as it was. *)
Theorem copy_never_removes (n : node) (src dest : path) (w : world) :
  exists w',
    copyDirectory n src dest w = Ret tt w' /\
    nothing_removed (fs w) (fs w') /\
    (forall q, ~ around dest q -> fs w' !! q = fs w !! q).
Proof.
  destruct (copyDirectory_keeps n src dest w) as (w' & E & K).
  destruct (copyDirectory_total n src dest w) as (w2 & E2 & _ & Hfr).
  rewrite E in E2. injection E2 as <-.
  exists w'. auto.
Qed.

(** *** A regular file where the destination should be *)

Lemma mkdirp_blocked rest1 : forall pre rest2 m data,
  rest1 <> [] ->
  (forall q, q `prefix_of` pre ++ rest1 -> length pre < length q ->
             q <> pre ++ rest1 -> m !! q = Some D) ->
  m !! (pre ++ rest1) = Some (F data) ->
  mkdirp pre (rest1 ++ rest2) m =
  Err (match rest2 with [] => EEXIST | _ => ENOTDIR end).
Proof.
  induction rest1 as [|x rest1 IH]; intros pre rest2 m data Hne Hd Hf; [congruence|].
  destruct rest1 as [|y rest1].
  - simpl. now rewrite Hf.
  - cbn [app mkdirp].
    rewrite (Hd (pre ++ [x])).
    + change (y :: rest1 ++ rest2) with ((y :: rest1) ++ rest2).
      apply (IH (pre ++ [x]) rest2 m data); [discriminate | |].
      * intros q Hp Hl Hq. rewrite <- app_assoc in Hp, Hq. apply Hd; auto.
        rewrite length_app in Hl. simpl in Hl. lia.
      * now rewrite <- app_assoc.
    + apply prefix_app, prefix_cons, prefix_nil.
    + rewrite length_app. simpl. lia.
    + intros E. apply app_inv_head in E. discriminate.
Qed.

Lemma blocked_mkdirp dest rest2 m data :
  dirs_upto (dirname dest) m -> stat m dest = Some (F data) ->
  mkdirp [] (dest ++ rest2) m =
  Err (match rest2 with [] => EEXIST | _ => ENOTDIR end).
Proof.
  intros Hd Hf.
  assert (Hne : dest <> []) by (intros ->; discriminate).
  apply (mkdirp_blocked dest [] rest2 m data Hne).
  - simpl. intros q Hp Hl Hq.
    rewrite <- stat_lookup by (destruct q; simpl in *; [lia | congruence]).
    apply Hd. destruct dest as [|x dest _] using rev_ind; [congruence|].
    rewrite dirname_snoc. apply prefix_snoc_inv in Hp as [Hp | Hp]; congruence.
  - simpl. now rewrite <- stat_lookup.
Qed.

Lemma ensureDir_blocked dest data w :
  dirs_upto (dirname dest) (fs w) -> stat (fs w) dest = Some (F data) ->
  ensureDir dest w = Ret tt w.
Proof.
  intros Hd Hf. pose proof (blocked_mkdirp dest [] _ data Hd Hf) as H.
  rewrite app_nil_r in H.
  unfold ensureDir, try_catch, fs_mkdir_recursive, io. rewrite H. reflexivity.
Qed.

Lemma ensureDir_below_blocked dest name data w :
  dirs_upto (dirname dest) (fs w) -> stat (fs w) dest = Some (F data) ->
  ensureDir (dest ++ [name]) w = Throw ENOTDIR w.
Proof.
  intros Hd Hf. pose proof (blocked_mkdirp dest [name] _ data Hd Hf) as H.
  unfold ensureDir, try_catch, fs_mkdir_recursive, io. rewrite H. reflexivity.
Qed.

Lemma blocked_entry src dest data e w :
  dirs_upto (dirname dest) (fs w) -> stat (fs w) dest = Some (F data) ->
  exists line,
    copyEntry src dest e w = Ret tt (mkWorld (fs w) (console w ++ [line])).
Proof.
  intros Hd Hf. destruct e as [name [d|sub]]; unfold copyEntry.
  - eexists. unfold copyFile. rewrite dirname_snoc.
    pose proof (ensureDir_blocked dest data w Hd Hf) as He.
    erewrite bind_ret_eq; [reflexivity|].
    erewrite try_throw_eq; [reflexivity|].
    erewrite bind_ret_eq by exact He.
    apply bind_throw_eq. unfold fs_copyFile, io, write.
    rewrite dirname_snoc, Hf. reflexivity.
  - eexists. rewrite copyDirectory_Dir.
    erewrite try_throw_eq; [reflexivity|].
    apply bind_throw_eq. exact (ensureDir_below_blocked dest name data w Hd Hf).
Qed.

(** When a regular file has the name of the destination, [ensureDir]
    takes its EEXIST for success, and the copy that follows returns as
    after a success: it has written nothing, and the console has one
    warning for each entry of the source directory. *)
Theorem file_in_place_of_destination_copies_nothing
    (es : list (string * node)) (src dest : path) (data : string) (w : world) :
  dirs_upto (dirname dest) (fs w) ->
  stat (fs w) dest = Some (F data) ->
  ensureDir dest w = Ret tt w /\
  exists lines,
    copyDirectory (Dir es) src dest w = Ret tt (mkWorld (fs w) (console w ++ lines)) /\
    length lines = length es.
Proof.
  intros Hd Hf.
  pose proof (ensureDir_blocked dest data w Hd Hf) as He.
  split; [exact He|].
  assert (Hloop : forall es c, exists lines,
            for_of (copyEntry src dest) es (mkWorld (fs w) c) =
              Ret tt (mkWorld (fs w) (c ++ lines)) /\
            length lines = length es).
  { clear He. intros l. induction l as [|e l IH]; intros c.
    - exists []. rewrite app_nil_r. auto.
    - destruct (blocked_entry src dest data e (mkWorld (fs w) c) Hd Hf) as [line E].
      destruct (IH (c ++ [line])) as (lines & E2 & Hl).
      exists (line :: lines). split; [|simpl; now rewrite Hl].
      change (for_of (copyEntry src dest) (e :: l))
        with (copyEntry src dest e ;; for_of (copyEntry src dest) l).
      erewrite bind_ret_eq by exact E. simpl fs. simpl console.
      rewrite E2. now rewrite <- app_assoc. }
  destruct (Hloop es (console w)) as (lines & E & Hl).
  exists lines. split; [|exact Hl].
  rewrite copyDirectory_Dir. apply try_ret_eq.
  erewrite bind_ret_eq by exact He. now rewrite <- E, world_eta.
Qed.

Lemma file_in_place_witness :
  ensureDir ["out"] blocked = Ret tt blocked /\
  exists lines,
    copyDirectory small_dist ["dist"] ["out"] blocked =
      Ret tt (mkWorld (fs blocked) (console blocked ++ lines)) /\
    length lines = 2.
Proof.
  apply (file_in_place_of_destination_copies_nothing
           [ ("index.mjs", File "export {}");
             ("lsp", Dir [("worker.mjs", File "onmessage = null")]) ]
           ["dist"] ["out"] "not a directory" blocked).
  - intros q Hq. apply prefix_nil_inv in Hq as ->. reflexivity.
  - reflexivity.
Defined.

(** *** A file whose directories are missing *)

Lemma dirname_shorter (p : path) : p <> [] -> length (dirname p) < length p.
Proof.
  intros Hp. destruct p as [|x p _] using rev_ind; [congruence|].
  rewrite dirname_snoc, length_app. simpl. lia.
Qed.

(** [copyFile] makes the directories that the destination lacks. When
    nothing but directories lies above [dest] and no directory has its
    name, the file is copied without a warning, every directory above it
    exists afterwards, and nothing else has changed. *)
Theorem copyFile_creates_missing_directories
    (src dest : path) (data : string) (w : world) :
  (forall q, q `prefix_of` dirname dest ->
             stat (fs w) q = None \/ stat (fs w) q = Some D) ->
  stat (fs w) dest <> Some D ->
  dest <> [] ->
  exists w',
    copyFile src (Some (File data)) dest w = Ret true w' /\
    fs w' !! dest = Some (F data) /\
    dirs_upto (dirname dest) (fs w') /\
    console w' = console w /\
    (forall q, ~ q `prefix_of` dest -> fs w' !! q = fs w !! q).
Proof.
  intros Hup Hnd Hne.
  destruct (ensureDir_creates (dirname dest) w Hup) as (m' & He & Hd & Hmono & Hfr).
  assert (Hdest : stat m' dest <> Some D).
  { rewrite stat_lookup by exact Hne. rewrite Hfr.
    - now rewrite <- stat_lookup.
    - intros Hp. apply prefix_length in Hp.
      pose proof (dirname_shorter dest Hne). lia. }
  exists (mkWorld (<[dest := F data]> m') (console w)).
  split; [|split; [|split; [|split]]].
  - unfold copyFile. apply try_ret_eq.
    erewrite bind_ret_eq by exact He.
    erewrite bind_ret_eq; [reflexivity|].
    unfold fs_copyFile, io. simpl fs.
    rewrite write_ok; [reflexivity | | exact Hdest].
    apply Hd. reflexivity.
  - apply lookup_insert_eq.
  - intros q Hq. specialize (Hd q Hq). destruct q as [|x q]; [reflexivity|].
    simpl in *. rewrite lookup_insert_ne; [exact Hd|].
    intros Heq. apply prefix_length in Hq. rewrite <- Heq in Hq.
    pose proof (dirname_shorter dest Hne). lia.
  - reflexivity.
  - intros q Hq. simpl. rewrite lookup_insert_ne by (intros <-; now apply Hq).
    apply Hfr. intros Hp. apply Hq. etransitivity; [exact Hp | apply dirname_prefix].
Qed.

Lemma copyFile_creates_witness :
  exists w',
    copyFile ["src"; "index.html"] (Some (File "<html>")) ["public"; "index.html"]
      (mkWorld ∅ []) = Ret true w' /\
    fs w' !! ["public"; "index.html"] = Some (F "<html>") /\
    dirs_upto (dirname ["public"; "index.html"]) (fs w') /\
    console w' = [] /\
    (forall q, ~ q `prefix_of` ["public"; "index.html"] ->
               fs w' !! q = (∅ : gmap path entry) !! q).
Proof.
  apply (copyFile_creates_missing_directories ["src"; "index.html"]
           ["public"; "index.html"] "<html>" (mkWorld ∅ [])).
  - intros q _. destruct q; [right | left]; reflexivity.
  - simpl. rewrite lookup_empty. discriminate.
  - discriminate.
Defined.

(** *** The whole script *)

Lemma copyPhase_found n w :
  exists c,
    copyPhase (Some n) w =
    copyDirectory n monacoDistPath publicMonacoPath (mkWorld (fs w) c).
Proof.
  eexists. unfold copyPhase.
  do 4 (erewrite bind_ret_eq by apply log_eq).
  erewrite bind_ret_eq by reflexivity. reflexivity.
Qed.

Lemma present_after_mirror dist m :
  mirrors dist publicMonacoPath m ->
  (forall f, f ∈ criticalFiles -> is_Some (lookup_node dist f)) ->
  all_present m = true.
Proof.
  intros Hm Hc. unfold all_present. apply forallb_forall. intros f Hin.
  apply list_elem_of_In in Hin. apply bool_decide_eq_true.
  assert (Hf : f <> []).
  { intros ->. revert Hin. unfold criticalFiles. intros Hin.
    repeat (apply elem_of_cons in Hin as [Hin | Hin]; [discriminate|]).
    inversion Hin. }
  rewrite stat_lookup by (destruct f; [congruence | discriminate]).
  rewrite (Hm f Hf). destruct (Hc f Hin) as [n ->]. eauto.
Qed.

Lemma install_spec
    (dist : node) (now : string) (w : world) :
  well_formed dist ->
  is_dir dist ->
  (forall f, f ∈ criticalFiles -> is_Some (lookup_node dist f)) ->
  (forall es, lookup_node dist ["verification.json"] <> Some (Dir es)) ->
  empty_destination publicMonacoPath (fs w) ->
  exists w',
    main (Some dist) now w = Ret tt w' /\
    fs w' !! verificationFile = Some (F (verificationData now)) /\
    all_present (fs w') = true /\
    (forall r, r <> [] -> r <> ["verification.json"] ->
       fs w' !! (publicMonacoPath ++ r) = entry_of <$> lookup_node dist r).
Proof.
  intros Hwf Hdir Hcrit Hv Hempty.
  destruct (copyPhase_found dist w) as [c Ec].
  destruct (copy_fresh dist Hwf Hdir c monacoDistPath publicMonacoPath (fs w) Hempty)
    as (m1 & E1 & Hd1 & Hm1).
  rewrite E1 in Ec.
  pose proof (present_after_mirror dist m1 Hm1 Hcrit) as Ha.
  assert (Hw : write verificationFile (verificationData now) m1 =
               Ok (<[verificationFile := F (verificationData now)]> m1)).
  { apply write_ok.
    - unfold verificationFile. rewrite dirname_snoc. apply Hd1. reflexivity.
    - rewrite stat_lookup by discriminate. unfold verificationFile.
      rewrite (Hm1 ["verification.json"]) by discriminate.
      destruct (lookup_node dist ["verification.json"]) as [[d|es]|] eqn:E;
        simpl; try discriminate.
      now destruct (Hv es). }
  destruct (verifyPhase_present now (mkWorld m1 c) Ha)
    as [(w' & Ev & Hfs) | (e & w' & Ev & _)].
  - exists w'. simpl in Hfs. split; [|split; [|split]].
    + unfold main, copyModernMonaco. apply try_ret_eq.
      erewrite bind_ret_eq by exact Ec. exact Ev.
    + rewrite Hfs. apply lookup_insert_eq.
    + rewrite Hfs. unfold all_present in *. rewrite forallb_forall in Ha |- *.
      intros f Hin. specialize (Ha f Hin). apply bool_decide_eq_true in Ha.
      apply bool_decide_eq_true.
      assert (Hp : publicMonacoPath ++ f <> []) by (unfold publicMonacoPath; discriminate).
      rewrite stat_lookup in Ha |- * by exact Hp.
      destruct (decide (verificationFile = publicMonacoPath ++ f)) as [<-|Hne].
      * rewrite lookup_insert_eq. eauto.
      * rewrite lookup_insert_ne by exact Hne. exact Ha.
    + intros r Hr Hnv. rewrite Hfs, lookup_insert_ne; [now apply Hm1|].
      unfold verificationFile. intros E. apply app_inv_head in E. congruence.
  - exfalso. revert Ev. unfold verifyPhase.
    destruct (verifyFiles_spec criticalFiles true
                (mkWorld m1 (c ++ ["Verifying critical files..."]))) as [c2 E2].
    simpl fs in E2. change (true && ?b) with b in E2. fold (all_present m1) in E2.
    rewrite Ha in E2.
    erewrite bind_ret_eq by apply log_eq.
    erewrite bind_ret_eq by exact E2.
    erewrite bind_ret_eq by reflexivity.
    erewrite bind_ret_eq by apply log_eq.
    erewrite bind_ret_eq by apply log_eq.
    erewrite bind_ret_eq; [rewrite log_eq; discriminate|].
    unfold fs_writeFile, io. simpl fs. rewrite Hw. reflexivity.
Qed.

(** The success path of the script. A well-formed distribution directory
    that holds every critical file, and no directory called
    verification.json, is installed into an empty public/monaco: the
    script returns (exit status 0), the manifest holds the time and the
    list of files, and everything else below public/monaco is the
    distribution, entry by entry. *)
Theorem complete_distribution_is_installed
    (dist : node) (now : string) (w : world) :
  well_formed dist ->
  is_dir dist ->
  (forall f, f ∈ criticalFiles -> is_Some (lookup_node dist f)) ->
  (forall es, lookup_node dist ["verification.json"] <> Some (Dir es)) ->
  empty_destination publicMonacoPath (fs w) ->
  exists w',
    main (Some dist) now w = Ret tt w' /\
    fs w' !! verificationFile = Some (F (verificationData now)) /\
    all_present (fs w') = true /\
    (forall r, r <> [] -> r <> ["verification.json"] ->
       fs w' !! (publicMonacoPath ++ r) = entry_of <$> lookup_node dist r).
Proof.
  intros Hwf Hdir Hcrit Hv Hempty.
  destruct (install_spec dist now w Hwf Hdir Hcrit Hv Hempty)
    as (w' & E & Hm & Ha & Hr).
  exists w'. split; [exact E|]. split; [exact Hm|]. split; [exact Ha | exact Hr].
Qed.

Lemma complete_distribution_witness :
  exists w',
    main (Some full_dist) "2025-01-01T00:00:00.000Z" (mkWorld ∅ []) = Ret tt w' /\
    fs w' !! verificationFile =
      Some (F (verificationData "2025-01-01T00:00:00.000Z")) /\
    all_present (fs w') = true /\
    (forall r, r <> [] -> r <> ["verification.json"] ->
       fs w' !! (publicMonacoPath ++ r) = entry_of <$> lookup_node full_dist r).
Proof.
  apply (complete_distribution_is_installed full_dist
           "2025-01-01T00:00:00.000Z" (mkWorld ∅ [])).
  - repeat (simpl; split; [distinct_names|]); simpl; repeat split; distinct_names.
  - eexists. reflexivity.
  - intros f Hin. unfold criticalFiles in Hin.
    repeat (apply elem_of_cons in Hin as [-> | Hin]; [vm_compute; eauto|]).
    inversion Hin.
  - intros es. vm_compute. discriminate.
  - split.
    + intros q _. destruct q; [right | left]; reflexivity.
    + intros r _. apply lookup_empty.
Defined.

(** Without the distribution the script stops before it copies: exit
    status 1, the file system as it was (public/monaco is not even
    created), and the path it looked for as its last line. *)
Theorem missing_distribution_exits_before_copying (now : string) (w : world) :
  exists w',
    main None now w = Exit 1 w' /\
    fs w' = fs w /\
    last (console w') = Some ("   Looking for: " +:+ show monacoDistPath).
Proof.
  eexists. split; [|split].
  - unfold main, copyModernMonaco. apply try_exit_eq. apply bind_exit_eq.
    unfold copyPhase. do 4 (erewrite bind_ret_eq by apply log_eq).
    apply bind_exit_eq. reflexivity.
  - reflexivity.
  - simpl. apply last_snoc.
Qed.

End CopierFacts.

(** ** The debug panel *)

Module DebugLoggerFacts.
Import Js DebugLogger.

(** The loop of lines 19-21 leaves the last [maxLogs] children. *)
Lemma trim_drop (l : list div) : trim l = drop (length l - maxLogs) l.
Proof.
  induction l as [|x l IH]; [reflexivity|].
  cbn [trim]. destruct (Nat.ltb maxLogs (length (x :: l))) eqn:E.
  - apply Nat.ltb_lt in E. simpl in E. rewrite IH.
    replace (length (x :: l) - maxLogs) with (S (length l - maxLogs))
      by (simpl; unfold maxLogs in *; lia).
    reflexivity.
  - apply Nat.ltb_ge in E.
    replace (length (x :: l) - maxLogs) with 0 by lia. reflexivity.
Qed.

Lemma last_of_last {A} (xs ys : list A) m :
  drop (length (drop (length xs - m) xs ++ ys) - m) (drop (length xs - m) xs ++ ys) =
  drop (length (xs ++ ys) - m) (xs ++ ys).
Proof.
  rewrite <- (drop_app_le xs ys) by lia.
  rewrite drop_drop, length_drop, !length_app. f_equal. lia.
Qed.

Section Clock.
Context (time : nat -> string).

Lemma logs_spec (calls : list (string * string)) : forall l,
  length (logElement l) <= maxLogs ->
  exists l',
    for_of (fun c => log time c.1 c.2) calls l = Ret tt l' /\
    logElement l' =
      drop (length (logElement l ++ entries time (clock l) calls) - maxLogs)
        (logElement l ++ entries time (clock l) calls) /\
    console l' = console l ++ lines calls /\
    clock l' = clock l + length calls.
Proof.
  induction calls as [|[message type] calls IH]; intros l Hl.
  - exists l. simpl. rewrite !app_nil_r, Nat.add_0_r.
    replace (length (logElement l) - maxLogs) with 0 by lia. auto.
  - set (l1 := mkLogger
                 (trim (logElement l ++ [mkDiv type ("[" +:+ time (clock l) +:+ "] " +:+ message)]))
                 (console l ++ ["[" +:+ toUpperCase type +:+ "] " +:+ message])
                 (S (clock l))).
    assert (H1 : length (logElement l1) <= maxLogs).
    { simpl. rewrite trim_drop, length_drop. lia. }
    destruct (IH l1 H1) as (l' & E & Hc & Ho & Hk).
    exists l'. split; [exact E|]. split; [|split].
    + rewrite Hc. simpl logElement. simpl clock. rewrite trim_drop.
      cbn [entries].
      rewrite (last_of_last _ (entries time (S (clock l)) calls) maxLogs).
      now rewrite <- app_assoc.
    + rewrite Ho. simpl. now rewrite <- app_assoc.
    + rewrite Hk. simpl. lia.
Qed.

End Clock.

(** The panel is a window on the last fifty messages. After any number of
    calls of [log] on a panel that was not over-full, its children are
    the last [maxLogs] of all entries, old and new, in order; there are
    never more than [maxLogs] of them; and the console has got one line
    for every call, none dropped. *)
Theorem debug_log_keeps_the_last_fifty
    (time : nat -> string) (calls : list (string * string)) (l : logger) :
  length (logElement l) <= maxLogs ->
  exists l',
    for_of (fun c => log time c.1 c.2) calls l = Ret tt l' /\
    logElement l' =
      drop (length (logElement l ++ entries time (clock l) calls) - maxLogs)
        (logElement l ++ entries time (clock l) calls) /\
    length (logElement l') = Nat.min maxLogs (length (logElement l) + length calls) /\
    console l' = console l ++ lines calls.
Proof.
  intros Hl. destruct (logs_spec time calls l Hl) as (l' & E & Hc & Ho & _).
  exists l'. split; [exact E|]. split; [exact Hc|]. split; [|exact Ho].
  rewrite Hc, length_drop, length_app.
  assert (Hn : forall k, length (entries time k calls) = length calls).
  { clear. induction calls as [|[m t] calls IH]; intros k; simpl; [|rewrite IH];
      reflexivity. }
  rewrite Hn. lia.
Qed.

Lemma debug_log_witness :
  exists l',
    for_of (fun c => log (fun _ => "12:00:00") c.1 c.2)
      (repeat ("tick", "info") 60) (mkLogger [] [] 0) = Ret tt l' /\
    logElement l' =
      drop (length (logElement (mkLogger [] [] 0) ++
                    entries (fun _ => "12:00:00") 0 (repeat ("tick", "info") 60)) -
            maxLogs)
        (logElement (mkLogger [] [] 0) ++
         entries (fun _ => "12:00:00") 0 (repeat ("tick", "info") 60)) /\
    length (logElement l') = Nat.min maxLogs (0 + length (repeat ("tick", "info") 60)) /\
    console l' = [] ++ lines (repeat ("tick", "info") 60).
Proof.
  apply (debug_log_keeps_the_last_fifty (fun _ => "12:00:00")
           (repeat ("tick", "info") 60) (mkLogger [] [] 0)).
  simpl. unfold maxLogs. lia.
Defined.

End DebugLoggerFacts.

(** ** The application *)

Module MonacoAppFacts.
Import Js MonacoApp.

Section Clock.
Context (time : nat -> string).

(** A call of [openFile] on an app with its workspace: one line, and the
    call waits. *)
Lemma openFile_call_waits filename a :
  workspace a = true ->
  exists a',
    openFile_call time filename a = Ret tt a' /\
    opening a' = opening a ++ [filename] /\
    workspace a' = true /\ fileTree a' = fileTree a /\
    loading a' = loading a /\ indicator a' = indicator a /\
    overlayHidden a' = overlayHidden a /\
    length (DebugLogger.console (logger a')) =
      S (length (DebugLogger.console (logger a))).
Proof.
  intros Hw. destruct a as [l i t o w ft ld op]. simpl in Hw. subst w.
  eexists. split; [reflexivity|]. simpl.
  repeat split. rewrite length_app. simpl. lia.
Qed.

(** A document that opens brings about the next call for the same
    file. *)
Lemma open_round filename a :
  workspace a = true -> is_Some (fileTree a) -> opening a = [filename] ->
  exists a',
    step time a (DocumentSettles None) = Some a' /\
    workspace a' = true /\ fileTree a' = Some (Some filename) /\
    opening a' = [filename] /\
    loading a' = loading a /\ indicator a' = indicator a /\
    overlayHidden a' = overlayHidden a /\
    length (DebugLogger.console (logger a')) =
      2 + length (DebugLogger.console (logger a)).
Proof.
  intros Hw [x Hx] Ho. destruct a as [l i t o w ft ld op]. simpl in *. subst.
  eexists. split; [reflexivity|]. simpl.
  repeat split. rewrite !length_app. simpl. lia.
Qed.

Lemma open_rounds filename n : forall a,
  workspace a = true -> is_Some (fileTree a) -> opening a = [filename] ->
  exists a',
    run time a (repeat (DocumentSettles None) n) = Some a' /\
    workspace a' = true /\ is_Some (fileTree a') /\
    opening a' = [filename] /\
    (0 < n -> fileTree a' = Some (Some filename)) /\
    length (DebugLogger.console (logger a')) =
      2 * n + length (DebugLogger.console (logger a)).
Proof.
  induction n as [|n IH]; intros a Hw Hf Ho.
  - exists a. simpl. repeat split; auto. lia.
  - destruct (open_round filename a Hw Hf Ho)
      as (a1 & E1 & Hw1 & Hf1 & Ho1 & _ & _ & _ & Hc1).
    destruct (IH a1 Hw1 ltac:(rewrite Hf1; eauto) Ho1)
      as (a' & E & Hw' & Hf' & Ho' & Hn & Hc').
    exists a'. cbn [repeat run]. rewrite E1.
    split; [exact E|]. split; [exact Hw'|]. split; [exact Hf'|].
    split; [exact Ho'|]. split; [|lia].
    intros _. destruct n; [|apply Hn; lia].
    simpl in E. injection E as <-. exact Hf1.
Qed.

End Clock.

(** Opening a file opens it again, without end. [selectFile] calls the
    callback that the tree was given, which is [openFile]: so each time
    the document opens, the file is selected and one more call of
    [openFile] for the same file waits for the library. After any number
    of documents opened there is still exactly one call waiting, and the
    console has got two more lines for each round. *)
Theorem opening_a_file_opens_it_again
    (time : nat -> string) (filename : string) (a : app) (n : nat) :
  workspace a = true ->
  is_Some (fileTree a) ->
  opening a = [] ->
  exists a',
    run time (state_of (openFile_call time filename a))
      (repeat (DocumentSettles None) n) = Some a' /\
    opening a' = [filename] /\
    settled a' = false /\
    (0 < n -> fileTree a' = Some (Some filename)) /\
    length (DebugLogger.console (logger a')) =
      1 + 2 * n + length (DebugLogger.console (logger a)).
Proof.
  intros Hw Hf Ho.
  destruct (openFile_call_waits time filename a Hw)
    as (a0 & E0 & Ho0 & Hw0 & Hf0 & _ & _ & _ & Hc0).
  rewrite E0. simpl state_of. rewrite Ho in Ho0. simpl in Ho0.
  destruct (open_rounds time filename n a0 Hw0 ltac:(now rewrite Hf0) Ho0)
    as (a' & E & _ & _ & Ho' & Hn & Hc').
  exists a'. split; [exact E|]. split; [exact Ho'|].
  split; [|split; [exact Hn | lia]].
  unfold settled. rewrite Ho'. now rewrite andb_false_r.
Qed.

Lemma opening_a_file_witness :
  exists a',
    run (fun _ => "12:00:00")
      (state_of (openFile_call (fun _ => "12:00:00") "main.js"
                   (mkApp (DebugLogger.mkLogger [] [] 0) "status-indicator ready"
                      "Monaco Editor Ready" true true (Some None) false [])))
      (repeat (DocumentSettles None) 3) = Some a' /\
    opening a' = ["main.js"] /\
    settled a' = false /\
    (0 < 3 -> fileTree a' = Some (Some "main.js")) /\
    length (DebugLogger.console (logger a')) = 1 + 2 * 3 + 0.
Proof.
  apply (opening_a_file_opens_it_again (fun _ => "12:00:00") "main.js"
           (mkApp (DebugLogger.mkLogger [] [] 0) "status-indicator ready"
              "Monaco Editor Ready" true true (Some None) false []) 3).
  - reflexivity.
  - simpl. eauto.
  - reflexivity.
Defined.

(** *** The status and the overlay *)

Section Clock.
Context (time : nat -> string).

Lemma start_shown failure : shown (start time failure).
Proof.
  destruct failure as [e|]; [right; left | left]; repeat split; simpl; eauto.
Qed.

Lemma step_shown a ev a' : shown a -> step time a ev = Some a' -> shown a'.
Proof.
  intros [H | [H | H]].
  - destruct H as (Hl & Hi & Hov & Ho & Hw & [x Hx]).
    destruct a as [l i t o w ft ld op]. simpl in *. subst.
    destruct ev as [[e|] | r]; simpl; [| |discriminate]; intros [= <-].
    + right; left. repeat split.
    + right; right. repeat split; simpl; eauto.
  - destruct H as (Hl & Hi & Ht & Hov & Ho).
    destruct a as [l i t o w ft ld op]. simpl in *. subst.
    destruct ev; discriminate.
  - destruct H as (Hl & Hi & Hov & Hw & [x Hx] & Ho).
    destruct a as [l i t o w ft ld op]. simpl in *. subst.
    destruct ev as [r | [e|]]; [discriminate | |];
      (destruct Ho as [-> | ->]; [discriminate|]); simpl; intros [= <-];
      right; right; repeat split; simpl; eauto.
Qed.

Lemma run_shown evs : forall a a',
  shown a -> run time a evs = Some a' -> shown a'.
Proof.
  induction evs as [|ev evs IH]; intros a a' Ha; simpl.
  - now intros [= <-].
  - destruct (step time a ev) as [a1|] eqn:E; [|discriminate].
    apply IH. exact (step_shown _ _ _ Ha E).
Qed.

End Clock.

(** The overlay is taken away exactly when the status is ready. However
    the workspace, the editor and the documents turn out, from the
    construction of the app on: the overlay is hidden if and only if the
    indicator shows ready; when it shows the error, the text is
    "Initialization Failed", the overlay still covers the page and
    nothing waits any more; and the only file that the app itself ever
    opens is index.html, in one call at a time. *)
Theorem overlay_is_hidden_exactly_when_ready
    (time : nat -> string) (failure : option Js.error)
    (evs : list event) (a : app) :
  run time (start time failure) evs = Some a ->
  (overlayHidden a = true <-> indicator a = "status-indicator ready") /\
  (indicator a = "status-indicator error" ->
   text a = "Initialization Failed" /\ overlayHidden a = false /\
   settled a = true) /\
  (opening a = [] \/ opening a = ["index.html"]).
Proof.
  intros Hr.
  destruct (run_shown time evs _ a (start_shown time failure) Hr)
    as [H | [H | H]].
  - destruct H as (Hl & Hi & Hov & Ho & _). rewrite Hi, Hov, Ho.
    split; [split; discriminate|]. split; [discriminate | auto].
  - destruct H as (Hl & Hi & Ht & Hov & Ho). rewrite Hi, Hov, Ho.
    split; [split; discriminate|]. split; [|auto].
    intros _. unfold settled. rewrite Hl, Ho. auto.
  - destruct H as (Hl & Hi & Hov & _ & _ & Ho). rewrite Hi, Hov.
    split; [split; reflexivity|]. split; [discriminate | exact Ho].
Qed.

Lemma overlay_witness :
  (overlayHidden
     (state_of (init_resume (fun _ => "12:00:00")
                  (Some (mkError "" "Failed to fetch"))
                  (start (fun _ => "12:00:00") None))) = true <->
   indicator
     (state_of (init_resume (fun _ => "12:00:00")
                  (Some (mkError "" "Failed to fetch"))
                  (start (fun _ => "12:00:00") None))) = "status-indicator ready") /\
  (indicator
     (state_of (init_resume (fun _ => "12:00:00")
                  (Some (mkError "" "Failed to fetch"))
                  (start (fun _ => "12:00:00") None))) = "status-indicator error" ->
   text
     (state_of (init_resume (fun _ => "12:00:00")
                  (Some (mkError "" "Failed to fetch"))
                  (start (fun _ => "12:00:00") None))) = "Initialization Failed" /\
   overlayHidden
     (state_of (init_resume (fun _ => "12:00:00")
                  (Some (mkError "" "Failed to fetch"))
                  (start (fun _ => "12:00:00") None))) = false /\
   settled
     (state_of (init_resume (fun _ => "12:00:00")
                  (Some (mkError "" "Failed to fetch"))
                  (start (fun _ => "12:00:00") None))) = true) /\
  (opening
     (state_of (init_resume (fun _ => "12:00:00")
                  (Some (mkError "" "Failed to fetch"))
                  (start (fun _ => "12:00:00") None))) = [] \/
   opening
     (state_of (init_resume (fun _ => "12:00:00")
                  (Some (mkError "" "Failed to fetch"))
                  (start (fun _ => "12:00:00") None))) = ["index.html"]).
Proof.
  apply (overlay_is_hidden_exactly_when_ready (fun _ => "12:00:00") None
           [MonacoSettles (Some (mkError "" "Failed to fetch"))]).
  reflexivity.
Defined.

End MonacoAppFacts.

(** ** From the copy to the server and to the tester *)

Module SetupFacts.
Import Js Setup.

(** A file under public answers the request: status 200, that file, and
    the type of a module or of WebAssembly when the path ends so. *)
Lemma public_file_typed e req :
  Server.isFile e (Server.staticFile Server.publicRoot (Server.path req)) = true ->
  Server.status (Server.respond e req) = 200 /\
  Server.payload (Server.respond e req) =
    Server.SentFile (Server.staticFile Server.publicRoot (Server.path req)) /\
  (Str.endsWith (Server.path req) ".mjs" = true ->
   Str.endsWith (Server.staticFile Server.publicRoot (Server.path req)) ".wasm" = false ->
   Server.headers (Server.respond e req) !! "Content-Type" = Some Server.javascript) /\
  (Str.endsWith (Server.path req) ".wasm" = true ->
   Str.endsWith (Server.staticFile Server.publicRoot (Server.path req)) ".mjs" = false ->
   Server.headers (Server.respond e req) !! "Content-Type" = Some Server.wasm).
Proof.
  intros Hf.
  assert (Hd : Server.statics e req (Server.preset req) =
               Server.Done
                 (Server.mkResponse 200
                    (Server.sendType e
                       (Server.staticFile Server.publicRoot (Server.path req))
                       (Server.setHeaders
                          (Server.staticFile Server.publicRoot (Server.path req))
                          (Server.preset req)))
                    (Server.SentFile
                       (Server.staticFile Server.publicRoot (Server.path req))))).
  { unfold Server.statics, Server.and_then, Server.serveStatic at 1.
    now rewrite Hf. }
  rewrite (ServerFacts.respond_static e req _ Hd). simpl.
  split; [reflexivity|]. split; [reflexivity|]. split.
  - intros Hm Hw. apply ServerFacts.static_keeps_javascript; [|exact Hw].
    now apply ServerFacts.preset_mjs.
  - intros Hw Hm. apply ServerFacts.static_keeps_wasm; [|exact Hm].
    now apply ServerFacts.preset_wasm.
Qed.

(** What the copy is for. After the success path of copy-monaco, run on
    a distribution whose critical files are regular files, a server that
    finds the files under public answers GET /monaco/<file> for every
    critical file with status 200, the copy under public/monaco, and the
    Content-Type application/wasm for onig.wasm and
    application/javascript for the modules. *)
Theorem installed_modules_are_served
    (dist : Copier.node) (now : string) (w : Copier.world)
    (e : Server.env) (acceptsHtml : bool) :
  Copier.well_formed dist ->
  Copier.is_dir dist ->
  (forall f, f ∈ Copier.criticalFiles ->
     exists content, Copier.lookup_node dist f = Some (Copier.File content)) ->
  (forall es, Copier.lookup_node dist ["verification.json"] <> Some (Copier.Dir es)) ->
  Copier.empty_destination Copier.publicMonacoPath (Copier.fs w) ->
  exists w',
    Copier.main (Some dist) now w = Ret tt w' /\
    (serves e (Copier.fs w') ->
     forall f, f ∈ Copier.criticalFiles ->
       let req := Server.mkRequest ("/monaco/" +:+ Copier.show f) acceptsHtml in
       Server.status (Server.respond e req) = 200 /\
       Server.payload (Server.respond e req) =
         Server.SentFile ("public/monaco/" +:+ Copier.show f) /\
       Server.headers (Server.respond e req) !! "Content-Type" = Some (typeOf f)).
Proof.
  intros Hwf Hdir Hcrit Hv Hempty.
  destruct (CopierFacts.install_spec dist now w Hwf Hdir
              ltac:(intros f Hf; destruct (Hcrit f Hf) as [c ->]; eauto)
              Hv Hempty) as (w' & E & _ & _ & Hr).
  exists w'. split; [exact E|]. intros Hs f Hin.
  destruct (Hcrit f Hin) as [content Hc].
  assert (Hfile : f <> [] -> f <> ["verification.json"] ->
            Server.isFile e ("public/" +:+ Copier.show ("monaco" :: f)) = true).
  { intros H1 H2. apply (Hs ("monaco" :: f) content).
    change ("public" :: "monaco" :: f) with (Copier.publicMonacoPath ++ f).
    rewrite (Hr f H1 H2), Hc. reflexivity. }
  unfold Copier.criticalFiles in Hin.
  repeat (apply elem_of_cons in Hin as [-> | Hin];
          [specialize (Hfile ltac:(discriminate) ltac:(discriminate));
           match goal with
           | |- let req := Server.mkRequest ?p _ in _ =>
               let q := eval vm_compute in p in
               destruct (public_file_typed e (Server.mkRequest q acceptsHtml) Hfile)
                 as (H200 & Hsent & Hjs & Hwasm);
               cbv zeta; split; [exact H200|]; split; [exact Hsent|];
               first [apply Hjs; reflexivity | apply Hwasm; reflexivity]
           end|]).
  inversion Hin.
Qed.

Lemma installed_modules_witness :
  exists w',
    Copier.main (Some Copier.full_dist) "2025-01-01T00:00:00.000Z"
      (Copier.mkWorld ∅ []) = Ret tt w' /\
    (serves finds_all (Copier.fs w') ->
     forall f, f ∈ Copier.criticalFiles ->
       let req := Server.mkRequest ("/monaco/" +:+ Copier.show f) false in
       Server.status (Server.respond finds_all req) = 200 /\
       Server.payload (Server.respond finds_all req) =
         Server.SentFile ("public/monaco/" +:+ Copier.show f) /\
       Server.headers (Server.respond finds_all req) !! "Content-Type" =
         Some (typeOf f)).
Proof.
  apply (installed_modules_are_served Copier.full_dist
           "2025-01-01T00:00:00.000Z" (Copier.mkWorld ∅ []) finds_all false).
  - repeat (simpl; split; [CopierFacts.distinct_names|]); simpl; repeat split;
      CopierFacts.distinct_names.
  - eexists. reflexivity.
  - intros f Hin. unfold Copier.criticalFiles in Hin.
    repeat (apply elem_of_cons in Hin as [-> | Hin]; [vm_compute; eauto|]).
    inversion Hin.
  - intros es. vm_compute. discriminate.
  - split.
    + intros q _. destruct q; [right | left]; reflexivity.
    + intros r _. apply lookup_empty.
Defined.

(** The copier's verification is not the tester's. The tester looks for
    two files under public/monaco that are not among the copier's
    critical files (editor-worker-main.mjs and lsp/index.mjs). So after a
    run of copy-monaco that ended in success, on a distribution without
    one of the files the tester looks for, the tester's report has an
    error and does not end with "Setup appears to be complete!". *)
Theorem copier_check_does_not_cover_the_tester
    (dist : Copier.node) (now : string) (w : Copier.world) :
  Copier.well_formed dist ->
  Copier.is_dir dist ->
  (forall f, f ∈ Copier.criticalFiles -> is_Some (Copier.lookup_node dist f)) ->
  (forall es, Copier.lookup_node dist ["verification.json"] <> Some (Copier.Dir es)) ->
  Copier.empty_destination Copier.publicMonacoPath (Copier.fs w) ->
  exists w',
    Copier.main (Some dist) now w = Ret tt w' /\
    forall e file,
      file ∈ Tester.monacoFiles ->
      Copier.lookup_node dist file = None ->
      (forall p, Tester.disk e p = disk_of (Copier.fs w') p) ->
      exists rep t,
        Tester.runTests e Tester.fresh = Ret rep t /\
        1 <= Tester.nErrors rep /\
        "Setup appears to be complete!" ∉ Tester.recommendations t.
Proof.
  intros Hwf Hdir Hcrit Hv Hempty.
  destruct (CopierFacts.install_spec dist now w Hwf Hdir Hcrit Hv Hempty)
    as (w' & E & _ & _ & Hr).
  exists w'. split; [exact E|]. intros e file Hfile Hnone Hdisk.
  destruct (TesterFacts.runTests_fresh e) as (t & Er & R & _ & _ & _ & X).
  exists (Tester.counts t), t. split; [exact Er|].
  rewrite R in X.
  assert (Hne : file <> [] /\ file <> ["verification.json"]).
  { unfold Tester.monacoFiles in Hfile.
    repeat (apply elem_of_cons in Hfile as [-> | Hfile];
            [split; discriminate|]).
    inversion Hfile. }
  destruct Hne as [Hne1 Hne2].
  assert (Hin : Tester.Error ∈
                map (Tester.verdict e) Tester.checks ++ Tester.scriptVerdicts e).
  { apply elem_of_app. left. apply list_elem_of_In, in_map_iff.
    exists (Tester.FileExists (["public"; "monaco"] ++ file)
              ("Monaco file: " +:+ Tester.show file)).
    split.
    - simpl. rewrite Hdisk. unfold disk_of.
      change (Copier.stat (Copier.fs w') ("public" :: "monaco" :: file))
        with (Copier.fs w' !! (Copier.publicMonacoPath ++ file)).
      rewrite (Hr file Hne1 Hne2), Hnone. reflexivity.
    - unfold Tester.checks. apply in_or_app. right. apply in_or_app. left.
      apply (in_map (fun file =>
               Tester.FileExists (["public"; "monaco"] ++ file)
                 ("Monaco file: " +:+ Tester.show file))).
      apply list_elem_of_In. exact Hfile. }
  assert (Herr : 1 <= length (Tester.errors t)).
  { destruct (Tester.tally Tester.Error
                (map (Tester.verdict e) Tester.checks ++ Tester.scriptVerdicts e))
      eqn:El; [|lia].
    apply TesterFacts.tally_none in El. contradiction. }
  split; [exact Herr|].
  intros Hc. apply TesterFacts.complete_shown in Hc as [Hz _]. lia.
Qed.

Lemma copier_check_witness :
  exists w',
    Copier.main (Some Copier.full_dist) "2025-01-01T00:00:00.000Z"
      (Copier.mkWorld ∅ []) = Ret tt w' /\
    forall e file,
      file ∈ Tester.monacoFiles ->
      Copier.lookup_node Copier.full_dist file = None ->
      (forall p, Tester.disk e p = disk_of (Copier.fs w') p) ->
      exists rep t,
        Tester.runTests e Tester.fresh = Ret rep t /\
        1 <= Tester.nErrors rep /\
        "Setup appears to be complete!" ∉ Tester.recommendations t.
Proof.
  apply (copier_check_does_not_cover_the_tester Copier.full_dist
           "2025-01-01T00:00:00.000Z" (Copier.mkWorld ∅ [])).
  - repeat (simpl; split; [CopierFacts.distinct_names|]); simpl; repeat split;
      CopierFacts.distinct_names.
  - eexists. reflexivity.
  - intros f Hin. unfold Copier.criticalFiles in Hin.
    repeat (apply elem_of_cons in Hin as [-> | Hin]; [vm_compute; eauto|]).
    inversion Hin.
  - intros es. vm_compute. discriminate.
  - split.
    + intros q _. destruct q; [right | left]; reflexivity.
    + intros r _. apply lookup_empty.
Defined.

(** The complete distribution of the examples lacks the worker entry that
    the tester asks for. *)
Example full_dist_lacks_worker_main :
  ["editor-worker-main.mjs"] ∈ Tester.monacoFiles /\
  Copier.lookup_node Copier.full_dist ["editor-worker-main.mjs"] = None.
Proof. split; [unfold Tester.monacoFiles; set_solver | reflexivity]. Qed.

End SetupFacts.
